(** * httprouter: the request router of router.go, embedded and verified

    The development follows router.go: captured parameters ([Params],
    [ByName]), the middleware chain ([Use], [applyMiddleware]), route
    registration ([Router_Handle], the method [Handle] of the router), the
    parameter pool ([getParams], [putParams]), the Allow-header computation
    ([allowed]) and the dispatch of one request ([ServeHTTP]).

    The per-method tree (getValue, addRoute, countParams,
    findCaseInsensitivePath) and CleanPath live in files that are not among
    the sources at hand; the router is therefore written over an interface
    [TreeOps], and a route table modelled from the specification
    instantiates it for the concrete scenarios. *)

From Stdlib Require Import ZArith Lia Ascii String List Permutation Sorted.
From Stdlib Require Import Structures.OrderedTypeEx.
From stdpp Require Import base option list sorting gmap strings.

Local Open Scope string_scope.
Local Open Scope Z_scope.
Local Open Scope list_scope.
Local Open Scope stdpp_scope.

(* ===================================================================== *)
(** * Part I: the embedding *)
(* ===================================================================== *)

(** ** Go runtime: panics, traces of effects, defer and recover *)

(** The value carried by a panic ([interface{}]); every panic of the router
    and of the scenarios below carries a message. *)
Inductive PanicVal : Type := PanicString (msg : string).

(** [type Param struct { Key string; Value string }] *)
Record Param : Type := mkParam { Key : string; Value : string }.

(** [type Params []Param]: ordered, the first URL parameter is the first
    element. *)
Definition Params : Type := list Param.

(** The part of [*url.URL] the router reads and writes. *)
Record URL : Type := mkURL { Path : string; RawQuery : string }.

(** The part of [*http.Request] the router reads: the method, the URL,
    whether [req.Context()] is already done, and the value stored in the
    context under [ParamsKey]. *)
Record Request : Type := mkRequest {
  Method : string;
  ReqURL : URL;
  ctxDone : bool;
  ctxParams : option Params
}.

(** What a call does to the response writer, in order. *)
Inductive Event : Type :=
| EvHeaderSet (key value : string)     (* w.Header().Set(key, value) *)
| EvWriteHeader (code : Z)             (* w.WriteHeader(code) *)
| EvRedirect (url : URL) (code : Z)    (* http.Redirect(w, r, url.String(), code) *)
| EvError (code : Z)                   (* http.Error(w, http.StatusText(code), code) *)
| EvFileServer (captured : bool)       (* http.FileServer(fs).ServeHTTP, behind the
                                          error-capturing writer or not *)
| EvUser (what : string) (ps : Params) (* an effect of user code *).

(** A Go call either returns or is left panicking. *)
Inductive Res (A : Type) : Type :=
| Ret (a : A)
| Panic (v : PanicVal).
Arguments Ret {A} a.
Arguments Panic {A} v.

(** A computation writes a trace and returns or panics. *)
Definition Go (A : Type) : Type := (list Event * Res A)%type.

Definition ret {A} (a : A) : Go A := ([], Ret a).

Definition bind {A B} (m : Go A) (k : A → Go B) : Go B :=
  match m with
  | (t, Ret a) => let '(t', r) := k a in (t ++ t', r)
  | (t, Panic v) => (t, Panic v)
  end.

Definition emit (e : Event) : Go unit := ([e], Ret tt).

Definition panic {A} (v : PanicVal) : Go A := ([], Panic v).

Notation "m ;; k" := (bind m (fun _ => k))
  (at level 100, k at level 200, right associativity).

(** The panic a finished body leaves in flight. *)
Definition inflight {A} (r : Res A) : option PanicVal :=
  match r with Panic v => Some v | Ret _ => None end.

(** Go's [recover()]: it returns the panic in flight only when it is called
    directly by the deferred function; called from a function that the
    deferred function calls ([depth] frames below it) it returns nil and the
    panic goes on. *)
Definition recover (depth : nat) (p : option PanicVal) : option PanicVal :=
  match depth with
  | O => p
  | S _ => None
  end.

(** A deferred function: given the panic in flight, its effects and whether
    a [recover()] in it returned that panic (which stops the panicking). *)
Definition Deferred : Type := option PanicVal → list Event * bool.

(** [defer d(); body]: the body runs, then [d]; the panic of the body goes
    on unless [d] recovered it. *)
Definition defer_ (d : Deferred) (body : Go unit) : Go unit :=
  let '(t, r) := body in
  let '(t', stopped) := d (inflight r) in
  (t ++ t', if stopped then Ret tt else r).

(** ** Handlers *)

(** [type Handle func(http.ResponseWriter, *http.Request, Params)] *)
Definition Handle : Type := Request → Params → Go unit.

(** [http.Handler] *)
Definition Handler : Type := Request → Go unit.

(** [type Middleware func(http.Handler) http.Handler] *)
Definition Middleware : Type := Handler → Handler.

(** [type RecoveryHandlerFunc func(http.ResponseWriter, *http.Request, interface{})] *)
Definition RecoveryHandlerFunc : Type := Request → PanicVal → list Event.

(** [type ErrorHandlerFunc func(w, r, statusCode int)] *)
Definition ErrorHandlerFunc : Type := Request → Z → list Event.

(** net/http constants. *)
Definition MethodGet : string := "GET".
Definition MethodHead : string := "HEAD".
Definition MethodOptions : string := "OPTIONS".
Definition MethodConnect : string := "CONNECT".
Definition MethodDelete : string := "DELETE".
Definition StatusOK : Z := 200.
Definition StatusMovedPermanently : Z := 301.
Definition StatusPermanentRedirect : Z := 308.
Definition StatusNotFound : Z := 404.
Definition StatusMethodNotAllowed : Z := 405.
Definition StatusInternalServerError : Z := 500.

(** [defaultErrorHandler]: nothing when the client is gone, else
    [http.Error]. *)
Definition defaultErrorHandler : ErrorHandlerFunc :=
  fun r statusCode => if ctxDone r then [] else [EvError statusCode].

(** ** Captured parameters *)

(** [func (ps Params) ByName(name string) string]: the loop returns at the
    first element whose key is [name]; the empty string after the loop. *)
Fixpoint ByName (ps : Params) (name : string) : string :=
  match ps with
  | [] => ""
  | p :: rest => if String.eqb (Key p) name then Value p else ByName rest name
  end.

(** Reading by position, [ps[i]], on the same slice. *)
Definition ByIndex (ps : Params) (i : nat) : option Param := ps !! i.

(** [var MatchedRoutePathParam = "$matchedRoutePath"] *)
Definition MatchedRoutePathParam : string := "$matchedRoutePath".

(** [func (ps Params) MatchedRoutePath() string] *)
Definition MatchedRoutePath (ps : Params) : string :=
  ByName ps MatchedRoutePathParam.

(** ** The middleware chain *)

(** The loop of [applyMiddleware]:
    [for i := len(ms) - 1; i >= 0; i-- { current = ms[i](current) }];
    [n] is [i + 1]. *)
Fixpoint applyFrom {H : Type} (ms : list (H → H)) (n : nat) (current : H) : H :=
  match n with
  | O => current
  | S i =>
      match ms !! i with
      | Some m => applyFrom ms i (m current)
      | None => current
      end
  end.

(** ** The parameter pool *)

(** A [*Params] of the pool: the slice it points to, as its elements (the
    length) and its capacity. *)
Record Buf : Type := mkBuf { bufItems : Params; bufCap : nat }.

(** ** The tree interface *)

(** What router.go uses of the per-method tree and of the path cleaner.
    [getValue] is given without its [params func() *Params] argument: the
    pool traffic is modelled on its own below, and the handler and the
    trailing-slash recommendation it returns are a function of the tree and
    the path. The second component is the [*Params] it returns ([None] is the
    nil pointer). [addRoute] mutates the node in place and may panic: it
    returns the node as it is left, and the panic if any. *)
Class TreeOps (node : Type) : Type := {
  newNode : node;
  addRoute : node → string → Handle → node * option PanicVal;
  getValue : node → string → option Handle * option Params * bool;
  findCaseInsensitivePath : node → string → bool → string * bool;
  countParams : string → Z;
  CleanPath : string → string
}.

(** ** Sorting and joining the method names *)

(** The inner loop of the sort in [allowed]:
    [for j := i; j > 0 && a[j] < a[j-1]; j-- { a[j], a[j-1] = a[j-1], a[j] }].
    [<] on Go strings is the bytewise lexicographic order, [String.ltb]. *)
Fixpoint sink (a : list string) (j : nat) : list string :=
  match j with
  | O => a
  | S j' =>
      match a !! j, a !! j' with
      | Some x, Some y =>
          if String.ltb x y then sink (<[j' := x]> (<[j := y]> a)) j' else a
      | _, _ => a
      end
  end.

(** The outer loop: [for i, l := 1, len(a); i < l; i++]. *)
Definition sortMethods (a : list string) : list string :=
  fold_left sink (seq 1 (length a - 1)) a.

(** [strings.Join(elems, sep)] *)
Fixpoint Join (elems : list string) (sep : string) : string :=
  match elems with
  | [] => ""
  | [x] => x
  | x :: rest => x +:+ sep +:+ Join rest sep
  end.

(** [len(path) < 1 || path[0] != '/'] *)
Definition lacksLeadingSlash (path : string) : bool :=
  (String.length path <? 1)%nat ||
  match String.get 0 path with
  | Some c => negb (Ascii.eqb c "/")
  | None => true
  end.

(** uint16 arithmetic wraps around. *)
Definition wrap16 (z : Z) : Z := z mod 65536.

(** ** The router *)

(** [sync.Pool]: the items it holds, and whether [New] is set. The [New] of
    the router is a closure over the router itself: it reads [r.maxParams]
    when it is called, not when it is installed. *)
Record Pool : Type := mkPool { poolItems : list Buf; poolNewSet : bool }.

(** [type Router struct]. A nil handler field is [None]; [trees] is the Go
    map from method to root node (a nil map reads like the empty one).
    [FileSystemForUnmatched] keeps the name of the file system only. *)
Record Router (node : Type) : Type := mkRouter {
  trees : gmap string node;
  paramsPool : Pool;
  maxParams : Z;
  Middlewares : list Middleware;
  SaveMatchedRoutePath : bool;
  RedirectTrailingSlash : bool;
  RedirectFixedPath : bool;
  HandleMethodNotAllowed : bool;
  HandleOPTIONS : bool;
  GlobalOPTIONS : option Handler;
  globalAllowed : string;
  NotFound : option Handler;
  MethodNotAllowed : option Handler;
  RecoveryHandler : option RecoveryHandlerFunc;
  FileSystemForUnmatched : option string;
  ServeUnmatchedAsStatic : bool;
  errorHandler : option ErrorHandlerFunc;
  isDefaultErrorHandlerUsed : bool
}.
Arguments mkRouter {node}.
Arguments trees {node}.
Arguments paramsPool {node}.
Arguments maxParams {node}.
Arguments Middlewares {node}.
Arguments SaveMatchedRoutePath {node}.
Arguments RedirectTrailingSlash {node}.
Arguments RedirectFixedPath {node}.
Arguments HandleMethodNotAllowed {node}.
Arguments HandleOPTIONS {node}.
Arguments GlobalOPTIONS {node}.
Arguments globalAllowed {node}.
Arguments NotFound {node}.
Arguments MethodNotAllowed {node}.
Arguments RecoveryHandler {node}.
Arguments FileSystemForUnmatched {node}.
Arguments ServeUnmatchedAsStatic {node}.
Arguments errorHandler {node}.
Arguments isDefaultErrorHandlerUsed {node}.

(** What a request is answered with: the terminal action of the dispatch. *)
Inductive Action : Type :=
| ActInvoke (handle : Handle) (request : Request) (params : Params)
| ActRedirect (url : URL) (code : Z)
| ActOptions (allow : string)
| ActNotAllowed (allow : string)
| ActStatic
| ActNotFound.

(** Why a registration panics: one constructor per [panic] of
    [Router.Handle], and the panics that come out of [addRoute]. *)
Inductive RegPanic : Type :=
| MethodEmpty
| PathWithoutSlash (path : string)
| HandleNil
| FromAddRoute (v : PanicVal).

(** The value each of them panics with. *)
Definition panicValue (e : RegPanic) : PanicVal :=
  match e with
  | MethodEmpty => PanicString "method must not be empty"
  | PathWithoutSlash path =>
      PanicString ("path must begin with '/' in path '" +:+ path +:+ "'")
  | HandleNil => PanicString "handle must not be nil"
  | FromAddRoute v => v
  end.

(** The three argument checks at the head of [Router.Handle]. *)
Definition isValidationPanic (e : RegPanic) : bool :=
  match e with
  | MethodEmpty | PathWithoutSlash _ | HandleNil => true
  | FromAddRoute _ => false
  end.

Section RouterOps.
Context {node : Type} `{TreeOps node}.

(** Assignments to the fields the router writes after construction. *)
Definition set_trees (r : Router node) (t : gmap string node) : Router node :=
  mkRouter t (paramsPool r) (maxParams r) (Middlewares r)
    (SaveMatchedRoutePath r) (RedirectTrailingSlash r) (RedirectFixedPath r)
    (HandleMethodNotAllowed r) (HandleOPTIONS r) (GlobalOPTIONS r)
    (globalAllowed r) (NotFound r) (MethodNotAllowed r) (RecoveryHandler r)
    (FileSystemForUnmatched r) (ServeUnmatchedAsStatic r) (errorHandler r)
    (isDefaultErrorHandlerUsed r).

Definition set_paramsPool (r : Router node) (p : Pool) : Router node :=
  mkRouter (trees r) p (maxParams r) (Middlewares r)
    (SaveMatchedRoutePath r) (RedirectTrailingSlash r) (RedirectFixedPath r)
    (HandleMethodNotAllowed r) (HandleOPTIONS r) (GlobalOPTIONS r)
    (globalAllowed r) (NotFound r) (MethodNotAllowed r) (RecoveryHandler r)
    (FileSystemForUnmatched r) (ServeUnmatchedAsStatic r) (errorHandler r)
    (isDefaultErrorHandlerUsed r).

Definition set_maxParams (r : Router node) (m : Z) : Router node :=
  mkRouter (trees r) (paramsPool r) m (Middlewares r)
    (SaveMatchedRoutePath r) (RedirectTrailingSlash r) (RedirectFixedPath r)
    (HandleMethodNotAllowed r) (HandleOPTIONS r) (GlobalOPTIONS r)
    (globalAllowed r) (NotFound r) (MethodNotAllowed r) (RecoveryHandler r)
    (FileSystemForUnmatched r) (ServeUnmatchedAsStatic r) (errorHandler r)
    (isDefaultErrorHandlerUsed r).

Definition set_Middlewares (r : Router node) (ms : list Middleware) : Router node :=
  mkRouter (trees r) (paramsPool r) (maxParams r) ms
    (SaveMatchedRoutePath r) (RedirectTrailingSlash r) (RedirectFixedPath r)
    (HandleMethodNotAllowed r) (HandleOPTIONS r) (GlobalOPTIONS r)
    (globalAllowed r) (NotFound r) (MethodNotAllowed r) (RecoveryHandler r)
    (FileSystemForUnmatched r) (ServeUnmatchedAsStatic r) (errorHandler r)
    (isDefaultErrorHandlerUsed r).

Definition set_globalAllowed (r : Router node) (s : string) : Router node :=
  mkRouter (trees r) (paramsPool r) (maxParams r) (Middlewares r)
    (SaveMatchedRoutePath r) (RedirectTrailingSlash r) (RedirectFixedPath r)
    (HandleMethodNotAllowed r) (HandleOPTIONS r) (GlobalOPTIONS r)
    s (NotFound r) (MethodNotAllowed r) (RecoveryHandler r)
    (FileSystemForUnmatched r) (ServeUnmatchedAsStatic r) (errorHandler r)
    (isDefaultErrorHandlerUsed r).

(** [func New() *Router]: the four policies on, no middleware, the default
    error handler. *)
Definition New : Router node :=
  mkRouter ∅ (mkPool [] false) 0 []
    false true true true true None "" None None None None false
    (Some defaultErrorHandler) true.

(** [func (r *Router) Use(middleware ...Middleware)] *)
Definition Use (r : Router node) (middleware : list Middleware) : Router node :=
  set_Middlewares r (Middlewares r ++ middleware).

(** [func (r *Router) applyMiddleware(handler http.Handler) http.Handler] *)
Definition applyMiddleware (r : Router node) (handler : Handler) : Handler :=
  applyFrom (Middlewares r) (length (Middlewares r)) handler.

(** *** The pool *)

(** [r.paramsPool.Get()]. [sync.Pool] hands out any item it holds
    ([choice = Some i], the item at position [i]) or behaves as if it held
    none ([choice = None], also when [i] is out of range); then [New] is
    called if it is set, and nil is returned otherwise. [New] is
    [func() interface{} { ps := make(Params, 0, r.maxParams); return &ps }]. *)
Definition poolGet (r : Router node) (choice : option nat) : option Buf * Router node :=
  let fresh :=
    if poolNewSet (paramsPool r)
    then (Some (mkBuf [] (Z.to_nat (maxParams r))), r)
    else (None, r) in
  match choice with
  | Some i =>
      match poolItems (paramsPool r) !! i with
      | Some b =>
          (Some b,
           set_paramsPool r
             (mkPool (delete i (poolItems (paramsPool r)))
                     (poolNewSet (paramsPool r))))
      | None => fresh
      end
  | None => fresh
  end.

(** [func (r *Router) getParams() *Params]: the slice is resliced to
    [0:0], so its length is zero and its capacity stays; on a nil [ps] the
    assignment panics. *)
Definition getParams (r : Router node) (choice : option nat) : Res Buf * Router node :=
  match poolGet r choice with
  | (Some ps, r') => (Ret (mkBuf [] (bufCap ps)), r')
  | (None, r') =>
      (Panic (PanicString "invalid memory address or nil pointer dereference"), r')
  end.

(** [func (r *Router) putParams(ps *Params)] *)
Definition putParams (r : Router node) (ps : option Buf) : Router node :=
  match ps with
  | Some b =>
      set_paramsPool r
        (mkPool (b :: poolItems (paramsPool r)) (poolNewSet (paramsPool r)))
  | None => r
  end.

(** [func (r *Router) saveMatchedRoutePath(path, handle) Handle], on the
    values: the handler receives the captured parameters followed by the
    matched route path (a nil [ps] is the empty slice). The buffer it takes
    from the pool for a nil [ps] and puts back is pool traffic, covered by
    [OpGet] and [OpPut] below. *)
Definition saveMatchedRoutePath (path : string) (handle : Handle) : Handle :=
  fun req ps => handle req (ps ++ [mkParam MatchedRoutePathParam path]).

(** *** The Allow header *)

(** [for method := range r.trees { if skip { continue }; allowedMethods =
    append(allowedMethods, method) }], over the entries in the order the map
    yields them. *)
Definition rangeAppend (keep : string → node → bool)
    (order : list (string * node)) : list string :=
  fold_left
    (fun allowedMethods '(method, root) =>
       if keep method root then allowedMethods ++ [method] else allowedMethods)
    order [].

(** [handle != nil] for [handle, _, _ := root.getValue(path, nil)] *)
Definition hasRoute (root : node) (path : string) : bool :=
  match getValue root path with
  | (Some _, _, _) => true
  | (None, _, _) => false
  end.

(** [func (r *Router) allowed(path, reqMethod string) (allow string)], with
    the order in which [range r.trees] yields the entries made explicit (Go
    leaves it unspecified). *)
Definition allowed_in (r : Router node) (order : list (string * node))
    (path reqMethod : string) : string :=
  let collected : option (list string) :=
    if String.eqb path "*" then
      if String.eqb reqMethod "" then
        Some (rangeAppend (fun method _ => negb (String.eqb method MethodOptions)) order)
      else None                      (* return r.globalAllowed *)
    else
      Some (rangeAppend
              (fun method root =>
                 negb (String.eqb method reqMethod || String.eqb method MethodOptions)
                 && hasRoute root path)
              order) in
  match collected with
  | None => globalAllowed r
  | Some allowedMethods =>
      if (0 <? length allowedMethods)%nat then
        let allowedMethods :=
          if HandleOPTIONS r then allowedMethods ++ [MethodOptions]
          else allowedMethods in
        Join (sortMethods allowedMethods) ", "
      else ""
  end.

Definition allowed (r : Router node) (path reqMethod : string) : string :=
  allowed_in r (map_to_list (trees r)) path reqMethod.

(** *** Registration *)

(** [func (r *Router) Handle(method, path string, handle Handle)]. The
    result is the router as the call leaves it and the panic, if any. *)
Definition Router_Handle (r : Router node) (method path : string)
    (handle : option Handle) : Router node * option RegPanic :=
  let varsCount := 0 in
  if String.eqb method "" then (r, Some MethodEmpty)
  else if lacksLeadingSlash path then (r, Some (PathWithoutSlash path))
  else
    match handle with
    | None => (r, Some HandleNil)
    | Some handle =>
        let '(varsCount, handle) :=
          if SaveMatchedRoutePath r
          then (wrap16 (varsCount + 1), saveMatchedRoutePath path handle)
          else (varsCount, handle) in
        let '(r, root) :=
          match trees r !! method with
          | Some root => (r, root)
          | None =>
              let root := newNode in
              let r := set_trees r (<[method := root]> (trees r)) in
              (set_globalAllowed r (allowed r "*" ""), root)
          end in
        let '(root, failure) := addRoute root path handle in
        let r := set_trees r (<[method := root]> (trees r)) in
        match failure with
        | Some v => (r, Some (FromAddRoute v))
        | None =>
            let paramsCount := wrap16 (countParams path) in
            let r :=
              if wrap16 (paramsCount + varsCount) >? maxParams r
              then set_maxParams r (wrap16 (paramsCount + varsCount))
              else r in
            let r :=
              if negb (poolNewSet (paramsPool r)) && (maxParams r >? 0)
              then set_paramsPool r (mkPool (poolItems (paramsPool r)) true)
              else r in
            (r, None)
        end
    end.

(** [func (r *Router) Lookup(method, path string) (Handle, Params, bool)] *)
Definition Lookup (r : Router node) (method path : string)
    : option Handle * Params * bool :=
  match trees r !! method with
  | Some root =>
      let '(handle, ps, tsr) := getValue root path in
      match handle with
      | None => (None, [], tsr)
      | Some h => (Some h, default [] ps, tsr)
      end
  | None => (None, [], false)
  end.

(** *** Panic recovery *)

(** [func (r *Router) recv(w, req)], called [depth] frames below the
    deferred function: [if rcv := recover(); rcv != nil { ... }]. The second
    component tells whether [recover()] returned the panic. *)
Definition recv (r : Router node) (depth : nat) (req : Request) : Deferred :=
  fun p =>
    match recover depth p with
    | Some rcv =>
        if ctxDone req then
          (match RecoveryHandler r with
           | Some f => f req rcv
           | None => []
           end, true)
        else
          match RecoveryHandler r with
          | Some f => (f req rcv, true)
          | None =>
              match errorHandler r with
              | Some eh => (eh req StatusInternalServerError, true)
              | None => (defaultErrorHandler req StatusInternalServerError, true)
              end
          end
    | None => ([], false)
    end.

(** *** Dispatch *)

(** [s[len(s)-1] == c] *)
Definition lastByteIs (c : ascii) (s : string) : bool :=
  match String.get (String.length s - 1) s with
  | Some d => Ascii.eqb d c
  | None => false
  end.

(** [redirectURL := *request.URL; redirectURL.Path = p] *)
Definition withPath (u : URL) (p : string) : URL := mkURL p (RawQuery u).

(** [request.WithContext(context.WithValue(ctx, ParamsKey, params))] *)
Definition withParams (request : Request) (params : Params) : Request :=
  mkRequest (Method request) (ReqURL request) (ctxDone request) (Some params).

(** The block [if root := r.trees[request.Method]; root != nil { ... }] of
    [coreRoutingAndHandling]: the action it returns with, or [None] when
    control leaves the block. *)
Definition lookupStage (r : Router node) (request : Request) : option Action :=
  let currentPath := Path (ReqURL request) in
  match trees r !! Method request with
  | Some root =>
      let '(handle, psPtr, tsr) := getValue root currentPath in
      match handle with
      | Some handle =>
          let params := default [] psPtr in
          let request :=
            if (0 <? length params)%nat then withParams request params
            else request in
          Some (ActInvoke handle request params)
      | None =>
          if negb (String.eqb (Method request) MethodConnect)
             && negb (String.eqb currentPath "/")
          then
            let code :=
              if negb (String.eqb (Method request) MethodGet)
              then StatusPermanentRedirect
              else StatusMovedPermanently in
            if tsr && RedirectTrailingSlash r then
              let redirectURL :=
                if (1 <? String.length currentPath)%nat && lastByteIs "/" currentPath
                then withPath (ReqURL request)
                       (String.substring 0 (String.length currentPath - 1) currentPath)
                else withPath (ReqURL request) (currentPath +:+ "/") in
              Some (ActRedirect redirectURL code)
            else if RedirectFixedPath r then
              let '(fixedPath, found) :=
                findCaseInsensitivePath root (CleanPath currentPath)
                  (RedirectTrailingSlash r) in
              if found
              then Some (ActRedirect (withPath (ReqURL request) fixedPath) code)
              else None
            else None
          else None
      end
  | None => None
  end.

(** The last two statements: the file server for unmatched requests, or the
    not-found responder. *)
Definition unmatched (r : Router node) : Action :=
  if ServeUnmatchedAsStatic r && bool_decide (FileSystemForUnmatched r ≠ None)
  then ActStatic
  else ActNotFound.

(** The code after the lookup block: automatic OPTIONS, 405, and the rest. *)
Definition fallbackStage (r : Router node) (request : Request) : Action :=
  let currentPath := Path (ReqURL request) in
  if String.eqb (Method request) MethodOptions && HandleOPTIONS r then
    let allow := allowed r currentPath MethodOptions in
    if negb (String.eqb allow "") then ActOptions allow else unmatched r
  else if HandleMethodNotAllowed r then
    let allow := allowed r currentPath (Method request) in
    if negb (String.eqb allow "") then ActNotAllowed allow else unmatched r
  else unmatched r.

(** The decision of [coreRoutingAndHandling]. *)
Definition dispatch (r : Router node) (request : Request) : Action :=
  match lookupStage r request with
  | Some a => a
  | None => fallbackStage r request
  end.

(** What each action does before the function returns. The file server and
    the error-capturing writer around it are kept as one event. *)
Definition perform (r : Router node) (request : Request) (a : Action) : Go unit :=
  match a with
  | ActInvoke handle request params => handle request params
  | ActRedirect url code => emit (EvRedirect url code)
  | ActOptions allow =>
      emit (EvHeaderSet "Allow" allow) ;;
      match GlobalOPTIONS r with
      | Some h => h request
      | None => emit (EvWriteHeader StatusOK)
      end
  | ActNotAllowed allow =>
      emit (EvHeaderSet "Allow" allow) ;;
      match MethodNotAllowed r with
      | Some h => h request
      | None =>
          match errorHandler r with
          | Some eh => (eh request StatusMethodNotAllowed, Ret tt)
          | None => (defaultErrorHandler request StatusMethodNotAllowed, Ret tt)
          end
      end
  | ActStatic => emit (EvFileServer (negb (isDefaultErrorHandlerUsed r)))
  | ActNotFound =>
      match NotFound r with
      | Some h => h request
      | None =>
          match errorHandler r with
          | Some eh => (eh request StatusNotFound, Ret tt)
          | None => (defaultErrorHandler request StatusNotFound, Ret tt)
          end
      end
  end.

(** [coreRoutingAndHandling], the innermost handler of [ServeHTTP]. It
    starts with [defer func() { r.recv(w, req) }()]: the deferred function is
    the closure, and [recv], which holds the [recover()], is called by it,
    one frame below. [req] is the request [ServeHTTP] received, [request]
    the one the middleware passes on. *)
Definition coreRoutingAndHandling (r : Router node) (req : Request) : Handler :=
  fun request =>
    defer_ (fun p => recv r 1 req p)
      (perform r request (dispatch r request)).

(** [func (r *Router) ServeHTTP(w, req)] *)
Definition ServeHTTP (r : Router node) (req : Request) : Go unit :=
  applyMiddleware r (coreRoutingAndHandling r req) req.

(** *** Registering and serving, interleaved *)

(** The operations that touch the pool and the parameter maximum: a
    registration, a [getParams] (with the choice [sync.Pool] makes) and the
    [putParams] of a buffer that is out, with whatever the request left in
    it. *)
Inductive Op : Type :=
| OpHandle (method path : string) (handle : option Handle)
| OpGet (choice : option nat)
| OpPut (i : nat) (contents : Params).

(** The router, the buffers that are out, and (for the statements only) the
    parameter count of each route registered so far:
    [paramsCount + varsCount] as [Router.Handle] computes it. *)
Record Sys : Type := mkSys {
  router : Router node;
  issued : list Buf;
  registered : list Z
}.

Definition routeParams (r : Router node) (path : string) : Z :=
  wrap16 (wrap16 (countParams path)
          + (if SaveMatchedRoutePath r then wrap16 (0 + 1) else 0)).

Definition step (s : Sys) (op : Op) : Sys :=
  match op with
  | OpHandle method path handle =>
      let '(r', failure) := Router_Handle (router s) method path handle in
      mkSys r' (issued s)
        (match failure with
         | None => routeParams (router s) path :: registered s
         | Some _ => registered s
         end)
  | OpGet choice =>
      match getParams (router s) choice with
      | (Ret b, r') => mkSys r' (issued s ++ [b]) (registered s)
      | (Panic _, r') => mkSys r' (issued s) (registered s)
      end
  | OpPut i contents =>
      match issued s !! i with
      | Some b =>
          if (length contents <=? bufCap b)%nat
          then mkSys (putParams (router s) (Some (mkBuf contents (bufCap b))))
                 (delete i (issued s)) (registered s)
          else s
      | None => s
      end
  end.

Definition run (ops : list Op) (s : Sys) : Sys := fold_left step ops s.

Definition isRegistration (op : Op) : bool :=
  match op with OpHandle _ _ _ => true | _ => false end.

Definition isServing (op : Op) : bool :=
  match op with OpGet _ | OpPut _ _ => true | OpHandle _ _ _ => false end.

(** A router on which nothing was registered and served yet. *)
Definition pristine (r : Router node) : Prop :=
  trees r = ∅ ∧ paramsPool r = mkPool [] false ∧ maxParams r = 0.

(** What registrations maintain: the maximum is a uint16 that bounds the
    parameter count of every registered route, and [New] is installed
    exactly when the maximum is positive. *)
Definition maxInv (s : Sys) : Prop :=
  0 ≤ maxParams (router s)
  ∧ poolNewSet (paramsPool (router s)) = (maxParams (router s) >? 0)
  ∧ Forall (fun n => 0 ≤ n ≤ maxParams (router s)) (registered s).

(** Every buffer, in the pool or out, has capacity [k] at least, and [k] is
    below the maximum. *)
Definition poolInv (k : Z) (s : Sys) : Prop :=
  maxInv s
  ∧ k ≤ maxParams (router s)
  ∧ Forall (fun b => k ≤ Z.of_nat (bufCap b)) (poolItems (paramsPool (router s)))
  ∧ Forall (fun b => k ≤ Z.of_nat (bufCap b)) (issued s).

(** *** The decision as an ordered list of branches *)

(** The six branches of the dispatch, each on its own: the action it
    resolves to, or [None]. *)
Definition Branch : Type := Router node → Request → option Action.

Definition redirectCode (request : Request) : Z :=
  if String.eqb (Method request) MethodGet
  then StatusMovedPermanently else StatusPermanentRedirect.

(** The redirects are open to every method but CONNECT and every path but
    the root, and look into the tree of the request method. *)
Definition redirectable (request : Request) : bool :=
  negb (String.eqb (Method request) MethodConnect)
  && negb (String.eqb (Path (ReqURL request)) "/").

Definition toggledSlash (path : string) : string :=
  if (1 <? String.length path)%nat && lastByteIs "/" path
  then String.substring 0 (String.length path - 1) path
  else path +:+ "/".

Definition branchExactMatch : Branch := fun r request =>
  match trees r !! Method request with
  | Some root =>
      match getValue root (Path (ReqURL request)) with
      | (Some handle, psPtr, _) =>
          let params := default [] psPtr in
          Some (ActInvoke handle
                  (if (0 <? length params)%nat then withParams request params
                   else request)
                  params)
      | (None, _, _) => None
      end
  | None => None
  end.

Definition branchTrailingSlash : Branch := fun r request =>
  match trees r !! Method request with
  | Some root =>
      let '(_, _, tsr) := getValue root (Path (ReqURL request)) in
      if redirectable request && tsr && RedirectTrailingSlash r
      then Some (ActRedirect
                   (withPath (ReqURL request) (toggledSlash (Path (ReqURL request))))
                   (redirectCode request))
      else None
  | None => None
  end.

Definition branchFixedPath : Branch := fun r request =>
  match trees r !! Method request with
  | Some root =>
      if redirectable request && RedirectFixedPath r then
        match findCaseInsensitivePath root (CleanPath (Path (ReqURL request)))
                (RedirectTrailingSlash r) with
        | (fixedPath, true) =>
            Some (ActRedirect (withPath (ReqURL request) fixedPath)
                    (redirectCode request))
        | (_, false) => None
        end
      else None
  | None => None
  end.

Definition branchAutoOptions : Branch := fun r request =>
  if String.eqb (Method request) MethodOptions && HandleOPTIONS r then
    let allow := allowed r (Path (ReqURL request)) MethodOptions in
    if String.eqb allow "" then None else Some (ActOptions allow)
  else None.

Definition branchNotAllowed : Branch := fun r request =>
  if HandleMethodNotAllowed r then
    let allow := allowed r (Path (ReqURL request)) (Method request) in
    if String.eqb allow "" then None else Some (ActNotAllowed allow)
  else None.

Definition branchFallback : Branch := fun r request => Some (unmatched r).

Definition branches : list Branch :=
  [branchExactMatch; branchTrailingSlash; branchFixedPath;
   branchAutoOptions; branchNotAllowed; branchFallback].

(** The branches are tried in order; the first that resolves answers. *)
Fixpoint firstResolving (bs : list Branch) (r : Router node) (request : Request)
    : option Action :=
  match bs with
  | [] => None
  | b :: bs' =>
      match b r request with
      | Some a => Some a
      | None => firstResolving bs' r request
      end
  end.

(** *** Statements as the specification words them *)

(** Strictly ascending in the bytewise lexicographic order. *)
Definition ascending (l : list string) : Prop :=
  StronglySorted (fun a b => String.ltb a b = true) l.

(** Ascending, equal neighbours allowed: what the sort establishes. *)
Definition nondescending (l : list string) : Prop :=
  StronglySorted (fun a b => String.ltb b a = false) l.

(** "301 when the request method is a read method (GET/HEAD-class) and 308
    for all other methods". *)
Definition isReadMethod (method : string) : bool :=
  String.eqb method MethodGet || String.eqb method MethodHead.

Definition redirectStatusAsStated (r : Router node) (request : Request) : Prop :=
  ∀ url code,
    dispatch r request = ActRedirect url code →
    code = if isReadMethod (Method request)
           then StatusMovedPermanently else StatusPermanentRedirect.

(** "For every path with at least one other method registered, the computed
    Allow header string is the method tokens sorted ascending, joined with
    comma and space, excluding the requested method, and including OPTIONS
    whenever auto-OPTIONS handling is enabled". *)
Definition allowHeaderAsStated (r : Router node) (path reqMethod : string) : Prop :=
  (∃ method root,
      method ≠ reqMethod ∧ trees r !! method = Some root
      ∧ hasRoute root path = true) →
  ∃ tokens,
    allowed r path reqMethod = Join tokens ", "
    ∧ ascending tokens
    ∧ ∀ method,
        method ∈ tokens ↔
          (method = MethodOptions ∧ HandleOPTIONS r = true)
          ∨ (method ≠ reqMethod
             ∧ ∃ root, trees r !! method = Some root ∧ hasRoute root path = true).

(** "Every buffer returned by getParams has length zero and capacity greater
    than or equal to the maximum parameter count across all routes
    registered so far", once a route with parameters is registered. *)
Definition poolCapacityAsStated (s : Sys) : Prop :=
  (∃ n, n ∈ registered s ∧ 0 < n) →
  ∀ choice b r',
    getParams (router s) choice = (Ret b, r') →
    length (bufItems b) = 0%nat
    ∧ Forall (fun n => n ≤ Z.of_nat (bufCap b)) (registered s).

(** "At every such moment it equals the Allow-header string computed over
    the then-current set of registered method trees (excluding OPTIONS from
    enumeration, appending OPTIONS when auto-OPTIONS is enabled, sorted and
    comma-space-joined)": the value of the cache after a registration that
    creates the tree of [method]. *)
Definition cacheValueAsStated (r : Router node) (method path : string)
    (handle : Handle) : Prop :=
  trees r !! method = None →
  let r' := (Router_Handle r method path (Some handle)).1 in
  ∃ tokens,
    globalAllowed r' = Join tokens ", "
    ∧ ascending tokens
    ∧ ∀ m,
        m ∈ tokens ↔
          (m ≠ MethodOptions ∧ is_Some (trees r' !! m))
          ∨ (m = MethodOptions ∧ HandleOPTIONS r = true).

End RouterOps.

(* ===================================================================== *)
(** ** A route table for the tree interface *)
(* ===================================================================== *)

Module RouteTable.

(** Modelled from the spec: the per-method tree (tree.go) and the path
    cleaner (path.go) are not among the sources. The specification gives
    their contracts (sections 4.1 to 4.4 and the testable properties of
    section 8); the table below keeps the registered patterns, segment by
    segment, and answers insert, lookup, case-insensitive recovery and
    cleaning by those contracts. It serves the concrete scenarios; every
    general statement about the router is made over [TreeOps]. *)
Inductive Segment : Type :=
| Static (text : string)
| ParamSeg (name : string)
| CatchAllSeg (name : string).

Record Route : Type := mkRoute { routePattern : list Segment; routeHandle : Handle }.

Definition Table : Type := list Route.

(** The pieces between the separators: ["a/b/"] gives [a], [b] and the
    empty piece. *)
Fixpoint splitBy (c : ascii) (s : string) : list string :=
  match s with
  | EmptyString => [""]
  | String a rest =>
      if Ascii.eqb a c then "" :: splitBy c rest
      else
        match splitBy c rest with
        | x :: xs => String a x :: xs
        | [] => [String a ""]
        end
  end.

(** The segments of an absolute path; nothing for a path without the
    leading separator. *)
Definition segmentsOf (path : string) : option (list string) :=
  match path with
  | String c rest => if Ascii.eqb c "/" then Some (splitBy "/" rest) else None
  | EmptyString => None
  end.

Definition parseSegment (s : string) : Segment :=
  match s with
  | String c name =>
      if Ascii.eqb c ":" then ParamSeg name
      else if Ascii.eqb c "*" then CatchAllSeg name
      else Static s
  | EmptyString => Static s
  end.

Definition parsePattern (path : string) : option (list Segment) :=
  match segmentsOf path with
  | Some segs => Some (map parseSegment segs)
  | None => None
  end.

(** Section 4.2: a static segment matches its own text, a parameter the
    bytes up to the next separator (an empty capture does not match), a
    catch-all the whole remainder with the separator before it. Captures
    come in path order. *)
Fixpoint matchSegs (pattern : list Segment) (segs : list string) : option Params :=
  match pattern, segs with
  | [], [] => Some []
  | Static text :: pattern', x :: segs' =>
      if String.eqb text x then matchSegs pattern' segs' else None
  | ParamSeg name :: pattern', x :: segs' =>
      if String.eqb x "" then None
      else cons (mkParam name x) <$> matchSegs pattern' segs'
  | [CatchAllSeg name], x :: segs' =>
      Some [mkParam name ("/" +:+ Join (x :: segs') "/")]
  | _, _ => None
  end.

Fixpoint lookup (t : Table) (segs : list string) : option (Handle * Params) :=
  match t with
  | [] => None
  | route :: t' =>
      match matchSegs (routePattern route) segs with
      | Some ps => Some (routeHandle route, ps)
      | None => lookup t' segs
      end
  end.

(** The path with its trailing separator removed, or added. *)
Definition toggleSlash (path : string) : string :=
  if (1 <? String.length path)%nat && lastByteIs "/" path
  then String.substring 0 (String.length path - 1) path
  else path +:+ "/".

Definition found (t : Table) (path : string) : option (Handle * Params) :=
  segmentsOf path ≫= lookup t.

(** Modelled from the spec: [getValue] of tree.go, by the lookup contract
    of section 4.2: the handler and the captures on a match (no buffer when
    nothing was captured), else the recommendation to toggle the trailing
    separator when that lands on a handler. *)
Definition getValue (t : Table) (path : string) : option Handle * option Params * bool :=
  match found t path with
  | Some (h, ps) => (Some h, match ps with [] => None | _ => Some ps end, false)
  | None => (None, None, bool_decide (is_Some (found t (toggleSlash path))))
  end.

(** Modelled from the spec: the conflict policy of section 4.1. Two
    patterns clash when they are the same, or when, after a common prefix,
    one has a wildcard where the other has something else. *)
Fixpoint clash (p q : list Segment) : bool :=
  match p, q with
  | [], [] => true
  | [], _ | _, [] => false
  | Static a :: p', Static b :: q' => if String.eqb a b then clash p' q' else false
  | ParamSeg a :: p', ParamSeg b :: q' => if String.eqb a b then clash p' q' else true
  | _, _ => true
  end.

(** A catch-all is the last segment; wildcards are named. *)
Fixpoint wellFormed (p : list Segment) : bool :=
  match p with
  | [] => true
  | Static _ :: p' => wellFormed p'
  | ParamSeg name :: p' => negb (String.eqb name "") && wellFormed p'
  | CatchAllSeg name :: p' =>
      negb (String.eqb name "") && match p' with [] => true | _ => false end
  end.

(** Modelled from the spec: [addRoute] of tree.go, by the insert contract
    of section 4.1: a malformed or clashing pattern panics and leaves the
    table as it was, any other pattern is added. *)
Definition addRoute (t : Table) (path : string) (handle : Handle)
    : Table * option PanicVal :=
  match parsePattern path with
  | None => (t, Some (PanicString "path must begin with '/'"))
  | Some p =>
      if negb (wellFormed p) then
        (t, Some (PanicString ("invalid wildcard in path '" +:+ path +:+ "'")))
      else if existsb (fun route => clash (routePattern route) p) t then
        (t, Some (PanicString ("path '" +:+ path +:+ "' conflicts with an existing route")))
      else (t ++ [mkRoute p handle], None)
  end.

Definition isWildcard (s : Segment) : bool :=
  match s with Static _ => false | _ => true end.

(** Modelled from the spec: [countParams] of tree.go, the parameter count
    of a route (section 4.5): its wildcard segments. *)
Definition countParams (path : string) : Z :=
  match parsePattern path with
  | Some p => Z.of_nat (length (filter (fun s => isWildcard s = true) p))
  | None => 0
  end.

(** ASCII lower case. *)
Definition lowerByte (c : ascii) : ascii :=
  let n := N_of_ascii c in
  if ((65 <=? n) && (n <=? 90))%N then ascii_of_N (n + 32) else c.

Fixpoint lower (s : string) : string :=
  match s with
  | EmptyString => EmptyString
  | String c rest => String (lowerByte c) (lower rest)
  end.

(** Section 4.4: static segments compare without case and come back in the
    stored casing; what a wildcard captures is kept as it is. *)
Fixpoint matchFold (pattern : list Segment) (segs : list string) : option (list string) :=
  match pattern, segs with
  | [], [] => Some []
  | Static text :: pattern', x :: segs' =>
      if String.eqb (lower text) (lower x)
      then cons text <$> matchFold pattern' segs' else None
  | ParamSeg _ :: pattern', x :: segs' =>
      if String.eqb x "" then None else cons x <$> matchFold pattern' segs'
  | [CatchAllSeg _], x :: segs' => Some (x :: segs')
  | _, _ => None
  end.

Fixpoint lookupFold (t : Table) (segs : list string) : option string :=
  match t with
  | [] => None
  | route :: t' =>
      match matchFold (routePattern route) segs with
      | Some fixed => Some ("/" +:+ Join fixed "/")
      | None => lookupFold t' segs
      end
  end.

(** Modelled from the spec: [findCaseInsensitivePath] of tree.go, by the
    contract of section 4.4: the path in the stored casing, with the
    trailing separator toggled when that is allowed and needed; nothing on
    failure. *)
Definition findCaseInsensitivePath (t : Table) (path : string)
    (fixTrailingSlash : bool) : string * bool :=
  match segmentsOf path ≫= lookupFold t with
  | Some fixed => (fixed, true)
  | None =>
      if fixTrailingSlash then
        match segmentsOf (toggleSlash path) ≫= lookupFold t with
        | Some fixed => (fixed, true)
        | None => ("", false)
        end
      else ("", false)
  end.

(** One element of the path being cleaned: empty and [.] elements go,
    [..] removes the element before it and never climbs above the root. *)
Definition cleanStep (kept : list string) (seg : string) : list string :=
  if String.eqb seg "" || String.eqb seg "." then kept
  else if String.eqb seg ".." then removelast kept
  else kept ++ [seg].

(** Modelled from the spec: [CleanPath] of path.go, by the contract of
    section 4.3: repeated separators collapse, [.] and [..] are resolved
    below the root, a trailing separator stays. *)
Definition CleanPath (p : string) : string :=
  let kept := fold_left cleanStep (splitBy "/" p) [] in
  let trailing :=
    ((1 <? String.length p)%nat && lastByteIs "/" p)
    || bool_decide (last (splitBy "/" p) = Some ".") in
  match kept with
  | [] => "/"
  | _ => "/" +:+ Join kept "/" +:+ (if trailing then "/" else "")
  end.

#[global] Instance ops : TreeOps Table :=
  Build_TreeOps Table [] addRoute getValue findCaseInsensitivePath countParams CleanPath.
End RouteTable.

(* ===================================================================== *)
(** ** Scenarios *)
(* ===================================================================== *)

Module Scenarios.
Import RouteTable.

(** A handler that reports its name and the parameters it received. *)
Definition say (what : string) : Handle := fun _ ps => emit (EvUser what ps).

(** A handler that panics. *)
Definition blowUp (msg : string) : Handle := fun _ _ => panic (PanicString msg).

(** A middleware that reports its name, then calls the next handler. *)
Definition tag (name : string) : Middleware :=
  fun next request => emit (EvUser name []) ;; next request.

Definition request (method path : string) : Request :=
  mkRequest method (mkURL path "") false None.

Definition register (r : Router Table) (method path : string) (handle : Handle)
    : Router Table :=
  (Router_Handle r method path (Some handle)).1.

Definition start (r : Router Table) : Sys := mkSys r [] [].

(** Only [GET /x]. *)
Definition onlyGetX : Router Table := register New "GET" "/x" (say "x").

(** Only [OPTIONS /x]. *)
Definition onlyOptionsX : Router Table := register New "OPTIONS" "/x" (say "x").

(** Only [HEAD /x]. *)
Definition onlyHeadX : Router Table := register New "HEAD" "/x" (say "x").

(** Only [CONNECT /x]. *)
Definition onlyConnectX : Router Table := register New "CONNECT" "/x" (say "x").

(** [GET /x] with a handler that panics, and a recovery handler set. *)
Definition recovering : Router Table :=
  let r := register New "GET" "/x" (blowUp "oops") in
  mkRouter (trees r) (paramsPool r) (maxParams r) (Middlewares r)
    (SaveMatchedRoutePath r) (RedirectTrailingSlash r) (RedirectFixedPath r)
    (HandleMethodNotAllowed r) (HandleOPTIONS r) (GlobalOPTIONS r)
    (globalAllowed r) (NotFound r) (MethodNotAllowed r)
    (Some (fun _ _ => [EvUser "recovered" []]))
    (FileSystemForUnmatched r) (ServeUnmatchedAsStatic r) (errorHandler r)
    (isDefaultErrorHandlerUsed r).

(** A route with one parameter is registered and a buffer is taken and put
    back; then a route with two parameters is registered. *)
Definition growth : list Op :=
  [OpHandle "GET" "/a/:x" (Some (say "a"));
   OpGet None;
   OpPut 0 [mkParam "x" "1"];
   OpHandle "GET" "/b/:x/:y" (Some (say "b"))].

End Scenarios.

(* ===================================================================== *)
(** ** Groups, adapters and configuration *)
(* ===================================================================== *)

(** More net/http method names. *)
Definition MethodPost : string := "POST".
Definition MethodPut : string := "PUT".
Definition MethodPatch : string := "PATCH".

(** [http.StatusBadRequest] *)
Definition StatusBadRequest : Z := 400.

(** [var DefaultMethodsForAny] *)
Definition DefaultMethodsForAny : list string :=
  [MethodGet; MethodPost; MethodPut; MethodPatch; MethodDelete; MethodHead;
   MethodOptions].

(** [len(s) > 0 && s[0] == c] *)
Definition firstByteIs (c : ascii) (s : string) : bool :=
  match String.get 0 s with
  | Some d => Ascii.eqb d c
  | None => false
  end.

(** [strings.HasSuffix(s, suffix)] *)
Definition HasSuffix (s suffix : string) : bool :=
  (String.length suffix <=? String.length s)%nat
  && String.eqb
       (String.substring (String.length s - String.length suffix)
          (String.length suffix) s)
       suffix.

(** [strings.TrimSuffix(s, suffix)] *)
Definition TrimSuffix (s suffix : string) : string :=
  if HasSuffix s suffix
  then String.substring 0 (String.length s - String.length suffix) s
  else s.

(** [func ParamsFromContext(ctx context.Context) Params]: the value stored
    under [ParamsKey], nil (the empty slice) when there is none. *)
Definition ParamsFromContext (request : Request) : Params :=
  default [] (ctxParams request).

(** Calling a [Handle] that may be nil. *)
Definition callHandle (handle : option Handle) : Handle :=
  fun r ps =>
    match handle with
    | Some h => h r ps
    | None => panic (PanicString "invalid memory address or nil pointer dereference")
    end.

(** [handler.ServeHTTP(w, r)] on an [http.Handler] that may be nil. *)
Definition callHandler (handler : option Handler) : Handler :=
  fun r =>
    match handler with
    | Some h => h r
    | None => panic (PanicString "invalid memory address or nil pointer dereference")
    end.

(** [req.URL.Path = p] *)
Definition setPath (request : Request) (p : string) : Request :=
  mkRequest (Method request) (withPath (ReqURL request) p) (ctxDone request)
    (ctxParams request).

(** [type Group struct]: the prefix and the group middlewares. The router a
    group points to is the router its methods are given. *)
Record Group : Type := mkGroup { prefix : string; middlewares : list Middleware }.

(** [func (r *Router) Group(prefix string) *Group] *)
Definition Router_Group (prefix : string) : Res Group :=
  if (String.length prefix =? 0)%nat || negb (firstByteIs "/" prefix) then
    Panic (PanicString ("group prefix must begin with '/' in prefix '"
                        +:+ prefix +:+ "'"))
  else
    let cleanedPrefix := TrimSuffix prefix "/" in
    let cleanedPrefix :=
      if String.eqb cleanedPrefix "" then "/" else cleanedPrefix in
    Ret (mkGroup cleanedPrefix []).

(** [func (g *Group) Use(middleware ...Middleware)] *)
Definition Group_Use (g : Group) (middleware : list Middleware) : Group :=
  mkGroup (prefix g) (middlewares g ++ middleware).

(** [func joinGroupPath(prefix, relativePath string) string] *)
Definition joinGroupPath (prefix relativePath : string) : string :=
  if String.eqb prefix "/" then
    if String.eqb relativePath "" then "/"
    else if firstByteIs "/" relativePath then relativePath
    else "/" +:+ relativePath
  else if String.eqb relativePath "" then prefix
  else if String.eqb relativePath "/" then prefix +:+ "/"
  else if firstByteIs "/" relativePath then prefix +:+ relativePath
  else prefix +:+ "/" +:+ relativePath.

(** The path computation written out in [Group.HandlerFunc] and in
    [Group.ANY]: [fullPath := g.prefix] and the conditionals that follow. *)
Definition groupFullPath (prefix path : string) : string :=
  let fullPath := prefix in
  if negb (String.eqb path "") && negb (String.eqb path "/") then
    if firstByteIs "/" path then
      if String.eqb prefix "/" then path else fullPath +:+ path
    else
      if String.eqb prefix "/" then fullPath +:+ path
      else fullPath +:+ ("/" +:+ path)
  else if String.eqb path "/" && negb (String.eqb prefix "/") then
    if negb (String.eqb prefix "/") then fullPath +:+ "/" else fullPath
  else if String.eqb path "" && String.eqb prefix "/" then "/"
  else fullPath.

(** [func applyGroupMiddlewares(middlewares []Middleware, targetHandle Handle) Handle]:
    the target itself without middlewares; else a handle that, on each call,
    adapts the target to an [http.Handler] for the parameters at hand and
    wraps it from the last middleware to the first. *)
Definition applyGroupMiddlewares (middlewares : list Middleware)
    (targetHandle : option Handle) : option Handle :=
  if (length middlewares =? 0)%nat then targetHandle
  else
    Some (fun r ps =>
            let handlerToWrap : Handler := fun r' => callHandle targetHandle r' ps in
            applyFrom middlewares (length middlewares) handlerToWrap r).

(** The handle [Router.Handler] and [Group.Handler] build around an
    [http.Handler]: the parameters go into the request context when there
    are any. *)
Definition handlerAdapter (handler : option Handler) : Handle :=
  fun req p =>
    if (0 <? length p)%nat then callHandler handler (withParams req p)
    else callHandler handler req.

(** The handle [ServeFiles] builds around a file server: the request path
    becomes the captured [filepath]. *)
Definition fileServeHandle (fileServer : Handler) : Handle :=
  fun req ps =>
    let req := setPath req (ByName ps "filepath") in
    let req := if (0 <? length ps)%nat then withParams req ps else req in
    fileServer req.

(** [len(path) < 10 || path[len(path)-10:] != "/*filepath"] *)
Definition lacksFilepathSuffix (path : string) : bool :=
  (String.length path <? 10)%nat
  || negb (String.eqb (String.substring (String.length path - 10) 10 path)
             "/*filepath").

(** Why [ServeFiles] panics: its own check, that of [Group.ServeFiles], or
    the registration. *)
Inductive FilesPanic : Type :=
| FilesPathSuffix (path : string)
| GroupFilesPathSuffix (path : string)
| FilesFromHandle (e : RegPanic).

Section RouterMore.
Context {node : Type} `{TreeOps node}.

(** [func (r *Router) setDefaultErrorHandler()] *)
Definition setDefaultErrorHandler (r : Router node) : Router node :=
  mkRouter (trees r) (paramsPool r) (maxParams r) (Middlewares r)
    (SaveMatchedRoutePath r) (RedirectTrailingSlash r) (RedirectFixedPath r)
    (HandleMethodNotAllowed r) (HandleOPTIONS r) (GlobalOPTIONS r)
    (globalAllowed r) (NotFound r) (MethodNotAllowed r) (RecoveryHandler r)
    (FileSystemForUnmatched r) (ServeUnmatchedAsStatic r)
    (Some defaultErrorHandler) true.

(** [func (r *Router) SetErrorHandler(handler ErrorHandlerFunc)] *)
Definition SetErrorHandler (r : Router node) (handler : option ErrorHandlerFunc)
    : Router node :=
  match handler with
  | None => setDefaultErrorHandler r
  | Some h =>
      mkRouter (trees r) (paramsPool r) (maxParams r) (Middlewares r)
        (SaveMatchedRoutePath r) (RedirectTrailingSlash r) (RedirectFixedPath r)
        (HandleMethodNotAllowed r) (HandleOPTIONS r) (GlobalOPTIONS r)
        (globalAllowed r) (NotFound r) (MethodNotAllowed r) (RecoveryHandler r)
        (FileSystemForUnmatched r) (ServeUnmatchedAsStatic r)
        (Some h) false
  end.

(** [func (r *Router) GetErrorHandler() ErrorHandlerFunc] *)
Definition GetErrorHandler (r : Router node) : option ErrorHandlerFunc :=
  errorHandler r.

(** [func (r *Router) GetDefaultErrHandler() ErrorHandlerFunc] *)
Definition GetDefaultErrHandler (r : Router node) : ErrorHandlerFunc :=
  defaultErrorHandler.

(** [func (r *Router) IsUsingDefaultErrorHandler() bool] *)
Definition IsUsingDefaultErrorHandler (r : Router node) : bool :=
  isDefaultErrorHandlerUsed r.

(** [func (r *Router) ServeUnmatched(fs http.FileSystem)]; a nil [fs] is
    [None]. *)
Definition ServeUnmatched (r : Router node) (fs : option string) : Router node :=
  mkRouter (trees r) (paramsPool r) (maxParams r) (Middlewares r)
    (SaveMatchedRoutePath r) (RedirectTrailingSlash r) (RedirectFixedPath r)
    (HandleMethodNotAllowed r) (HandleOPTIONS r) (GlobalOPTIONS r)
    (globalAllowed r) (NotFound r) (MethodNotAllowed r) (RecoveryHandler r)
    fs true (errorHandler r) (isDefaultErrorHandlerUsed r).

(** Setting the exported field [SaveMatchedRoutePath]. *)
Definition set_SaveMatchedRoutePath (r : Router node) (b : bool) : Router node :=
  mkRouter (trees r) (paramsPool r) (maxParams r) (Middlewares r)
    b (RedirectTrailingSlash r) (RedirectFixedPath r)
    (HandleMethodNotAllowed r) (HandleOPTIONS r) (GlobalOPTIONS r)
    (globalAllowed r) (NotFound r) (MethodNotAllowed r) (RecoveryHandler r)
    (FileSystemForUnmatched r) (ServeUnmatchedAsStatic r) (errorHandler r)
    (isDefaultErrorHandlerUsed r).

(** [func (r *Router) GET(path string, handle Handle)] *)
Definition Router_GET (r : Router node) (path : string) (handle : option Handle)
    : Router node * option RegPanic :=
  Router_Handle r MethodGet path handle.

(** The loop of [ANY]: [for _, method := range DefaultMethodsForAny
    { r.Handle(method, path, handle) }]; a panic leaves the loop. *)
Fixpoint handleEach (r : Router node) (methods : list string) (path : string)
    (handle : option Handle) : Router node * option RegPanic :=
  match methods with
  | [] => (r, None)
  | method :: rest =>
      match Router_Handle r method path handle with
      | (r', Some e) => (r', Some e)
      | (r', None) => handleEach r' rest path handle
      end
  end.

(** [func (r *Router) ANY(path string, handle Handle)] *)
Definition Router_ANY (r : Router node) (path : string) (handle : option Handle)
    : Router node * option RegPanic :=
  handleEach r DefaultMethodsForAny path handle.

(** [func (r *Router) Handler(method, path string, handler http.Handler)] *)
Definition Router_Handler (r : Router node) (method path : string)
    (handler : option Handler) : Router node * option RegPanic :=
  Router_Handle r method path (Some (handlerAdapter handler)).

(** [func (r *Router) HandlerFunc(method, path string, handler http.HandlerFunc)] *)
Definition Router_HandlerFunc (r : Router node) (method path : string)
    (handler : option Handler) : Router node * option RegPanic :=
  Router_Handler r method path handler.

(** [func (r *Router) ServeFiles(path string, root http.FileSystem)];
    [fileServer] is [http.FileServer(root)]. *)
Definition Router_ServeFiles (r : Router node) (path : string)
    (fileServer : Handler) : Router node * option FilesPanic :=
  if lacksFilepathSuffix path then (r, Some (FilesPathSuffix path))
  else
    let '(r', failure) := Router_GET r path (Some (fileServeHandle fileServer)) in
    (r', FilesFromHandle <$> failure).

(** [func (g *Group) Handle(method, relativePath string, handle Handle)] *)
Definition Group_Handle (g : Group) (r : Router node) (method relativePath : string)
    (handle : option Handle) : Router node * option RegPanic :=
  let finalHandle := applyGroupMiddlewares (middlewares g) handle in
  Router_Handle r method (joinGroupPath (prefix g) relativePath) finalHandle.

(** [func (g *Group) Handler(method, relativePath string, handler http.Handler)] *)
Definition Group_Handler (g : Group) (r : Router node) (method relativePath : string)
    (handler : option Handler) : Router node * option RegPanic :=
  let intermediateHandle := handlerAdapter handler in
  let finalHandle :=
    applyGroupMiddlewares (middlewares g) (Some intermediateHandle) in
  Router_Handle r method (joinGroupPath (prefix g) relativePath) finalHandle.

(** [func (g *Group) HandlerFunc(method, path string, handler http.HandlerFunc)] *)
Definition Group_HandlerFunc (g : Group) (r : Router node) (method path : string)
    (handler : option Handler) : Router node * option RegPanic :=
  Router_HandlerFunc r method (groupFullPath (prefix g) path) handler.

(** [func (g *Group) ServeFiles(relativePath string, root http.FileSystem)] *)
Definition Group_ServeFiles (g : Group) (r : Router node) (relativePath : string)
    (fileServer : Handler) : Router node * option FilesPanic :=
  if lacksFilepathSuffix relativePath
  then (r, Some (GroupFilesPathSuffix relativePath))
  else
    let finalFileServeHandle :=
      applyGroupMiddlewares (middlewares g) (Some (fileServeHandle fileServer)) in
    let '(r', failure) :=
      Router_Handle r MethodGet (joinGroupPath (prefix g) relativePath)
        finalFileServeHandle in
    (r', FilesFromHandle <$> failure).

(** [func (g *Group) GET(relativePath string, handle Handle)] *)
Definition Group_GET (g : Group) (r : Router node) (relativePath : string)
    (handle : option Handle) : Router node * option RegPanic :=
  Group_Handle g r MethodGet relativePath handle.

(** [func (g *Group) ANY(path string, handle Handle)] *)
Definition Group_ANY (g : Group) (r : Router node) (path : string)
    (handle : option Handle) : Router node * option RegPanic :=
  Router_ANY r (groupFullPath (prefix g) path) handle.

(** A sequence of [SetErrorHandler] calls on a new router. *)
Definition configured (handlers : list (option ErrorHandlerFunc)) : Router node :=
  fold_left SetErrorHandler handlers New.

End RouterMore.

(* ===================================================================== *)
(** ** The error-capturing response writer *)
(* ===================================================================== *)

Module ErrorCapture.

(** [http.Header], with the keys as the caller gives them. *)
Abbreviation Header := (gmap string (list string)).

(** What a caller does with the map that [Header()] returns. *)
Inductive HeaderOp : Type :=
| HSet (key value : string)
| HAdd (key value : string)
| HDel (key : string).

Definition applyOp (h : Header) (op : HeaderOp) : Header :=
  match op with
  | HSet key value => <[key := [value]]> h
  | HAdd key value => <[key := default [] (h !! key) ++ [value]]> h
  | HDel key => delete key h
  end.

(** The calls that reach the original response writer, in order; the call
    of the error handler is recorded with what the handler does. *)
Inductive WCall : Type :=
| WWriteHeader (statusCode : Z)
| WWrite (data : string)
| WFlush
| WErrorHandler (statusCode : Z) (effects : list Event)
| WHttpError (statusCode : Z).

(** The original [http.ResponseWriter]: its header map, the calls made on
    it, and whether it is an [http.Flusher]. *)
Record ResponseWriter : Type := mkWriter {
  wHeader : Header;
  wCalls : list WCall;
  wFlusher : bool
}.

Definition withHeader (w : ResponseWriter) (h : Header) : ResponseWriter :=
  mkWriter h (wCalls w) (wFlusher w).

Definition called (w : ResponseWriter) (c : WCall) : ResponseWriter :=
  mkWriter (wHeader w) (wCalls w ++ [c]) (wFlusher w).

(** [type errorCapturingResponseWriter struct] *)
Record errorCapturingResponseWriter : Type := mkEcw {
  w : ResponseWriter;
  r : Request;
  errorHandlerFunc : option ErrorHandlerFunc;
  statusCode : Z;
  headerSnapshot : Header;
  capturedErrorSignal : bool;
  responseStarted : bool
}.

(** [func newErrorCapturingResponseWriter(w, r, eh)] *)
Definition newErrorCapturingResponseWriter (w : ResponseWriter) (r : Request)
    (eh : option ErrorHandlerFunc) : errorCapturingResponseWriter :=
  mkEcw w r eh 0 ∅ false false.

(** [ecw.Header()] followed by an operation on the map it returns: the
    snapshot once an error was signalled, the header of the original writer
    before. *)
Definition Header_do (ecw : errorCapturingResponseWriter) (op : HeaderOp)
    : errorCapturingResponseWriter :=
  if capturedErrorSignal ecw then
    mkEcw (w ecw) (r ecw) (errorHandlerFunc ecw) (statusCode ecw)
      (applyOp (headerSnapshot ecw) op) (capturedErrorSignal ecw)
      (responseStarted ecw)
  else
    mkEcw (withHeader (w ecw) (applyOp (wHeader (w ecw)) op)) (r ecw)
      (errorHandlerFunc ecw) (statusCode ecw) (headerSnapshot ecw)
      (capturedErrorSignal ecw) (responseStarted ecw).

(** [for k, v := range ecw.headerSnapshot { for _, vv := range v
    { ecw.w.Header().Add(k, vv) } }], in the order the map yields its
    entries. *)
Definition copySnapshot (snapshot : Header) (h : Header) : Header :=
  fold_left
    (fun h '(k, v) => fold_left (fun h vv => applyOp h (HAdd k vv)) v h)
    (map_to_list snapshot) h.

(** [func (ecw *errorCapturingResponseWriter) WriteHeader(statusCode int)] *)
Definition WriteHeader (ecw : errorCapturingResponseWriter) (code : Z)
    : errorCapturingResponseWriter :=
  if responseStarted ecw then ecw
  else if code >=? StatusBadRequest then
    mkEcw (w ecw) (r ecw) (errorHandlerFunc ecw) code (headerSnapshot ecw)
      true (responseStarted ecw)
  else
    mkEcw
      (called (withHeader (w ecw)
                 (copySnapshot (headerSnapshot ecw) (wHeader (w ecw))))
         (WWriteHeader code))
      (r ecw) (errorHandlerFunc ecw) code (headerSnapshot ecw)
      (capturedErrorSignal ecw) true.

(** What [Write] returns: the length of the data it dropped, or whatever
    the original writer returns. *)
Inductive WriteResult : Type :=
| Dropped (n : nat)
| Forwarded.

(** [func (ecw *errorCapturingResponseWriter) Write(data []byte) (int, error)] *)
Definition Write (ecw : errorCapturingResponseWriter) (data : string)
    : errorCapturingResponseWriter * WriteResult :=
  if capturedErrorSignal ecw then (ecw, Dropped (String.length data))
  else
    let ecw :=
      if negb (responseStarted ecw) then
        let code := if statusCode ecw =? 0 then StatusOK else statusCode ecw in
        mkEcw
          (called (withHeader (w ecw)
                     (copySnapshot (headerSnapshot ecw) (wHeader (w ecw))))
             (WWriteHeader code))
          (r ecw) (errorHandlerFunc ecw) code (headerSnapshot ecw)
          (capturedErrorSignal ecw) true
      else ecw in
    (mkEcw (called (w ecw) (WWrite data)) (r ecw) (errorHandlerFunc ecw)
       (statusCode ecw) (headerSnapshot ecw) (capturedErrorSignal ecw)
       (responseStarted ecw),
     Forwarded).

(** [func (ecw *errorCapturingResponseWriter) Flush()] *)
Definition Flush (ecw : errorCapturingResponseWriter) : errorCapturingResponseWriter :=
  if wFlusher (w ecw) then
    if negb (capturedErrorSignal ecw) && responseStarted ecw then
      mkEcw (called (w ecw) WFlush) (r ecw) (errorHandlerFunc ecw)
        (statusCode ecw) (headerSnapshot ecw) (capturedErrorSignal ecw)
        (responseStarted ecw)
    else ecw
  else ecw.

(** [func (ecw *errorCapturingResponseWriter) processAfterFileServer()] *)
Definition processAfterFileServer (ecw : errorCapturingResponseWriter)
    : errorCapturingResponseWriter :=
  if capturedErrorSignal ecw && negb (responseStarted ecw) then
    match errorHandlerFunc ecw with
    | Some eh =>
        mkEcw (called (w ecw)
                 (WErrorHandler (statusCode ecw) (eh (r ecw) (statusCode ecw))))
          (r ecw) (errorHandlerFunc ecw) (statusCode ecw) (headerSnapshot ecw)
          (capturedErrorSignal ecw) (responseStarted ecw)
    | None =>
        mkEcw (called (w ecw) (WHttpError (statusCode ecw)))
          (r ecw) (errorHandlerFunc ecw) (statusCode ecw) (headerSnapshot ecw)
          (capturedErrorSignal ecw) (responseStarted ecw)
    end
  else ecw.

(** What the file server does with the writer it is given. *)
Inductive Call : Type :=
| CHeader (op : HeaderOp)
| CWriteHeader (code : Z)
| CWrite (data : string)
| CFlush.

Definition call (ecw : errorCapturingResponseWriter) (c : Call)
    : errorCapturingResponseWriter :=
  match c with
  | CHeader op => Header_do ecw op
  | CWriteHeader code => WriteHeader ecw code
  | CWrite data => (Write ecw data).1
  | CFlush => Flush ecw
  end.

(** The static branch of [ServeHTTP] with a custom error handler:
    [ecw := newErrorCapturingResponseWriter(writer, request, r.errorHandler);
     fileServer.ServeHTTP(ecw, request); ecw.processAfterFileServer()],
    for a file server that makes the calls [calls]. *)
Definition serveCaptured (writer : ResponseWriter) (request : Request)
    (eh : option ErrorHandlerFunc) (calls : list Call)
    : errorCapturingResponseWriter :=
  processAfterFileServer
    (fold_left call calls (newErrorCapturingResponseWriter writer request eh)).

(** The header operations and the data among the calls. *)
Definition headerOps (calls : list Call) : list HeaderOp :=
  omap (fun c => match c with CHeader op => Some op | _ => None end) calls.

Definition written (calls : list Call) : list string :=
  omap (fun c => match c with CWrite data => Some data | _ => None end) calls.

Definition forwardedData (log : list WCall) : list string :=
  omap (fun c => match c with WWrite data => Some data | _ => None end) log.

Definition isBodyCall (c : WCall) : bool :=
  match c with WWrite _ | WFlush => true | _ => false end.

Definition isErrorStatus (c : Call) : bool :=
  match c with CWriteHeader code => code >=? StatusBadRequest | _ => false end.

Definition isSuccessStatus (c : Call) : bool :=
  match c with CWriteHeader code => negb (code >=? StatusBadRequest) | _ => false end.

Definition isHeaderCall (c : Call) : bool :=
  match c with CHeader _ => true | _ => false end.

End ErrorCapture.

(* ===================================================================== *)
(** ** The lookup and the parameter pool *)
(* ===================================================================== *)

Section PooledLookup.
Context {node : Type} `{TreeOps node}.

(** Modelled from the spec: the use that [getValue] of tree.go, which is not
    among the sources, makes of its argument [params] in the call
    [root.getValue(path, r.getParams)]. The specification has the matcher
    acquire a buffer from the pool and keep the captured route variables in
    it, within its capacity (sections 2 and 4.5). The walk calls [params]
    when it captures a value, so the pointer it returns is nil exactly when
    it captured none; a Go slice is not resliced beyond its capacity, so the
    walk panics when the buffer is too small for the captures, and the
    buffer is then lost to the pool. The result carries the buffer with the
    captures in it. *)
Definition getValue_pool (r : Router node) (root : node) (path : string)
    (choice : option nat)
    : Res (option Handle * option Buf * bool) * Router node :=
  match getValue root path with
  | (handle, None, tsr) => (Ret (handle, None, tsr), r)
  | (handle, Some ps, tsr) =>
      match getParams r choice with
      | (Ret b, r') =>
          if (length ps <=? bufCap b)%nat
          then (Ret (handle, Some (mkBuf ps (bufCap b)), tsr), r')
          else (Panic (PanicString "slice bounds out of range"), r')
      | (Panic v, r') => (Panic v, r')
      end
  end.

(** The block [if root := r.trees[request.Method]; root != nil { ... }] of
    [coreRoutingAndHandling] after the call of [getValue], on what the call
    returned: the action the block returns with, or [None] when control
    leaves it. *)
Definition lookupStageOn (r : Router node) (request : Request) (root : node)
    (found : option Handle * option Params * bool) : option Action :=
  let currentPath := Path (ReqURL request) in
  let '(handle, psPtr, tsr) := found in
  match handle with
  | Some handle =>
      let params := default [] psPtr in
      let request :=
        if (0 <? length params)%nat then withParams request params
        else request in
      Some (ActInvoke handle request params)
  | None =>
      if negb (String.eqb (Method request) MethodConnect)
         && negb (String.eqb currentPath "/")
      then
        let code :=
          if negb (String.eqb (Method request) MethodGet)
          then StatusPermanentRedirect
          else StatusMovedPermanently in
        if tsr && RedirectTrailingSlash r then
          let redirectURL :=
            if (1 <? String.length currentPath)%nat && lastByteIs "/" currentPath
            then withPath (ReqURL request)
                   (String.substring 0 (String.length currentPath - 1) currentPath)
            else withPath (ReqURL request) (currentPath +:+ "/") in
          Some (ActRedirect redirectURL code)
        else if RedirectFixedPath r then
          let '(fixedPath, found) :=
            findCaseInsensitivePath root (CleanPath currentPath)
              (RedirectTrailingSlash r) in
          if found
          then Some (ActRedirect (withPath (ReqURL request) fixedPath) code)
          else None
        else None
      else None
  end.

(** What a [*Params] points to. *)
Definition pointee (psPtr : option Buf) : option Params :=
  match psPtr with
  | Some b => Some (bufItems b)
  | None => None
  end.

(** [coreRoutingAndHandling] with the pool: the lookup takes its buffer
    from the pool through [r.getParams], [defer r.putParams(psPtr)] puts it
    back when the function returns, and a panic of the lookup leaves the
    function past the deferred [recv], which is one frame above the
    [recover()]. The result is what the call does to the response and the
    router as the call leaves it. *)
Definition coreRoutingAndHandling_pool (r : Router node) (req : Request)
    (choice : option nat) (request : Request) : Go unit * Router node :=
  let currentPath := Path (ReqURL request) in
  let rest := perform r request (fallbackStage r request) in
  match trees r !! Method request with
  | Some root =>
      match getValue_pool r root currentPath choice with
      | (Ret (handle, psPtr, tsr), r') =>
          let body :=
            match lookupStageOn r request root (handle, pointee psPtr, tsr) with
            | Some a => perform r request a
            | None => rest
            end in
          (defer_ (fun p => recv r 1 req p) body, putParams r' psPtr)
      | (Panic v, r') => (defer_ (fun p => recv r 1 req p) ([], Panic v), r')
      end
  | None => (defer_ (fun p => recv r 1 req p) rest, r)
  end.

(** [ServeHTTP] with the pool, for the choice the pool makes when the
    innermost handler is reached. *)
Definition ServeHTTP_pool (r : Router node) (req : Request)
    (choice : option nat) : Go unit :=
  applyMiddleware r
    (fun request => (coreRoutingAndHandling_pool r req choice request).1) req.

(** Whether the lookup of the core handler returns. *)
Definition lookupReturns (r : Router node) (request : Request)
    (choice : option nat) : bool :=
  match trees r !! Method request with
  | Some root =>
      match getValue_pool r root (Path (ReqURL request)) choice with
      | (Ret _, _) => true
      | (Panic _, _) => false
      end
  | None => true
  end.

(** [func (r *Router) Lookup(method, path string) (Handle, Params, bool)]
    with the pool: the buffer goes back to the pool when no handle was
    found, and stays out when one was. *)
Definition Lookup_pool (r : Router node) (method path : string)
    (choice : option nat)
    : Res (option Handle * Params * bool) * Router node :=
  match trees r !! method with
  | Some root =>
      match getValue_pool r root path choice with
      | (Ret (None, ps, tsr), r') => (Ret (None, [], tsr), putParams r' ps)
      | (Ret (Some handle, ps, tsr), r') =>
          (Ret (Some handle, default [] (pointee ps), tsr), r')
      | (Panic v, r') => (Panic v, r')
      end
  | None => (Ret (None, [], false), r)
  end.

(** "Exactly one terminal action is produced per request": the core handler
    does what the first resolving branch decides. *)
Definition oneActionAsStated (r : Router node) (req request : Request)
    (choice : option nat) : Prop :=
  ∃ a,
    firstResolving branches r request = Some a
    ∧ (coreRoutingAndHandling_pool r req choice request).1 = perform r request a.

(** The number of parameters the handle of a route is given: the wildcards
    of the path ([countParams], before its conversion to uint16) and the
    matched route path when [SaveMatchedRoutePath] is set. *)
Definition paramCount (r : Router node) (path : string) : Z :=
  countParams path + (if SaveMatchedRoutePath r then 1 else 0).

(** The parameter counts of the routes that the operations register, the
    first registered first. *)
Fixpoint routeCounts (ops : list Op) (s : Sys) : list Z :=
  match ops with
  | [] => []
  | op :: rest =>
      match op with
      | OpHandle method path handle =>
          match (Router_Handle (router s) method path handle).2 with
          | None => [paramCount (router s) path]
          | Some _ => []
          end
      | _ => []
      end ++ routeCounts rest (step s op)
  end.

(** [maxParams], [paramsCount] and [varsCount] are uint16: the count of a
    route is kept as it is when the path has fewer than 65535 wildcards. *)
Definition countsFit (ops : list Op) : bool :=
  forallb
    (fun op =>
       match op with
       | OpHandle _ path _ => (0 <=? countParams path) && (countParams path <? 65535)
       | _ => true
       end)
    ops.

(** "Every buffer returned by getParams has length zero and capacity greater
    than or equal to the maximum parameter count across all routes
    registered so far", after the operations [ops], once a route with
    parameters is registered. *)
Definition capacityAsStated (ops : list Op) (s : Sys) : Prop :=
  (∃ n, n ∈ routeCounts ops s ∧ 0 < n) →
  ∀ choice b r',
    getParams (router (run ops s)) choice = (Ret b, r') →
    length (bufItems b) = 0%nat
    ∧ Forall (fun n => n ≤ Z.of_nat (bufCap b)) (routeCounts ops s).

End PooledLookup.

(* ===================================================================== *)
(** * Part II: properties *)
(* ===================================================================== *)

(** ** Captured parameters *)

Lemma ByName_cons p ps name :
  ByName (p :: ps) name =
    if String.eqb (Key p) name then Value p else ByName ps name.
Proof. reflexivity. Qed.

Lemma ByName_absent ps name :
  (∀ i p, ByIndex ps i = Some p → Key p ≠ name) → ByName ps name = "".
Proof.
  induction ps as [|q ps IH]; intros Hno; [reflexivity|].
  rewrite ByName_cons.
  destruct (String.eqb_spec (Key q) name) as [Heq|_].
  - exfalso. exact (Hno 0%nat q eq_refl Heq).
  - apply IH. intros i p Hi. exact (Hno (S i) p Hi).
Qed.

Lemma ByName_first ps name i p :
  ByIndex ps i = Some p →
  Key p = name →
  (∀ j q, (j < i)%nat → ByIndex ps j = Some q → Key q ≠ name) →
  ByName ps name = Value p.
Proof.
  revert i. induction ps as [|q ps IH]; intros i Hi Hkey Hbefore.
  - destruct i; discriminate.
  - rewrite ByName_cons. destruct i as [|i].
    + injection Hi as ->. rewrite <- Hkey, String.eqb_refl. reflexivity.
    + destruct (String.eqb_spec (Key q) name) as [Heq|_].
      * exfalso. exact (Hbefore 0%nat q (Nat.lt_0_succ i) eq_refl Heq).
      * apply (IH i Hi Hkey). intros j q' Hlt Hj.
        apply (Hbefore (S j) q'); [apply Nat.succ_lt_mono in Hlt; exact Hlt|exact Hj].
Qed.

(** C9. Retrieval by name returns the value of the first pair, in
    left-to-right order, whose key equals the name, and the empty string when
    no pair has that key; the positions are those of retrieval by index,
    which reads the same sequence. *)
Theorem ByName_first_match (ps : Params) (name : string) :
  (∀ i p,
      ByIndex ps i = Some p →
      Key p = name →
      (∀ j q, (j < i)%nat → ByIndex ps j = Some q → Key q ≠ name) →
      ByName ps name = Value p)
  ∧ ((∀ i p, ByIndex ps i = Some p → Key p ≠ name) → ByName ps name = "")
  ∧ (∀ i, ByIndex ps i = nth_error ps i).
Proof.
  split; [|split].
  - intros i p. apply ByName_first.
  - apply ByName_absent.
  - intros i. unfold ByIndex. revert i.
    induction ps as [|q ps IH]; intros [|i]; simpl; auto.
Qed.

Lemma ByName_first_match_witness :
  ByName [mkParam "a" "1"; mkParam "b" "2"; mkParam "b" "3"] "b" = "2"
  ∧ ByName [mkParam "a" "1"; mkParam "b" "2"; mkParam "b" "3"] "c" = "".
Proof.
  pose proof (ByName_first_match
                [mkParam "a" "1"; mkParam "b" "2"; mkParam "b" "3"] "b") as Hb.
  pose proof (ByName_first_match
                [mkParam "a" "1"; mkParam "b" "2"; mkParam "b" "3"] "c") as Hc.
  split.
  - apply (proj1 Hb 1%nat (mkParam "b" "2")); [reflexivity|reflexivity|].
    intros [|j] q Hlt Hq; [|lia].
    injection Hq as <-. discriminate.
  - apply (proj1 (proj2 Hc)).
    intros [|[|[|i]]] p Hp; try discriminate; injection Hp as <-; discriminate.
Defined.

(** ** The middleware chain *)

Section Middleware.
Context {node : Type} `{TreeOps node}.

Lemma applyFrom_take {A : Type} (ms : list (A → A)) (n : nat) (h : A) :
  (n ≤ length ms)%nat →
  applyFrom ms n h = foldr (fun m next => m next) h (take n ms).
Proof.
  revert h. induction n as [|n IH]; intros h Hn; [reflexivity|].
  simpl. destruct (lookup_lt_is_Some_2 ms n) as [m Hm]; [lia|].
  rewrite Hm, IH by lia.
  rewrite (take_S_r ms n m Hm), foldr_app. reflexivity.
Qed.

Lemma applyMiddleware_foldr (r : Router node) (handler : Handler) :
  applyMiddleware r handler =
    foldr (fun m next => m next) handler (Middlewares r).
Proof.
  unfold applyMiddleware. rewrite applyFrom_take by reflexivity.
  rewrite firstn_all. reflexivity.
Qed.

Lemma Middlewares_Use (r : Router node) ms :
  Middlewares (Use r ms) = Middlewares r ++ ms.
Proof. reflexivity. Qed.

Lemma Middlewares_Use_calls (calls : list (list Middleware)) (r : Router node) :
  Middlewares (fold_left Use calls r) = Middlewares r ++ concat calls.
Proof.
  revert r. induction calls as [|ms calls IH]; intros r; simpl.
  - rewrite app_nil_r. reflexivity.
  - rewrite IH, Middlewares_Use, <- app_assoc. reflexivity.
Qed.

(** C10. After the calls [Use(ms1)], [Use(ms2)], ... on a router, the
    handler that serves a request is the composition of the middlewares in
    the order they were added, the first one outermost, around the core
    decision logic: m1 (m2 (... (mk core))). *)
Theorem middleware_onion (r : Router node) (calls : list (list Middleware))
    (handler : Handler) (req : Request) :
  applyMiddleware (fold_left Use calls r) handler =
    foldr (fun m next => m next) handler (Middlewares r ++ concat calls)
  ∧ ServeHTTP (fold_left Use calls r) req =
      foldr (fun m next => m next)
        (coreRoutingAndHandling (fold_left Use calls r) req)
        (Middlewares r ++ concat calls) req.
Proof.
  split.
  - rewrite applyMiddleware_foldr, Middlewares_Use_calls. reflexivity.
  - unfold ServeHTTP.
    rewrite applyMiddleware_foldr, Middlewares_Use_calls. reflexivity.
Qed.

End Middleware.

(** Three middlewares added by two calls run in the order they were added,
    before the core answers. *)
Example middleware_order :
  ServeHTTP
    (Use (Use Scenarios.onlyGetX [Scenarios.tag "m1"; Scenarios.tag "m2"])
         [Scenarios.tag "m3"])
    (Scenarios.request "GET" "/x")
  = ([EvUser "m1" []; EvUser "m2" []; EvUser "m3" []; EvUser "x" []], Ret tt).
Proof. vm_compute. reflexivity. Qed.

(** ** Dispatch *)

Section Dispatch.
Context {node : Type} `{TreeOps node}.

Lemma unmatched_cases (r : Router node) :
  unmatched r = ActStatic ∨ unmatched r = ActNotFound.
Proof. unfold unmatched. destruct (_ && _); auto. Qed.

Lemma fallbackStage_cases (r : Router node) request :
  (∃ allow, fallbackStage r request = ActOptions allow)
  ∨ (∃ allow, fallbackStage r request = ActNotAllowed allow)
  ∨ fallbackStage r request = ActStatic
  ∨ fallbackStage r request = ActNotFound.
Proof.
  unfold fallbackStage.
  destruct (unmatched_cases r) as [-> | ->];
    repeat match goal with
           | |- context [if ?b then _ else _] => destruct b
           end; eauto.
Qed.

Lemma fallbackStage_not_redirect (r : Router node) request url code :
  fallbackStage r request ≠ ActRedirect url code.
Proof.
  destruct (fallbackStage_cases r request) as [[a ->]|[[a ->]|[-> | ->]]];
    discriminate.
Qed.

(** The status of a redirect is fixed by the request method alone. *)
Lemma lookupStage_redirect (r : Router node) request url code :
  lookupStage r request = Some (ActRedirect url code) →
  code = redirectCode request
  ∧ redirectable request = true
  ∧ (Lookup r (Method request) (Path (ReqURL request))).1.1 = None.
Proof.
  unfold lookupStage, redirectCode, redirectable, Lookup.
  destruct (trees r !! Method request) as [root|]; [|discriminate].
  destruct (getValue root (Path (ReqURL request))) as [[[h|] ps] tsr];
    [discriminate|].
  destruct (negb (String.eqb (Method request) MethodConnect)
            && negb (String.eqb (Path (ReqURL request)) "/")); [|discriminate].
  intros Hstage.
  assert (code = if negb (String.eqb (Method request) MethodGet)
                 then StatusPermanentRedirect else StatusMovedPermanently) as ->.
  { destruct (tsr && RedirectTrailingSlash r).
    - injection Hstage as _ <-. reflexivity.
    - destruct (RedirectFixedPath r); [|discriminate].
      destruct (findCaseInsensitivePath _ _ _) as [fixed [|]]; [|discriminate].
      injection Hstage as _ <-. reflexivity. }
  destruct (String.eqb (Method request) MethodGet); auto.
Qed.

(** C1, as the code has it. Whenever a request is answered with a
    trailing-slash or fixed-path redirect, the status is 301 when the request
    method is GET and 308 for every other method (HEAD included); that status
    is the one written with the redirect. *)
Theorem redirect_status (r : Router node) (request : Request) (url : URL) (code : Z) :
  dispatch r request = ActRedirect url code →
  code = (if String.eqb (Method request) MethodGet then 301 else 308)
  ∧ perform r request (dispatch r request) = ([EvRedirect url code], Ret tt).
Proof.
  intros Hd. split; [|rewrite Hd; reflexivity].
  unfold dispatch in Hd.
  destruct (lookupStage r request) as [a|] eqn:Hstage.
  - subst a. apply lookupStage_redirect in Hstage as [-> _]. reflexivity.
  - exfalso. exact (fallbackStage_not_redirect _ _ _ _ Hd).
Qed.

(** The decision on what the lookup found is the action of the first branch
    that resolves, the branches being tried in the order exact match,
    trailing-slash redirect, fixed-path redirect, automatic OPTIONS, method
    not allowed, fallback; the fallback always resolves, so every request
    gets one action and only one. *)
Theorem dispatch_first_resolving_branch (r : Router node) (request : Request) :
  branches = [branchExactMatch; branchTrailingSlash; branchFixedPath;
              branchAutoOptions; branchNotAllowed; branchFallback]
  ∧ firstResolving branches r request = Some (dispatch r request)
  ∧ (∀ a, firstResolving branches r request = Some a → a = dispatch r request)
  ∧ is_Some (branchFallback r request).
Proof.
  assert (firstResolving branches r request = Some (dispatch r request)) as Hfirst.
  { assert (firstResolving [branchAutoOptions; branchNotAllowed; branchFallback]
              r request = Some (fallbackStage r request)) as Htail.
    { unfold firstResolving, branchAutoOptions, branchNotAllowed, branchFallback,
        fallbackStage.
      destruct (String.eqb_spec (Method request) MethodOptions) as [Hm|Hm];
        simpl.
      - destruct (HandleOPTIONS r); simpl.
        + destruct (String.eqb (allowed r (Path (ReqURL request)) MethodOptions) "")
            eqn:Hallow; simpl; [|reflexivity].
          destruct (HandleMethodNotAllowed r); [|reflexivity].
          rewrite Hm, Hallow. reflexivity.
        + destruct (HandleMethodNotAllowed r); [|reflexivity].
          destruct (String.eqb _ ""); reflexivity.
      - destruct (HandleMethodNotAllowed r); [|reflexivity].
        destruct (String.eqb _ ""); reflexivity. }
    unfold branches, dispatch.
    change (firstResolving
              (branchExactMatch :: branchTrailingSlash :: branchFixedPath
               :: [branchAutoOptions; branchNotAllowed; branchFallback]) r request)
      with (match branchExactMatch r request with
            | Some a => Some a
            | None =>
                match branchTrailingSlash r request with
                | Some a => Some a
                | None =>
                    match branchFixedPath r request with
                    | Some a => Some a
                    | None =>
                        firstResolving
                          [branchAutoOptions; branchNotAllowed; branchFallback]
                          r request
                    end
                end
            end).
    rewrite Htail.
    unfold branchExactMatch, branchTrailingSlash, branchFixedPath, lookupStage,
      redirectable, redirectCode, toggledSlash.
    destruct (trees r !! Method request) as [root|]; [|reflexivity].
    destruct (getValue root (Path (ReqURL request))) as [[[h|] ps] tsr];
      [reflexivity|].
    destruct (negb (String.eqb (Method request) MethodConnect)
              && negb (String.eqb (Path (ReqURL request)) "/")); simpl;
      [|reflexivity].
    destruct (String.eqb (Method request) MethodGet); simpl;
      (destruct (tsr && RedirectTrailingSlash r);
         [destruct (_ && lastByteIs _ _); reflexivity|];
       destruct (RedirectFixedPath r); [|reflexivity];
       destruct (findCaseInsensitivePath _ _ _) as [fixed [|]]; reflexivity). }
  split; [reflexivity|]. split; [exact Hfirst|]. split.
  - intros a Ha. rewrite Hfirst in Ha. injection Ha as <-. reflexivity.
  - unfold branchFallback. eauto.
Qed.

(** C8. A request whose method is CONNECT, or whose path is the root, and
    for which the exact lookup finds no handler, is never answered with a
    redirect, whatever the lookup recommends and whatever the redirect
    policies are: the decision is that of the automatic-OPTIONS, 405 and
    fallback branches. *)
Theorem no_redirect_for_connect_or_root (r : Router node) (request : Request) :
  (Method request = MethodConnect ∨ Path (ReqURL request) = "/") →
  (Lookup r (Method request) (Path (ReqURL request))).1.1 = None →
  dispatch r request = fallbackStage r request
  ∧ (∀ url code, dispatch r request ≠ ActRedirect url code).
Proof.
  intros Hgate Hmiss.
  assert (lookupStage r request = None) as Hstage.
  { unfold lookupStage. unfold Lookup in Hmiss.
    destruct (trees r !! Method request) as [root|]; [|reflexivity].
    destruct (getValue root (Path (ReqURL request))) as [[[h|] ps] tsr];
      [discriminate|].
    destruct Hgate as [-> | ->]; [reflexivity|].
    rewrite String.eqb_refl, andb_false_r. reflexivity. }
  unfold dispatch. rewrite Hstage. split; [reflexivity|].
  intros url code. apply fallbackStage_not_redirect.
Qed.

(** *** Panics *)

(** Called below the deferred function, [recv] recovers nothing. *)
Lemma recv_below_deferred (r : Router node) depth req p :
  recv r (S depth) req p = ([], false).
Proof. reflexivity. Qed.

(** A panic of the decision logic or of the handler leaves the core handler
    as it entered the deferred call. *)
Lemma coreRoutingAndHandling_outcome (r : Router node) req request :
  coreRoutingAndHandling r req request = perform r request (dispatch r request).
Proof.
  unfold coreRoutingAndHandling, defer_.
  destruct (perform r request (dispatch r request)) as [t res].
  rewrite recv_below_deferred, app_nil_r. reflexivity.
Qed.

(** Had [recv] been the deferred function itself, it would recover: the
    recovery handler when one is set, else the error handler with 500. *)
Lemma recv_deferred_directly (r : Router node) req v :
  ctxDone req = false →
  recv r 0 req (Some v) =
    (match RecoveryHandler r with
     | Some f => f req v
     | None =>
         match errorHandler r with
         | Some eh => eh req StatusInternalServerError
         | None => defaultErrorHandler req StatusInternalServerError
         end
     end, true).
Proof.
  intros Hctx. unfold recv, recover. rewrite Hctx.
  destruct (RecoveryHandler r); [reflexivity|].
  destruct (errorHandler r); reflexivity.
Qed.

(** ** Registration *)

Lemma lacksLeadingSlash_spec path :
  lacksLeadingSlash path = true ↔
    path = "" ∨ ∃ c rest, path = String c rest ∧ c ≠ "/"%char.
Proof.
  unfold lacksLeadingSlash. destruct path as [|c rest]; simpl.
  - split; auto.
  - destruct (Ascii.eqb_spec c "/") as [->|Hne]; simpl.
    + split; [discriminate|].
      intros [?|(c' & rest' & Heq & Hne)]; [discriminate|].
      injection Heq as <- _. congruence.
    + split; [|reflexivity]. intros _. right. eauto.
Qed.

Lemma Router_Handle_validation_cases (r : Router node) method path handle :
  (Router_Handle r method path handle = (r, Some MethodEmpty) ∧ method = "")
  ∨ (Router_Handle r method path handle = (r, Some (PathWithoutSlash path))
     ∧ method ≠ "" ∧ lacksLeadingSlash path = true)
  ∨ (Router_Handle r method path handle = (r, Some HandleNil)
     ∧ method ≠ "" ∧ lacksLeadingSlash path = false ∧ handle = None)
  ∨ (method ≠ "" ∧ lacksLeadingSlash path = false ∧ is_Some handle
     ∧ ∀ e, (Router_Handle r method path handle).2 = Some e →
            isValidationPanic e = false).
Proof.
  unfold Router_Handle.
  destruct (String.eqb_spec method "") as [->|Hm]; [auto|].
  destruct (lacksLeadingSlash path) eqn:Hp; [auto|].
  destruct handle as [h|]; [|auto 10].
  right. right. right. repeat split; eauto.
  intros e.
  destruct (SaveMatchedRoutePath r);
    destruct (trees r !! method);
    destruct (addRoute _ _ _) as [root' [v|]]; simpl;
    intros He; try discriminate; injection He as <-; reflexivity.
Qed.

(** C5. A registration panics in its argument checks, leaving the router
    as it was, whenever the method is empty, or the pattern is empty or does
    not begin with a slash, or the handler is nil; with a method that is not
    empty, a pattern that begins with a slash and a handler, none of the
    three checks fires. *)
Theorem Router_Handle_validation (r : Router node) (method path : string)
    (handle : option Handle) :
  ((method = ""
    ∨ path = ""
    ∨ (∃ c rest, path = String c rest ∧ c ≠ "/"%char)
    ∨ handle = None) →
   ∃ e, Router_Handle r method path handle = (r, Some e)
        ∧ isValidationPanic e = true)
  ∧ (method ≠ "" → (∃ rest, path = String "/" rest) → handle ≠ None →
     ∀ e, (Router_Handle r method path handle).2 = Some e →
          isValidationPanic e = false).
Proof.
  pose proof (lacksLeadingSlash_spec path) as Hspec.
  destruct (Router_Handle_validation_cases r method path handle)
    as [[-> Hm]|[[-> (Hm & Hp)]|[[-> (Hm & Hp & Hh)]|(Hm & Hp & Hh & Hrest)]]].
  - split; [eauto|]. intros Hne. congruence.
  - split; [eauto|]. intros _ [rest ->]. discriminate.
  - split; [eauto|]. intros _ _ Hne. congruence.
  - split; [|intros _ _ _; exact Hrest].
    intros [Hbad|[Hbad|[Hbad|Hbad]]].
    + congruence.
    + assert (lacksLeadingSlash path = true) by (apply Hspec; auto). congruence.
    + assert (lacksLeadingSlash path = true) by (apply Hspec; auto). congruence.
    + destruct Hh as [h Hh]. congruence.
Qed.

End Dispatch.

(** ** The dispatch properties on concrete routers *)

Section DispatchScenarios.
Import Scenarios.

(** [GET /x/] with only [GET /x] registered: the lookup recommends the
    redirect, and its status is 301. *)
Lemma redirect_status_witness :
  dispatch onlyGetX (request "GET" "/x/") = ActRedirect (mkURL "/x" "") 301
  ∧ (301 = (if String.eqb (Method (request "GET" "/x/")) MethodGet
            then 301 else 308)
     ∧ perform onlyGetX (request "GET" "/x/")
         (dispatch onlyGetX (request "GET" "/x/"))
       = ([EvRedirect (mkURL "/x" "") 301], Ret tt)).
Proof.
  assert (dispatch onlyGetX (request "GET" "/x/")
          = ActRedirect (mkURL "/x" "") 301) as Hd
    by (vm_compute; reflexivity).
  split; [exact Hd|].
  exact (redirect_status onlyGetX (request "GET" "/x/") (mkURL "/x" "") 301 Hd).
Defined.

(** [HEAD /x/] with only [HEAD /x] registered is redirected with 308: HEAD
    is a read method, and the status is not 301. *)
Lemma redirect_status_head_counterexample :
  ¬ redirectStatusAsStated onlyHeadX (request "HEAD" "/x/").
Proof.
  intros Hclaim.
  assert (dispatch onlyHeadX (request "HEAD" "/x/")
          = ActRedirect (mkURL "/x" "") 308) as Hd
    by (vm_compute; reflexivity).
  specialize (Hclaim _ _ Hd). vm_compute in Hclaim. discriminate.
Qed.

(** [CONNECT /x/] with only [CONNECT /x] registered and both redirect
    policies on: the lookup recommends the trailing slash, and the request is
    answered by the not-found responder. *)
Lemma no_redirect_for_connect_or_root_witness :
  (Lookup onlyConnectX "CONNECT" "/x/").2 = true
  ∧ RedirectTrailingSlash onlyConnectX = true
  ∧ RedirectFixedPath onlyConnectX = true
  ∧ dispatch onlyConnectX (request "CONNECT" "/x/")
    = fallbackStage onlyConnectX (request "CONNECT" "/x/")
  ∧ fallbackStage onlyConnectX (request "CONNECT" "/x/") = ActNotFound.
Proof.
  split; [vm_compute; reflexivity|].
  split; [reflexivity|]. split; [reflexivity|].
  split; [|vm_compute; reflexivity].
  apply (no_redirect_for_connect_or_root onlyConnectX (request "CONNECT" "/x/")).
  - left. reflexivity.
  - vm_compute. reflexivity.
Defined.

(** The same path under GET is redirected: the gate is what stops it. *)
Example get_is_redirected_where_connect_is_not :
  dispatch (register onlyConnectX "GET" "/x" (say "x")) (request "GET" "/x/")
  = ActRedirect (mkURL "/x" "") 301.
Proof. vm_compute. reflexivity. Qed.

(** The root path: with [GET /:name] registered, a lookup of the root
    finds nothing, and no redirect is considered. *)
Example root_is_not_redirected :
  dispatch (register New "GET" "/:name" (say "x")) (request "GET" "/")
  = ActNotFound.
Proof. vm_compute. reflexivity. Qed.

(** An empty method, and a pattern registered twice: the first panics in
    the argument checks, the second inside [addRoute]. *)
Lemma Router_Handle_validation_witness :
  (∃ e, Router_Handle (New (node := RouteTable.Table)) "" "/x" (Some (say "x"))
        = (New, Some e)
        ∧ isValidationPanic e = true)
  ∧ isValidationPanic
      (FromAddRoute (PanicString "path '/x' conflicts with an existing route"))
    = false.
Proof.
  split.
  - apply (Router_Handle_validation New "" "/x" (Some (say "x"))).
    left. reflexivity.
  - apply (proj2 (Router_Handle_validation onlyGetX "GET" "/x" (Some (say "again")))).
    + discriminate.
    + exists "x". reflexivity.
    + discriminate.
    + vm_compute. reflexivity.
Defined.

(** C4, on the code. [GET /x] is registered with a handler that panics, and
    a recovery handler is set. Serving [GET /x] leaves [ServeHTTP] panicking
    with the handler's value, and the recovery handler has not run: the
    [recover()] of [recv] is not called by the deferred function but one call
    below it, where it returns nil. *)
Theorem panic_passes_the_router :
  is_Some (RecoveryHandler recovering)
  ∧ ServeHTTP recovering (request "GET" "/x")
    = ([], Panic (PanicString "oops"))
  ∧ recv recovering 0 (request "GET" "/x") (Some (PanicString "oops"))
    = ([EvUser "recovered" []], true).
Proof.
  split; [eexists; reflexivity|].
  split; vm_compute; reflexivity.
Qed.

End DispatchScenarios.

(** ** The order on method names and the sort *)

Section Sorting.

Lemma ltb_lt a b : String.ltb a b = true ↔ String_as_OT.lt a b.
Proof.
  rewrite <- String_as_OT.cmp_lt. unfold String.ltb, String_as_OT.cmp.
  destruct (String.compare a b); split; congruence.
Qed.

Lemma ltb_irrefl a : String.ltb a a = false.
Proof.
  destruct (String.ltb a a) eqn:Hlt; [|reflexivity].
  apply ltb_lt in Hlt. exfalso. exact (String_as_OT.lt_not_eq _ _ Hlt eq_refl).
Qed.

Lemma ltb_trans a b c :
  String.ltb a b = true → String.ltb b c = true → String.ltb a c = true.
Proof. rewrite !ltb_lt. apply String_as_OT.lt_trans. Qed.

Lemma ltb_asym a b : String.ltb a b = true → String.ltb b a = false.
Proof.
  intros Hab. destruct (String.ltb b a) eqn:Hba; [|reflexivity].
  pose proof (ltb_trans _ _ _ Hab Hba) as Haa.
  rewrite ltb_irrefl in Haa. discriminate.
Qed.

Lemma ltb_total a b : a ≠ b → String.ltb b a = false → String.ltb a b = true.
Proof.
  intros Hne. unfold String.ltb. rewrite (String.compare_antisym b a).
  destruct (String.compare a b) eqn:Hc; simpl; intros Hba.
  - apply String.compare_eq_iff in Hc. contradiction.
  - reflexivity.
  - discriminate.
Qed.

Lemma notAfter_trans a b c :
  String.ltb b a = false → String.ltb c b = false → String.ltb c a = false.
Proof.
  intros Hab Hbc. destruct (String.ltb c a) eqn:Hca; [|reflexivity].
  destruct (decide (a = b)) as [->|Hne]; [congruence|].
  pose proof (ltb_total _ _ Hne Hab) as Hlt.
  pose proof (ltb_trans _ _ _ Hca Hlt). congruence.
Qed.

Lemma elem_of_rev_iff (z : string) (l : list string) : z ∈ rev l ↔ z ∈ l.
Proof. rewrite !list_elem_of_In. symmetry. apply in_rev. Qed.

(** One run of the inner loop: the element at position [length rp], with a
    sorted prefix before it (given reversed), sinks to its place in the
    prefix; what follows it is not touched. *)
Lemma sink_sorted_prefix (rp : list string) (x : string) (post : list string) :
  nondescending (rev rp) →
  ∃ l, sink (rev rp ++ x :: post) (length rp) = l ++ post
       ∧ nondescending l
       ∧ l ≡ₚ x :: rp.
Proof.
  revert post. induction rp as [|y rp IH]; intros post Hsorted.
  - exists [x]. repeat split; [|reflexivity].
    apply SSorted_cons; [constructor|constructor].
  - simpl rev in *. simpl length.
    apply (StronglySorted_app _ (rev rp) [y]) in Hsorted
      as (Hle & Hpre & _).
    cbn [sink]. rewrite <- app_assoc. simpl.
    rewrite (list_lookup_middle (rev rp) (x :: post) y (length rp))
      by (rewrite length_rev; reflexivity).
    replace ((rev rp ++ y :: x :: post) !! S (length rp)) with (Some x).
    2:{ symmetry. change (rev rp ++ y :: x :: post)
          with (rev rp ++ [y] ++ x :: post).
        rewrite app_assoc. apply list_lookup_middle.
        rewrite length_app, length_rev. simpl. lia. }
    destruct (String.ltb x y) eqn:Hxy.
    + assert (<[length rp := x]> (<[S (length rp) := y]> (rev rp ++ y :: x :: post))
              = rev rp ++ x :: y :: post) as ->.
      { rewrite (insert_app_r_alt (rev rp)) by (rewrite length_rev; lia).
        rewrite length_rev, (insert_app_r_alt (rev rp))
          by (rewrite length_rev; lia).
        rewrite length_rev.
        replace (S (length rp) - length rp)%nat with 1%nat by lia.
        rewrite Nat.sub_diag. reflexivity. }
      destruct (IH (y :: post) Hpre) as (l & Heq & Hl & Hperm).
      exists (l ++ [y]). rewrite Heq, <- app_assoc. split; [reflexivity|].
      split.
      * apply StronglySorted_app_2; [|exact Hl|repeat constructor].
        intros z y' Hz Hy'. apply list_elem_of_singleton in Hy' as ->.
        rewrite Hperm in Hz. apply elem_of_cons in Hz as [->|Hz].
        -- apply ltb_asym. exact Hxy.
        -- apply Hle; [|apply list_elem_of_singleton; reflexivity].
           apply elem_of_rev_iff. exact Hz.
      * rewrite Hperm. rewrite <- Permutation_cons_append.
        apply perm_swap.
    + exists ((rev rp ++ [y]) ++ [x]). split.
      { rewrite <- !app_assoc. reflexivity. }
      split.
      * apply StronglySorted_app_2; [| |repeat constructor].
        -- intros z x' Hz Hx'. apply list_elem_of_singleton in Hx' as ->.
           apply elem_of_app in Hz as [Hz|Hz].
           ++ apply (notAfter_trans z y x); [|exact Hxy].
              apply Hle; [exact Hz|apply list_elem_of_singleton; reflexivity].
           ++ apply list_elem_of_singleton in Hz as ->. exact Hxy.
        -- apply StronglySorted_app_2; [exact Hle|exact Hpre|repeat constructor].
      * rewrite <- Permutation_cons_append. constructor.
        rewrite <- Permutation_cons_append. constructor.
        symmetry. apply Permutation_rev.
Qed.

(** The outer loop, from position [length l] on, with [l] sorted. *)
Lemma sort_from (post l : list string) :
  nondescending l →
  ∃ l', fold_left sink (seq (length l) (length post)) (l ++ post) = l'
        ∧ nondescending l'
        ∧ l' ≡ₚ l ++ post.
Proof.
  revert l. induction post as [|x post IH]; intros l Hl.
  - exists l. simpl. rewrite app_nil_r. auto.
  - simpl.
    destruct (sink_sorted_prefix (rev l) x post) as (l1 & Heq & Hl1 & Hperm).
    { rewrite rev_involutive. exact Hl. }
    rewrite rev_involutive, length_rev in Heq. rewrite Heq.
    assert (length l1 = S (length l)) as Hlen.
    { rewrite Hperm. simpl. rewrite length_rev. reflexivity. }
    destruct (IH l1 Hl1) as (l' & Hfold & Hl' & Hperm').
    rewrite Hlen in Hfold. exists l'. split; [exact Hfold|].
    split; [exact Hl'|].
    rewrite Hperm', Hperm, <- Permutation_rev.
    rewrite <- Permutation_middle. reflexivity.
Qed.

Lemma sortMethods_sorted (a : list string) :
  nondescending (sortMethods a) ∧ sortMethods a ≡ₚ a.
Proof.
  unfold sortMethods. destruct a as [|x a].
  - simpl. split; [constructor|reflexivity].
  - replace (length (x :: a) - 1)%nat with (length a) by (simpl; lia).
    destruct (sort_from a [x]) as (l' & Hfold & Hl' & Hperm).
    { repeat constructor. }
    simpl in Hfold. rewrite Hfold. auto.
Qed.

Lemma nondescending_NoDup_ascending (l : list string) :
  nondescending l → NoDup l → ascending l.
Proof.
  intros Hs. induction Hs as [|x l Hl IH Hx]; intros Hnd; [constructor|].
  apply NoDup_cons in Hnd as [Hnotin Hnd].
  constructor; [exact (IH Hnd)|].
  rewrite Forall_forall in Hx |- *. intros z Hz.
  apply ltb_total; [|exact (Hx z Hz)].
  intros ->. exact (Hnotin Hz).
Qed.

(** Sorting names without repetition: strictly ascending, same names. *)
Lemma sortMethods_ascending (a : list string) :
  NoDup a →
  ascending (sortMethods a) ∧ ∀ m, m ∈ sortMethods a ↔ m ∈ a.
Proof.
  intros Hnd. destruct (sortMethods_sorted a) as [Hs Hperm]. split.
  - apply nondescending_NoDup_ascending; [exact Hs|].
    rewrite Hperm. exact Hnd.
  - intros m. rewrite Hperm. reflexivity.
Qed.

Lemma ascending_unique (l1 l2 : list string) :
  ascending l1 → ascending l2 → l1 ≡ₚ l2 → l1 = l2.
Proof.
  apply StronglySorted_unique_strong.
  intros x1 x2 _ _ H12 H21. apply ltb_asym in H12. congruence.
Qed.

Lemma Join_empty (l : list string) (sep : string) :
  Join l sep = "" → ∀ x, x ∈ l → x = "".
Proof.
  induction l as [|x l IH]; intros Hj z Hz; [inversion Hz|].
  destruct l as [|y l].
  - apply list_elem_of_singleton in Hz as ->. exact Hj.
  - cbn [Join] in Hj. destruct x; [|discriminate].
    destruct sep; [|discriminate]. simpl in Hj.
    apply elem_of_cons in Hz as [->|Hz]; [reflexivity|].
    exact (IH Hj z Hz).
Qed.

End Sorting.

(** ** The Allow header *)

Section Allow.
Context {node : Type} `{TreeOps node}.

Lemma rangeAppend_filter (keep : string → node → bool) order :
  rangeAppend keep order =
    map fst (List.filter (fun p => keep p.1 p.2) order).
Proof.
  unfold rangeAppend.
  enough (∀ acc,
    fold_left
      (fun allowedMethods '(method, root) =>
         if keep method root then allowedMethods ++ [method] else allowedMethods)
      order acc
    = acc ++ map fst (List.filter (fun p => keep p.1 p.2) order)) as Hgen
    by apply (Hgen []).
  induction order as [|[m t] order IH]; intros acc; simpl.
  - rewrite app_nil_r. reflexivity.
  - rewrite IH. destruct (keep m t); simpl; [|reflexivity].
    rewrite <- app_assoc. reflexivity.
Qed.

Lemma rangeAppend_elem (keep : string → node → bool) order m :
  m ∈ rangeAppend keep order ↔ ∃ t, (m, t) ∈ order ∧ keep m t = true.
Proof.
  rewrite rangeAppend_filter, list_elem_of_In, in_map_iff. split.
  - intros ([m' t] & Heq & Hin). simpl in Heq. subst m'.
    apply filter_In in Hin as [Hin Hk]. exists t.
    split; [apply list_elem_of_In; exact Hin|exact Hk].
  - intros (t & Hin & Hk). exists (m, t). split; [reflexivity|].
    apply filter_In. split; [apply list_elem_of_In; exact Hin|exact Hk].
Qed.

Lemma rangeAppend_NoDup (keep : string → node → bool) order :
  NoDup order.*1 → NoDup (rangeAppend keep order).
Proof.
  induction order as [|[m t] order IH]; intros Hnd.
  - constructor.
  - rewrite fmap_cons in Hnd. apply NoDup_cons in Hnd as [Hnotin Hnd].
    specialize (IH Hnd). rewrite rangeAppend_filter in IH |- *. simpl.
    destruct (keep m t); [|exact IH].
    simpl. apply NoDup_cons. split; [|exact IH].
    intros Hin. apply Hnotin.
    rewrite <- rangeAppend_filter in Hin.
    apply rangeAppend_elem in Hin as (t' & Hin & _).
    apply list_elem_of_fmap. exists (m, t'). auto.
Qed.

(** The end of [allowed]: OPTIONS is appended when it is handled
    automatically, and the names are sorted. *)
Lemma tokens_of_collected (handleOPTIONS : bool) (collected : list string) :
  NoDup collected →
  MethodOptions ∉ collected →
  ascending (sortMethods (if handleOPTIONS then collected ++ [MethodOptions]
                          else collected))
  ∧ ∀ m,
      m ∈ sortMethods (if handleOPTIONS then collected ++ [MethodOptions]
                       else collected)
      ↔ (m = MethodOptions ∧ handleOPTIONS = true) ∨ m ∈ collected.
Proof.
  intros Hnd Hopt. destruct handleOPTIONS.
  - destruct (sortMethods_ascending (collected ++ [MethodOptions])) as [Ha Hm].
    { apply NoDup_app. split; [exact Hnd|]. split; [|apply NoDup_singleton].
      intros x Hx Hx'. apply list_elem_of_singleton in Hx'. congruence. }
    split; [exact Ha|]. intros m. rewrite Hm, elem_of_app, list_elem_of_singleton.
    split; [intros [?|?]; auto|intros [[? _]|?]; auto].
  - destruct (sortMethods_ascending collected Hnd) as [Ha Hm].
    split; [exact Ha|]. intros m. rewrite Hm.
    split; [auto|intros [[_ ?]|?]; [discriminate|assumption]].
Qed.

Lemma nonempty_length (l : list string) : l ≠ [] → (0 <? length l)%nat = true.
Proof. destruct l; [congruence|reflexivity]. Qed.

(** [allowed] on a path other than the server-wide one. *)
Lemma allowed_path (r : Router node) path reqMethod :
  path ≠ "*" →
  allowed r path reqMethod =
    let collected :=
      rangeAppend
        (fun method root =>
           negb (String.eqb method reqMethod || String.eqb method MethodOptions)
           && hasRoute root path)
        (map_to_list (trees r)) in
    if (0 <? length collected)%nat
    then Join (sortMethods (if HandleOPTIONS r then collected ++ [MethodOptions]
                            else collected)) ", "
    else "".
Proof.
  intros Hpath. unfold allowed, allowed_in.
  apply String.eqb_neq in Hpath. rewrite Hpath. reflexivity.
Qed.

(** [allowed] on the server-wide path with the empty method: the refresh. *)
Lemma allowed_refresh (r : Router node) :
  allowed r "*" "" =
    let collected :=
      rangeAppend (fun method _ => negb (String.eqb method MethodOptions))
        (map_to_list (trees r)) in
    if (0 <? length collected)%nat
    then Join (sortMethods (if HandleOPTIONS r then collected ++ [MethodOptions]
                            else collected)) ", "
    else "".
Proof. reflexivity. Qed.

(** [allowed] on the server-wide path with a method: the cache. *)
Lemma allowed_cached (r : Router node) reqMethod :
  reqMethod ≠ "" → allowed r "*" reqMethod = globalAllowed r.
Proof.
  intros Hm. unfold allowed, allowed_in. simpl.
  apply String.eqb_neq in Hm. rewrite Hm. reflexivity.
Qed.

(** The order in which the map yields its entries does not show in the
    result. *)
Lemma allowed_in_order (r : Router node) order order' path reqMethod :
  NoDup order.*1 → order ≡ₚ order' →
  allowed_in r order path reqMethod = allowed_in r order' path reqMethod.
Proof.
  intros Hnd Hperm.
  assert (NoDup order'.*1) as Hnd' by (rewrite <- Hperm; exact Hnd).
  assert (∀ keep : string → node → bool,
             (∀ m t, keep m t = true → m ≠ MethodOptions) →
             (if (0 <? length (rangeAppend keep order))%nat
              then Join (sortMethods
                           (if HandleOPTIONS r
                            then rangeAppend keep order ++ [MethodOptions]
                            else rangeAppend keep order)) ", "
              else "")
             = (if (0 <? length (rangeAppend keep order'))%nat
                then Join (sortMethods
                             (if HandleOPTIONS r
                              then rangeAppend keep order' ++ [MethodOptions]
                              else rangeAppend keep order')) ", "
                else "")) as Hsame.
  { intros keep Hkeep.
    assert (rangeAppend keep order ≡ₚ rangeAppend keep order') as Hp.
    { apply NoDup_Permutation; try (apply rangeAppend_NoDup; assumption).
      intros m. rewrite !rangeAppend_elem.
      split; intros (t & Hin & Hk); exists t; split; auto;
        [rewrite <- Hperm|rewrite Hperm]; exact Hin. }
    rewrite <- (Permutation_length Hp).
    destruct (0 <? length (rangeAppend keep order))%nat; [|reflexivity].
    f_equal.
    assert (∀ o, NoDup o.*1 → MethodOptions ∉ rangeAppend keep o) as Hno.
    { intros o _ Hin. apply rangeAppend_elem in Hin as (t & _ & Hk).
      exact (Hkeep _ _ Hk eq_refl). }
    destruct (tokens_of_collected (HandleOPTIONS r) (rangeAppend keep order))
      as [Ha Hm]; [apply rangeAppend_NoDup; exact Hnd|apply Hno; exact Hnd|].
    destruct (tokens_of_collected (HandleOPTIONS r) (rangeAppend keep order'))
      as [Ha' Hm']; [apply rangeAppend_NoDup; exact Hnd'|apply Hno; exact Hnd'|].
    apply ascending_unique; [exact Ha|exact Ha'|].
    rewrite (proj2 (sortMethods_sorted _)), (proj2 (sortMethods_sorted _)).
    destruct (HandleOPTIONS r); [rewrite Hp|]; auto. }
  unfold allowed_in.
  destruct (String.eqb path "*").
  - destruct (String.eqb reqMethod ""); [|reflexivity].
    apply Hsame. intros m t Hk ->. discriminate.
  - apply Hsame. intros m t Hk ->.
    rewrite String.eqb_refl, orb_true_r in Hk. discriminate.
Qed.

(** The Allow string of a path at which some method other than the
    requested one and other than OPTIONS has a route. *)
Lemma allowed_tokens (r : Router node) path reqMethod :
  path ≠ "*" →
  (∃ method root,
      method ≠ reqMethod ∧ method ≠ MethodOptions
      ∧ trees r !! method = Some root ∧ hasRoute root path = true) →
  ∃ tokens,
    allowed r path reqMethod = Join tokens ", "
    ∧ ascending tokens
    ∧ ∀ method,
        method ∈ tokens ↔
          (method = MethodOptions ∧ HandleOPTIONS r = true)
          ∨ (method ≠ reqMethod ∧ method ≠ MethodOptions
             ∧ ∃ root, trees r !! method = Some root ∧ hasRoute root path = true).
Proof.
  intros Hpath (m0 & root0 & Hreq0 & Hopt0 & Htree0 & Hroute0).
  rewrite (allowed_path r path reqMethod Hpath). cbv zeta.
  set (keep := fun method root =>
                 negb (String.eqb method reqMethod || String.eqb method MethodOptions)
                 && hasRoute root path).
  assert (∀ m t, keep m t = true ↔
                 m ≠ reqMethod ∧ m ≠ MethodOptions ∧ hasRoute t path = true)
    as Hkeep.
  { intros m t. unfold keep.
    rewrite andb_true_iff, negb_true_iff, orb_false_iff, !String.eqb_neq.
    tauto. }
  assert (∀ m, m ∈ rangeAppend keep (map_to_list (trees r)) ↔
               m ≠ reqMethod ∧ m ≠ MethodOptions
               ∧ ∃ root, trees r !! m = Some root ∧ hasRoute root path = true)
    as Helem.
  { intros m. rewrite rangeAppend_elem. split.
    - intros (t & Hin & Hk). apply elem_of_map_to_list in Hin.
      apply Hkeep in Hk as (? & ? & ?). eauto.
    - intros (? & ? & t & Hin & Hroute). exists t.
      split; [apply elem_of_map_to_list; exact Hin|apply Hkeep; auto]. }
  assert (rangeAppend keep (map_to_list (trees r)) ≠ []) as Hne.
  { intros Hnil. assert (m0 ∈ rangeAppend keep (map_to_list (trees r))) as Hin
      by (apply Helem; eauto).
    rewrite Hnil in Hin. inversion Hin. }
  rewrite (nonempty_length _ Hne).
  destruct (tokens_of_collected (HandleOPTIONS r)
              (rangeAppend keep (map_to_list (trees r)))) as [Ha Hm].
  { apply rangeAppend_NoDup, NoDup_fst_map_to_list. }
  { intros Hin. apply Helem in Hin as (_ & Hno & _). congruence. }
  eexists. split; [reflexivity|]. split; [exact Ha|].
  intros m. rewrite Hm, Helem. reflexivity.
Qed.

(** Without such a method the Allow string is empty. *)
Lemma allowed_none (r : Router node) path reqMethod :
  path ≠ "*" →
  (∀ method root,
      trees r !! method = Some root → hasRoute root path = true →
      method = reqMethod ∨ method = MethodOptions) →
  allowed r path reqMethod = "".
Proof.
  intros Hpath Hnone. rewrite (allowed_path r path reqMethod Hpath). cbv zeta.
  match goal with
  | |- context [rangeAppend ?k ?o] => destruct (rangeAppend k o) as [|m l] eqn:Hc
  end; [reflexivity|].
  exfalso. assert (m ∈ m :: l) as Hin by left. rewrite <- Hc in Hin.
  apply rangeAppend_elem in Hin as (t & Hin & Hk).
  apply elem_of_map_to_list in Hin.
  apply andb_true_iff in Hk as [Hk Hroute].
  apply negb_true_iff, orb_false_iff in Hk as [Hreq Hopt].
  apply String.eqb_neq in Hreq, Hopt.
  destruct (Hnone m t Hin Hroute); contradiction.
Qed.

(** With only GET registered, and a route for [/x] in its tree, a DELETE of
    [/x] is answered 405 with [Allow: GET, OPTIONS]. *)
Lemma only_get_delete (r : Router node) root request :
  trees r = {[MethodGet := root]} →
  hasRoute root "/x" = true →
  Method request = MethodDelete →
  Path (ReqURL request) = "/x" →
  HandleOPTIONS r = true →
  HandleMethodNotAllowed r = true →
  dispatch r request = ActNotAllowed "GET, OPTIONS".
Proof.
  intros Htrees Hroute Hm Hp Hopt Hmna.
  unfold dispatch, lookupStage, fallbackStage.
  rewrite Hm, Hp, Htrees.
  rewrite lookup_singleton_ne by discriminate.
  change (String.eqb MethodDelete MethodOptions) with false. simpl andb.
  cbv iota. rewrite Hmna.
  assert (allowed r "/x" MethodDelete = "GET, OPTIONS") as ->; [|reflexivity].
  unfold allowed. rewrite Htrees, map_to_list_singleton.
  unfold allowed_in, rangeAppend. simpl. rewrite Hroute, Hopt. reflexivity.
Qed.

(** C3, as the code has it. For every path other than the server-wide [*]
    at which at least one method other than the requested one and other than
    OPTIONS has a route, the Allow string is made of those methods (the
    requested method and OPTIONS are left out of the enumeration), with
    OPTIONS added whenever automatic OPTIONS handling is enabled, strictly
    ascending in lexicographic order and joined with a comma and a space;
    where no such method has a route the string is empty.
    With only [GET /x] registered, [DELETE /x] with automatic OPTIONS and
    method-not-allowed enabled is answered 405 with [Allow: GET, OPTIONS]. *)
Theorem allow_header (r : Router node) :
  (∀ path reqMethod,
      path ≠ "*" →
      (∃ method root,
          method ≠ reqMethod ∧ method ≠ MethodOptions
          ∧ trees r !! method = Some root ∧ hasRoute root path = true) →
      ∃ tokens,
        allowed r path reqMethod = Join tokens ", "
        ∧ ascending tokens
        ∧ ∀ method,
            method ∈ tokens ↔
              (method = MethodOptions ∧ HandleOPTIONS r = true)
              ∨ (method ≠ reqMethod ∧ method ≠ MethodOptions
                 ∧ ∃ root, trees r !! method = Some root
                           ∧ hasRoute root path = true))
  ∧ (∀ path reqMethod,
        path ≠ "*" →
        (∀ method root,
            trees r !! method = Some root → hasRoute root path = true →
            method = reqMethod ∨ method = MethodOptions) →
        allowed r path reqMethod = "")
  ∧ (∀ root request,
        trees r = {[MethodGet := root]} →
        hasRoute root "/x" = true →
        Method request = MethodDelete →
        Path (ReqURL request) = "/x" →
        HandleOPTIONS r = true →
        HandleMethodNotAllowed r = true →
        dispatch r request = ActNotAllowed "GET, OPTIONS"
        ∧ (MethodNotAllowed r = None →
           errorHandler r = Some defaultErrorHandler →
           ctxDone request = false →
           perform r request (dispatch r request)
           = ([EvHeaderSet "Allow" "GET, OPTIONS";
               EvError StatusMethodNotAllowed], Ret tt))).
Proof.
  split; [intros path reqMethod; apply allowed_tokens|].
  split; [intros path reqMethod; apply allowed_none|].
  intros root request Htrees Hroute Hm Hp Hopt Hmna.
  rewrite (only_get_delete r root request Htrees Hroute Hm Hp Hopt Hmna).
  split; [reflexivity|].
  intros Hnil Heh Hctx. simpl. rewrite Hnil, Heh.
  unfold defaultErrorHandler. rewrite Hctx. reflexivity.
Qed.

End Allow.

(** ** The Allow header on concrete routers *)

Section AllowScenarios.
Import Scenarios.

(** Only [GET /x] is registered; [DELETE /x] is answered 405 with
    [Allow: GET, OPTIONS]. *)
Lemma allow_header_witness :
  (dispatch onlyGetX (request "DELETE" "/x") = ActNotAllowed "GET, OPTIONS"
   ∧ perform onlyGetX (request "DELETE" "/x")
       (dispatch onlyGetX (request "DELETE" "/x"))
     = ([EvHeaderSet "Allow" "GET, OPTIONS"; EvError 405], Ret tt))
  ∧ ∃ tokens,
      allowed onlyGetX "/x" "DELETE" = Join tokens ", "
      ∧ ascending tokens
      ∧ ∀ method,
          method ∈ tokens ↔
            (method = MethodOptions ∧ HandleOPTIONS onlyGetX = true)
            ∨ (method ≠ "DELETE" ∧ method ≠ MethodOptions
               ∧ ∃ root, trees onlyGetX !! method = Some root
                         ∧ hasRoute root "/x" = true).
Proof.
  destruct (allow_header onlyGetX) as (Hgeneral & _ & Hexample).
  split.
  - destruct (Hexample
                [RouteTable.mkRoute [RouteTable.Static "x"] (say "x")]
                (request "DELETE" "/x")) as [Hd Hp];
      try (vm_compute; reflexivity).
    split; [exact Hd|]. apply Hp; reflexivity.
  - apply Hgeneral; [discriminate|].
    exists "GET". eexists.
    split; [discriminate|]. split; [discriminate|].
    split; vm_compute; reflexivity.
Defined.
End AllowScenarios.

(** ** The cache of the server-wide Allow string *)

Section Cache.
Context {node : Type} `{TreeOps node}.

(** The refreshed value, by the methods that have a tree. *)
Lemma refresh_tokens (r : Router node) :
  ((∀ m, is_Some (trees r !! m) → m = MethodOptions) → allowed r "*" "" = "")
  ∧ ((∃ m, is_Some (trees r !! m) ∧ m ≠ MethodOptions) →
     ∃ tokens,
       allowed r "*" "" = Join tokens ", "
       ∧ ascending tokens
       ∧ ∀ m,
           m ∈ tokens ↔
             (m ≠ MethodOptions ∧ is_Some (trees r !! m))
             ∨ (m = MethodOptions ∧ HandleOPTIONS r = true)).
Proof.
  rewrite allowed_refresh. cbv zeta.
  set (keep := fun (method : string) (_ : node) =>
                 negb (String.eqb method MethodOptions)).
  assert (∀ m, m ∈ rangeAppend keep (map_to_list (trees r)) ↔
               m ≠ MethodOptions ∧ is_Some (trees r !! m)) as Helem.
  { intros m. rewrite rangeAppend_elem. unfold keep. split.
    - intros (t & Hin & Hk). apply elem_of_map_to_list in Hin.
      apply negb_true_iff, String.eqb_neq in Hk. eauto.
    - intros (Hne & t & Hin). exists t.
      split; [apply elem_of_map_to_list; exact Hin|].
      apply negb_true_iff, String.eqb_neq. exact Hne. }
  split.
  - intros Honly.
    destruct (rangeAppend keep (map_to_list (trees r))) as [|m l] eqn:Hc;
      [reflexivity|].
    exfalso. assert (m ∈ m :: l) as Hin by (left).
    apply Helem in Hin as [Hne Hsome]. exact (Hne (Honly m Hsome)).
  - intros (m0 & Hsome0 & Hne0).
    assert (rangeAppend keep (map_to_list (trees r)) ≠ []) as Hne.
    { intros Hnil.
      assert (m0 ∈ rangeAppend keep (map_to_list (trees r))) as Hin
        by (apply Helem; auto).
      rewrite Hnil in Hin. inversion Hin. }
    rewrite (nonempty_length _ Hne).
    destruct (tokens_of_collected (HandleOPTIONS r)
                (rangeAppend keep (map_to_list (trees r)))) as [Ha Hm].
    { apply rangeAppend_NoDup, NoDup_fst_map_to_list. }
    { intros Hin. apply Helem in Hin as [Hno _]. congruence. }
    eexists. split; [reflexivity|]. split; [exact Ha|].
    intros m. rewrite Hm, Helem. tauto.
Qed.

(** What a registration does to the trees and to the cache. *)
Lemma Router_Handle_cache (r : Router node) method path handle :
  HandleOPTIONS (Router_Handle r method path handle).1 = HandleOPTIONS r
  ∧ (is_Some (trees r !! method) →
     globalAllowed (Router_Handle r method path handle).1 = globalAllowed r)
  ∧ (globalAllowed (Router_Handle r method path handle).1 ≠ globalAllowed r →
     trees r !! method = None
     ∧ is_Some (trees (Router_Handle r method path handle).1 !! method))
  ∧ (trees r !! method = None → method ≠ "" → lacksLeadingSlash path = false →
     is_Some handle →
     globalAllowed (Router_Handle r method path handle).1
     = allowed (set_trees r (<[method := newNode]> (trees r))) "*" ""
     ∧ ∀ m, is_Some (trees (Router_Handle r method path handle).1 !! m)
            ↔ is_Some (<[method := newNode]> (trees r) !! m)).
Proof.
  unfold Router_Handle.
  destruct (String.eqb_spec method "") as [->|Hm].
  { simpl. split; [reflexivity|]. split; [reflexivity|].
    split; [congruence|]. intros _ Hm. congruence. }
  destruct (lacksLeadingSlash path) eqn:Hp.
  { simpl. split; [reflexivity|]. split; [reflexivity|].
    split; [congruence|]. intros _ _ Hp'. congruence. }
  destruct handle as [h|].
  2:{ simpl. split; [reflexivity|]. split; [reflexivity|].
      split; [congruence|]. intros _ _ _ [? ?]. discriminate. }
  assert (∀ (t : gmap string node) root m,
             is_Some (<[method := root]> (<[method := newNode]> t) !! m)
             ↔ is_Some (<[method := newNode]> t !! m)) as Hdom.
  { intros t root m. destruct (decide (method = m)) as [->|Hne].
    - rewrite !lookup_insert_eq. split; eauto.
    - rewrite !lookup_insert_ne by exact Hne. reflexivity. }
  destruct (SaveMatchedRoutePath r);
    destruct (trees r !! method) as [root|] eqn:Htree;
    destruct (addRoute _ _ _) as [root' [v|]];
    repeat match goal with
           | |- context [if ?b then _ else _] => destruct b
           end;
    simpl;
    (split; [reflexivity|]);
    (split; [first [intros _; reflexivity | intros [? ?]; discriminate]|]);
    (split;
     [first [ intros Hne; exfalso; apply Hne; reflexivity
            | intros _; split; [reflexivity|rewrite lookup_insert_eq; eauto] ]
     |]);
    first [ intros; discriminate
          | intros _ _ _ _; split; [reflexivity|apply Hdom] ].
Qed.

Lemma getParams_keeps (r : Router node) choice :
  trees (getParams r choice).2 = trees r
  ∧ globalAllowed (getParams r choice).2 = globalAllowed r
  ∧ maxParams (getParams r choice).2 = maxParams r.
Proof.
  unfold getParams, poolGet.
  destruct choice as [i|];
    [destruct (poolItems (paramsPool r) !! i)|];
    destruct (poolNewSet (paramsPool r)); auto.
Qed.

(** C7, as the code has it. The cached server-wide Allow string changes
    only in a registration that creates the tree of a method that had none.
    At that moment it is computed over the methods that then have a tree: it
    is empty when no method other than OPTIONS has one, and otherwise it is
    made of the methods other than OPTIONS, with OPTIONS added when automatic
    OPTIONS handling is enabled, strictly ascending and joined with a comma
    and a space. Every query for the path [*] with a method that is not empty
    returns the cached value. *)
Theorem globalAllowed_cache (s : Sys) (op : Op) :
  (globalAllowed (router (step s op)) ≠ globalAllowed (router s) →
   ∃ method path handle,
     op = OpHandle method path handle
     ∧ trees (router s) !! method = None
     ∧ is_Some (trees (router (step s op)) !! method))
  ∧ (∀ method path handle,
        op = OpHandle method path (Some handle) →
        method ≠ "" → lacksLeadingSlash path = false →
        trees (router s) !! method = None →
        ((∀ m, is_Some (trees (router (step s op)) !! m) → m = MethodOptions) →
         globalAllowed (router (step s op)) = "")
        ∧ ((∃ m, is_Some (trees (router (step s op)) !! m) ∧ m ≠ MethodOptions) →
           ∃ tokens,
             globalAllowed (router (step s op)) = Join tokens ", "
             ∧ ascending tokens
             ∧ ∀ m,
                 m ∈ tokens ↔
                   (m ≠ MethodOptions
                    ∧ is_Some (trees (router (step s op)) !! m))
                   ∨ (m = MethodOptions ∧ HandleOPTIONS (router s) = true)))
  ∧ (∀ reqMethod,
        reqMethod ≠ "" →
        allowed (router (step s op)) "*" reqMethod
        = globalAllowed (router (step s op))).
Proof.
  split; [|split].
  - destruct op as [method path handle|choice|i contents]; simpl.
    + pose proof (Router_Handle_cache (router s) method path handle)
        as (_ & _ & Hchange & _).
      destruct (Router_Handle (router s) method path handle) as [r' failure].
      simpl in *. intros Hne. destruct (Hchange Hne) as [Hnone Hsome].
      exists method, path, handle. auto.
    + pose proof (getParams_keeps (router s) choice) as (_ & Hg & _).
      destruct (getParams (router s) choice) as [[b|v] r']; simpl in *;
        congruence.
    + destruct (issued s !! i) as [b|]; [|congruence].
      destruct (length contents <=? bufCap b)%nat; simpl; congruence.
  - intros method path handle -> Hm Hp Hnone. simpl.
    pose proof (Router_Handle_cache (router s) method path (Some handle))
      as (_ & _ & _ & Hnew).
    destruct (Hnew Hnone Hm Hp (ltac:(eauto))) as [Hvalue Hdom].
    destruct (Router_Handle (router s) method path (Some handle))
      as [r' failure]. simpl in *.
    pose proof (refresh_tokens
                  (set_trees (router s) (<[method := newNode]> (trees (router s)))))
      as [Hempty Htokens].
    simpl in Hempty, Htokens. rewrite Hvalue. split.
    + intros Honly. apply Hempty. intros m Hsome. apply Honly, Hdom, Hsome.
    + intros (m0 & Hsome0 & Hne0).
      destruct Htokens as (tokens & Heq & Ha & Hmem).
      { exists m0. split; [apply Hdom; exact Hsome0|exact Hne0]. }
      exists tokens. split; [exact Heq|]. split; [exact Ha|].
      intros m. rewrite Hmem, Hdom. reflexivity.
  - intros reqMethod. apply allowed_cached.
Qed.

End Cache.

(** ** The Allow string where only OPTIONS is registered *)

Section OptionsOnlyScenarios.
Import Scenarios.

(** Only [OPTIONS /x] is registered and automatic OPTIONS handling is on.
    For [GET /x] another method is registered at the path, yet the Allow
    string is empty: it does not include OPTIONS. *)
Lemma allow_header_options_only_counterexample :
  ¬ allowHeaderAsStated onlyOptionsX "/x" "GET".
Proof.
  intros Hclaim.
  destruct Hclaim as (tokens & Heq & _ & Hmem).
  { exists "OPTIONS". eexists. split; [discriminate|].
    split; vm_compute; reflexivity. }
  assert (allowed onlyOptionsX "/x" "GET" = "") as Hallow
    by (vm_compute; reflexivity).
  rewrite Hallow in Heq. symmetry in Heq.
  assert (MethodOptions ∈ tokens) as Hin
    by (apply Hmem; left; split; reflexivity).
  pose proof (Join_empty _ _ Heq _ Hin). discriminate.
Qed.

(** What that request is answered with: the not-found responder. *)
Example options_only_get_is_not_found :
  dispatch onlyOptionsX (request "GET" "/x") = ActNotFound.
Proof. vm_compute. reflexivity. Qed.

(** The first registration is [GET /x]: the tree of GET is created and the
    cache becomes [GET, OPTIONS]; a later query for [*] returns it. *)
Lemma globalAllowed_cache_witness :
  (∃ tokens,
      globalAllowed
        (router (step (start New) (OpHandle "GET" "/x" (Some (say "x")))))
      = Join tokens ", "
      ∧ ascending tokens
      ∧ ∀ m,
          m ∈ tokens ↔
            (m ≠ MethodOptions
             ∧ is_Some
                 (trees
                    (router (step (start New)
                               (OpHandle "GET" "/x" (Some (say "x"))))) !! m))
            ∨ (m = MethodOptions ∧ HandleOPTIONS (router (start New)) = true))
  ∧ allowed
      (router (step (start New) (OpHandle "GET" "/x" (Some (say "x")))))
      "*" "DELETE"
    = globalAllowed
        (router (step (start New) (OpHandle "GET" "/x" (Some (say "x"))))).
Proof.
  destruct (globalAllowed_cache (start New)
              (OpHandle "GET" "/x" (Some (say "x"))))
    as (_ & Hvalue & Hquery).
  split; [|apply Hquery; discriminate].
  destruct (Hvalue "GET" "/x" (say "x") eq_refl) as [_ Htokens];
    [discriminate|reflexivity|vm_compute; reflexivity|].
  apply Htokens. exists "GET".
  split; [eexists; vm_compute; reflexivity|discriminate].
Defined.

Example globalAllowed_after_get :
  globalAllowed onlyGetX = "GET, OPTIONS".
Proof. vm_compute. reflexivity. Qed.

(** The first registration is [OPTIONS /x], with automatic OPTIONS handling
    on: the tree of OPTIONS is created, and the cache is the empty string,
    not [OPTIONS]. *)
Lemma globalAllowed_options_only_counterexample :
  ¬ cacheValueAsStated New "OPTIONS" "/x" (say "x").
Proof.
  intros Hclaim.
  assert (trees (New (node := RouteTable.Table)) !! "OPTIONS" = None) as Hnone
    by (vm_compute; reflexivity).
  specialize (Hclaim Hnone). cbv zeta in Hclaim.
  destruct Hclaim as (tokens & Heq & _ & Hmem).
  assert (globalAllowed (Router_Handle New "OPTIONS" "/x" (Some (say "x"))).1 = "")
    as Hcache by (vm_compute; reflexivity).
  rewrite Hcache in Heq. symmetry in Heq.
  assert (MethodOptions ∈ tokens) as Hin
    by (apply Hmem; right; split; reflexivity).
  pose proof (Join_empty _ _ Heq _ Hin). discriminate.
Qed.

End OptionsOnlyScenarios.

(** ** The parameter pool *)

Section PoolFacts.
Context {node : Type} `{TreeOps node}.

Lemma wrap16_range z : 0 ≤ wrap16 z < 65536.
Proof. unfold wrap16. apply Z.mod_pos_bound. lia. Qed.

Lemma routeParams_range (r : Router node) path : 0 ≤ routeParams r path < 65536.
Proof. apply wrap16_range. Qed.

(** What a registration does to the maximum and to the pool. *)
Lemma Router_Handle_pool (r : Router node) method path handle :
  poolItems (paramsPool (Router_Handle r method path handle).1)
  = poolItems (paramsPool r)
  ∧ match (Router_Handle r method path handle).2 with
    | Some _ =>
        maxParams (Router_Handle r method path handle).1 = maxParams r
        ∧ poolNewSet (paramsPool (Router_Handle r method path handle).1)
          = poolNewSet (paramsPool r)
    | None =>
        maxParams (Router_Handle r method path handle).1
        = Z.max (maxParams r) (routeParams r path)
        ∧ poolNewSet (paramsPool (Router_Handle r method path handle).1)
          = poolNewSet (paramsPool r)
            || (Z.max (maxParams r) (routeParams r path) >? 0)
    end.
Proof.
  unfold Router_Handle, routeParams.
  destruct (String.eqb method ""); [simpl; auto|].
  destruct (lacksLeadingSlash path); [simpl; auto|].
  destruct handle as [h|]; [|simpl; auto].
  destruct (SaveMatchedRoutePath r);
    destruct (trees r !! method) as [root|];
    destruct (addRoute _ _ _) as [root' [v|]];
    try solve [simpl; auto].
  all: match goal with
       | |- context [?a >? maxParams ?r0] =>
           destruct (Z.gtb_spec a (maxParams r0)) as [Hgt|Hle];
           simpl in Hgt || simpl in Hle
       end; simpl.
  all: destruct (poolNewSet (paramsPool r)) eqn:Hnew; simpl.
  all: repeat match goal with
              | |- context [?a >? 0] => destruct (Z.gtb_spec a 0); simpl
              end.
  all: rewrite ?Hnew; split; [reflexivity|split; [lia|try reflexivity]].
  all: try lia.
Qed.

Lemma step_maxInv (s : Sys) op : maxInv s → maxInv (step s op).
Proof.
  intros (Hpos & Hnew & Hreg).
  destruct op as [method path handle|choice|i contents]; simpl.
  - pose proof (Router_Handle_pool (router s) method path handle) as [_ Hh].
    pose proof (routeParams_range (router s) path) as Hrange.
    destruct (Router_Handle (router s) method path handle) as [r' [e|]];
      simpl in *; destruct Hh as [Hmax Hnew'].
    + unfold maxInv. simpl. rewrite Hmax, Hnew'. auto.
    + unfold maxInv. simpl. rewrite Hmax, Hnew', Hnew. split; [lia|].
      split.
      * destruct (Z.gtb_spec (maxParams (router s)) 0);
          destruct (Z.gtb_spec (Z.max (maxParams (router s))
                                  (routeParams (router s) path)) 0);
          simpl; try reflexivity; lia.
      * constructor; [lia|].
        eapply Forall_impl; [exact Hreg|]. simpl. intros n Hn. lia.
  - pose proof (getParams_keeps (router s) choice) as (_ & _ & Hmax).
    assert (poolNewSet (paramsPool (getParams (router s) choice).2)
            = poolNewSet (paramsPool (router s))) as Hnew'.
    { unfold getParams, poolGet.
      destruct choice as [i|];
        [destruct (poolItems (paramsPool (router s)) !! i)|];
        destruct (poolNewSet (paramsPool (router s))) eqn:Hset; simpl;
        rewrite ?Hset; reflexivity. }
    destruct (getParams (router s) choice) as [[b|v] r']; simpl in *;
      unfold maxInv; simpl; rewrite Hmax, Hnew'; auto.
  - destruct (issued s !! i) as [b|]; [|unfold maxInv; auto].
    destruct (length contents <=? bufCap b)%nat; unfold maxInv; simpl; auto.
Qed.

(** Taking a buffer under the invariant. *)
Lemma getParams_poolInv (k : Z) (s : Sys) choice :
  poolInv k s →
  0 < maxParams (router s) →
  ∃ b (r' : Router node),
    getParams (router s) choice = (Ret b, r')
    ∧ length (bufItems b) = 0%nat
    ∧ k ≤ Z.of_nat (bufCap b)
    ∧ (choice = None → Z.of_nat (bufCap b) = maxParams (router s))
    ∧ Forall (fun b => k ≤ Z.of_nat (bufCap b)) (poolItems (paramsPool r')).
Proof.
  intros ((Hpos & Hnew & Hreg) & Hk & Hpool & Hout) Hmax.
  assert (poolNewSet (paramsPool (router s)) = true) as Hset.
  { rewrite Hnew. apply Z.gtb_lt. lia. }
  unfold getParams, poolGet. rewrite Hset.
  assert (Z.of_nat (Z.to_nat (maxParams (router s))) = maxParams (router s))
    as Hcap by lia.
  destruct choice as [i|].
  - destruct (poolItems (paramsPool (router s)) !! i) as [b|] eqn:Hi.
    + eexists _, _. split; [reflexivity|]. simpl.
      split; [reflexivity|]. split.
      * rewrite Forall_forall in Hpool. apply Hpool.
        apply list_elem_of_lookup. eauto.
      * split; [discriminate|].
        apply Forall_delete. exact Hpool.
    + eexists _, _. split; [reflexivity|]. simpl.
      split; [reflexivity|]. split; [lia|]. split; [intros _; exact Hcap|].
      exact Hpool.
  - eexists _, _. split; [reflexivity|]. simpl.
    split; [reflexivity|]. split; [lia|]. split; [intros _; exact Hcap|].
    exact Hpool.
Qed.

End PoolFacts.

Section PoolRuns.
Context {node : Type} `{TreeOps node}.

Lemma step_poolInv (k : Z) (s : Sys) op : poolInv k s → poolInv k (step s op).
Proof.
  intros (Hmax & Hk & Hpool & Hout).
  pose proof (step_maxInv s op Hmax) as Hmax'.
  split; [exact Hmax'|]. clear Hmax'.
  destruct Hmax as (Hpos & Hnew & _).
  destruct op as [method path handle|choice|i contents]; simpl.
  - pose proof (Router_Handle_pool (router s) method path handle) as [Hitems Hh].
    destruct (Router_Handle (router s) method path handle) as [r' [e|]];
      simpl in *; destruct Hh as [Hm _]; rewrite Hm, Hitems;
      (split; [lia|]); auto.
  - assert (k ≤ Z.of_nat (Z.to_nat (maxParams (router s)))) as Hfresh by lia.
    assert (match (if poolNewSet (paramsPool (router s))
                   then (Some (mkBuf [] (Z.to_nat (maxParams (router s)))), router s)
                   else (None, router s)) with
            | (Some ps, r') =>
                k ≤ maxParams r'
                ∧ Forall (fun b => k ≤ Z.of_nat (bufCap b)) (poolItems (paramsPool r'))
                ∧ Forall (fun b => k ≤ Z.of_nat (bufCap b))
                    (issued s ++ [mkBuf [] (bufCap ps)])
            | (None, r') =>
                k ≤ maxParams r'
                ∧ Forall (fun b => k ≤ Z.of_nat (bufCap b)) (poolItems (paramsPool r'))
                ∧ Forall (fun b => k ≤ Z.of_nat (bufCap b)) (issued s)
            end) as Hfreshcase.
    { destruct (poolNewSet (paramsPool (router s))); [|auto].
      split; [exact Hk|]. split; [exact Hpool|].
      apply Forall_app. split; [exact Hout|]. repeat constructor. exact Hfresh. }
    unfold getParams, poolGet.
    destruct choice as [i|];
      [destruct (poolItems (paramsPool (router s)) !! i) as [b|] eqn:Hi|].
    + simpl. split; [exact Hk|]. split; [apply Forall_delete; exact Hpool|].
      apply Forall_app. split; [exact Hout|]. repeat constructor. simpl.
      rewrite Forall_forall in Hpool. apply Hpool.
      apply list_elem_of_lookup. eauto.
    + destruct (if poolNewSet (paramsPool (router s)) then _ else _)
        as [[ps|] r']; exact Hfreshcase.
    + destruct (if poolNewSet (paramsPool (router s)) then _ else _)
        as [[ps|] r']; exact Hfreshcase.
  - destruct (issued s !! i) as [b|] eqn:Hi; [|auto].
    destruct (length contents <=? bufCap b)%nat; simpl; [|auto].
    split; [exact Hk|]. split; [|apply Forall_delete; exact Hout].
    constructor; [|exact Hpool]. simpl.
    rewrite Forall_forall in Hout. apply Hout.
    apply list_elem_of_lookup. eauto.
Qed.

Lemma run_poolInv (k : Z) ops (s : Sys) : poolInv k s → poolInv k (run ops s).
Proof.
  revert s. induction ops as [|op ops IH]; intros s Hinv; [exact Hinv|].
  simpl. apply IH, step_poolInv, Hinv.
Qed.

(** Registrations leave the pool and the buffers that are out alone. *)
Lemma registrations_keep_pool regs (s : Sys) :
  forallb isRegistration regs = true →
  poolItems (paramsPool (router (run regs s))) = poolItems (paramsPool (router s))
  ∧ issued (run regs s) = issued s.
Proof.
  revert s. induction regs as [|op regs IH]; intros s Hregs; [auto|].
  simpl in Hregs. apply andb_true_iff in Hregs as [Hop Hregs].
  destruct op as [method path handle| |]; try discriminate.
  change (run (OpHandle method path handle :: regs) s)
    with (run regs (step s (OpHandle method path handle))).
  destruct (IH (step s (OpHandle method path handle)) Hregs) as [-> ->].
  simpl.
  pose proof (Router_Handle_pool (router s) method path handle) as [Hitems _].
  destruct (Router_Handle (router s) method path handle) as [r' e]. auto.
Qed.

Lemma pristine_poolInv (r0 : Router node) :
  pristine r0 → poolInv 0 (mkSys r0 [] []).
Proof.
  intros (_ & Hpool & Hmax). unfold poolInv, maxInv. simpl.
  rewrite Hpool, Hmax. simpl. repeat split; auto; lia.
Qed.

(** The pool in terms of the counts that [Handle] computes in uint16.
    Routes are registered on a fresh router, and then routes are registered
    and buffers are taken and put back in any order. Once a route with
    parameters is registered, [getParams] returns a buffer; its length is zero; its capacity is at least the parameter count
    of every route registered before the pool issued its first buffer; and
    it is at least the parameter count of every route registered so far when
    the pool allocates the buffer afresh, or when no registration has raised
    the maximum since the pool began to issue buffers. *)
Theorem getParams_buffer (r0 : Router node) (regs ops : list Op)
    (choice : option nat) :
  pristine r0 →
  forallb isRegistration regs = true →
  (∃ n, n ∈ registered (run ops (run regs (mkSys r0 [] []))) ∧ 0 < n) →
  ∃ b (r' : Router node),
    getParams (router (run ops (run regs (mkSys r0 [] [])))) choice = (Ret b, r')
    ∧ length (bufItems b) = 0%nat
    ∧ Forall (fun n => n ≤ Z.of_nat (bufCap b))
        (registered (run regs (mkSys r0 [] [])))
    ∧ (choice = None
       ∨ maxParams (router (run ops (run regs (mkSys r0 [] []))))
         = maxParams (router (run regs (mkSys r0 [] []))) →
       Forall (fun n => n ≤ Z.of_nat (bufCap b))
         (registered (run ops (run regs (mkSys r0 [] []))))).
Proof.
  intros Hfresh Hregs (n & Hn & Hpos).
  set (s1 := run regs (mkSys r0 [] [])).
  assert (poolInv (maxParams (router s1)) s1) as Hinv1.
  { pose proof (run_poolInv 0 regs _ (pristine_poolInv r0 Hfresh))
      as (Hmax & _ & _ & _).
    destruct (registrations_keep_pool regs (mkSys r0 [] []) Hregs)
      as [Hitems Hissued].
    destruct Hfresh as (_ & Hpool & _).
    cbn [router issued] in Hitems, Hissued. rewrite Hpool in Hitems.
    cbn [poolItems] in Hitems. fold s1 in Hitems, Hissued, Hmax.
    unfold poolInv. rewrite Hitems, Hissued.
    split; [exact Hmax|]. split; [lia|]. split; constructor. }
  pose proof (run_poolInv _ ops _ Hinv1) as Hinv.
  pose proof Hinv as ((_ & _ & Hreg) & _).
  pose proof Hinv1 as ((_ & _ & Hreg1) & _).
  assert (0 < maxParams (router (run ops s1))) as Hmax.
  { rewrite Forall_forall in Hreg. specialize (Hreg n Hn). lia. }
  destruct (getParams_poolInv _ _ choice Hinv Hmax)
    as (b & r' & Hget & Hlen & Hcap & Hnew & _).
  exists b, r'. split; [exact Hget|]. split; [exact Hlen|]. split.
  - eapply Forall_impl; [exact Hreg1|]. simpl. intros m Hm. lia.
  - intros Hcase. eapply Forall_impl; [exact Hreg|]. simpl. intros m Hm.
    destruct Hcase as [->|Heq]; [rewrite (Hnew eq_refl)|]; lia.
Qed.

End PoolRuns.

(** ** The pool on a concrete run *)

Section PoolScenarios.
Import Scenarios.

(** Two routes are registered, [/a/:x] and [/b/:x/:y]; a buffer taken
    afterwards has length zero and room for two parameters. *)
Lemma getParams_buffer_witness :
  ∃ b (r' : Router RouteTable.Table),
    getParams
      (router
         (run [OpGet None; OpPut 0 []]
            (run [OpHandle "GET" "/a/:x" (Some (say "a"));
                  OpHandle "GET" "/b/:x/:y" (Some (say "b"))]
               (mkSys New [] []))))
      (Some 0%nat)
    = (Ret b, r')
    ∧ length (bufItems b) = 0%nat
    ∧ Forall (fun n => n ≤ Z.of_nat (bufCap b)) [2; 1].
Proof.
  destruct (getParams_buffer New
              [OpHandle "GET" "/a/:x" (Some (say "a"));
               OpHandle "GET" "/b/:x/:y" (Some (say "b"))]
              [OpGet None; OpPut 0 []] (Some 0%nat))
    as (b & r' & Hget & Hlen & Hcap & _).
  - repeat split.
  - reflexivity.
  - exists 2. split; [|lia]. vm_compute. left.
  - exists b, r'. split; [exact Hget|]. split; [exact Hlen|].
    exact Hcap.
Defined.

(** A buffer is taken and put back while the maximum is one; a route with
    two parameters is registered; the pool then hands the old buffer out
    again, with capacity one. *)
Lemma getParams_recycled_counterexample :
  ¬ poolCapacityAsStated (run growth (start New)).
Proof.
  intros Hclaim.
  assert (∃ r', getParams (router (run growth (start New))) (Some 0%nat)
                = (Ret (mkBuf [] 1), r')) as [r' Hget]
    by (eexists; vm_compute; reflexivity).
  assert (∃ n, n ∈ registered (run growth (start New)) ∧ 0 < n) as Hsome.
  { exists 2. split; [vm_compute; left|lia]. }
  destruct (Hclaim Hsome _ _ _ Hget) as [_ Hcap].
  vm_compute in Hcap. inversion Hcap as [|? ? Hle _]. apply Hle. reflexivity.
Qed.

Example growth_state :
  maxParams (router (run growth (start New))) = 2
  ∧ registered (run growth (start New)) = [2; 1]
  ∧ map bufCap (poolItems (paramsPool (router (run growth (start New))))) = [1%nat].
Proof. vm_compute. auto. Qed.

End PoolScenarios.

(** ** The same behaviours over any tree *)

(** The concrete routers above use the route table; the behaviours they
    show depend on the router alone. *)
Section AnyTree.
Context {node : Type} `{TreeOps node}.

(** A redirect of a HEAD request carries 308. *)
Lemma head_redirect_is_308 (r : Router node) request url code :
  Method request = MethodHead →
  dispatch r request = ActRedirect url code →
  code = StatusPermanentRedirect ∧ isReadMethod (Method request) = true.
Proof.
  intros Hm Hd. unfold dispatch in Hd.
  destruct (lookupStage r request) as [a|] eqn:Hstage.
  - subst a. apply lookupStage_redirect in Hstage as [-> _].
    unfold redirectCode, isReadMethod. rewrite Hm. auto.
  - exfalso. exact (fallbackStage_not_redirect _ _ _ _ Hd).
Qed.

(** Where OPTIONS is the only method with a tree, every Allow string of a
    path is empty. *)
Lemma options_only_allow_empty (r : Router node) root path reqMethod :
  trees r = {[MethodOptions := root]} →
  path ≠ "*" →
  allowed r path reqMethod = "".
Proof.
  intros Htrees Hpath. rewrite (allowed_path r path reqMethod Hpath).
  rewrite Htrees, map_to_list_singleton. unfold rangeAppend. simpl.
  rewrite orb_true_r. reflexivity.
Qed.

(** A first registration under OPTIONS leaves the cache empty. *)
Lemma first_registration_options (r : Router node) path h :
  trees r = ∅ →
  lacksLeadingSlash path = false →
  globalAllowed (Router_Handle r MethodOptions path (Some h)).1 = "".
Proof.
  intros Htrees Hpath.
  pose proof (Router_Handle_cache r MethodOptions path (Some h))
    as (_ & _ & _ & Hnew).
  destruct Hnew as [-> _]; [rewrite Htrees; apply lookup_empty|discriminate
                           |exact Hpath|eauto|].
  apply (proj1 (refresh_tokens _)). simpl. intros m [t Hm].
  rewrite Htrees in Hm.
  destruct (decide (MethodOptions = m)) as [<-|Hne]; [reflexivity|].
  rewrite lookup_insert_ne, lookup_empty in Hm by exact Hne. discriminate.
Qed.

(** A buffer in the pool with room for fewer parameters than a route being
    registered can be handed out after that registration. *)
Lemma pooled_buffer_outgrown (s : Sys) b method path handle :
  b ∈ poolItems (paramsPool (router s)) →
  (Router_Handle (router s) method path handle).2 = None →
  Z.of_nat (bufCap b) < routeParams (router s) path →
  ∃ i (r' : Router node),
    getParams (router (step s (OpHandle method path handle))) (Some i)
    = (Ret (mkBuf [] (bufCap b)), r')
    ∧ Z.of_nat (bufCap b)
      < maxParams (router (step s (OpHandle method path handle))).
Proof.
  intros Hin Hok Hsmall. apply list_elem_of_lookup in Hin as [i Hi].
  pose proof (Router_Handle_pool (router s) method path handle) as [Hitems Hh].
  rewrite Hok in Hh. destruct Hh as [Hmax _]. simpl.
  destruct (Router_Handle (router s) method path handle) as [r1 e].
  simpl in *. subst e.
  exists i. unfold getParams, poolGet. rewrite Hitems, Hi.
  eexists. split; [reflexivity|]. lia.
Qed.

End AnyTree.

(** ** The route table against the testable properties *)

Section TableChecks.
Import Scenarios.

Example static_exact_match :
  (Lookup (register New "GET" "/a/b" (say "ab")) "GET" "/a/b").1.2 = []
  ∧ is_Some (Lookup (register New "GET" "/a/b" (say "ab")) "GET" "/a/b").1.1.
Proof. split; [reflexivity|eexists; vm_compute; reflexivity]. Qed.

Example parameter_capture_order :
  (Lookup (register New "GET" "/blog/:category/:post" (say "post"))
     "GET" "/blog/go/router-design").1.2
  = [mkParam "category" "go"; mkParam "post" "router-design"].
Proof. vm_compute. reflexivity. Qed.

Example catch_all_root :
  (Lookup (register New "GET" "/files/*filepath" (say "files"))
     "GET" "/files/").1.2 = [mkParam "filepath" "/"]
  ∧ (Lookup (register New "GET" "/files/*filepath" (say "files"))
       "GET" "/files/LICENSE").1.2 = [mkParam "filepath" "/LICENSE"].
Proof. split; vm_compute; reflexivity. Qed.

Example trailing_slash_recommended :
  (Lookup onlyGetX "GET" "/x/").2 = true
  ∧ (Lookup onlyGetX "GET" "/x/").1.1 = None.
Proof. split; vm_compute; reflexivity. Qed.

Example case_and_clean_recovery :
  RouteTable.findCaseInsensitivePath
    (default [] (trees (register New "GET" "/Foo" (say "foo")) !! "GET"))
    (RouteTable.CleanPath "/foo") true = ("/Foo", true)
  ∧ RouteTable.findCaseInsensitivePath
      (default [] (trees (register New "GET" "/Foo" (say "foo")) !! "GET"))
      (RouteTable.CleanPath "/..//Foo") true = ("/Foo", true).
Proof. split; vm_compute; reflexivity. Qed.

Example conflicting_wildcard_names :
  (Router_Handle (register New "GET" "/user/:id" (say "id"))
     "GET" "/user/:name" (Some (say "name"))).2
  = Some (FromAddRoute
            (PanicString "path '/user/:name' conflicts with an existing route")).
Proof. vm_compute. reflexivity. Qed.

End TableChecks.

(* ===================================================================== *)
(** * Part III: further properties of the router *)
(* ===================================================================== *)

(** ** Strings *)

Section StringFacts.

Lemma append_cons (c : ascii) (a b : string) :
  String c a +:+ b = String c (a +:+ b).
Proof. reflexivity. Qed.

Lemma append_nil_l (b : string) : "" +:+ b = b.
Proof. reflexivity. Qed.

Lemma length_append (a b : string) :
  String.length (a +:+ b) = (String.length a + String.length b)%nat.
Proof.
  induction a as [|c a IH]; [reflexivity|].
  rewrite append_cons. simpl. f_equal. exact IH.
Qed.

Lemma append_empty_r (a : string) : a +:+ "" = a.
Proof.
  induction a as [|c a IH]; [reflexivity|].
  rewrite append_cons. f_equal. exact IH.
Qed.

Lemma append_assoc (a b c : string) : (a +:+ b) +:+ c = a +:+ (b +:+ c).
Proof.
  induction a as [|x a IH]; [reflexivity|].
  rewrite !append_cons. f_equal. exact IH.
Qed.

Lemma firstByteIs_append (c : ascii) (a b : string) :
  firstByteIs c a = true → firstByteIs c (a +:+ b) = true.
Proof. destruct a; [discriminate|]. rewrite append_cons. auto. Qed.

Lemma firstByteIs_has_slash (s : string) :
  firstByteIs "/" s = true → lacksLeadingSlash s = false.
Proof.
  unfold firstByteIs, lacksLeadingSlash. destruct s as [|c s]; [discriminate|].
  simpl. intros ->. reflexivity.
Qed.

Lemma lacksLeadingSlash_firstByteIs (s : string) :
  lacksLeadingSlash s = negb (firstByteIs "/" s).
Proof.
  unfold firstByteIs, lacksLeadingSlash. destruct s as [|c s]; reflexivity.
Qed.

Lemma get_length_append (a b : string) (c : ascii) :
  String.get (String.length a) (a +:+ String c b) = Some c.
Proof.
  induction a as [|x a IH]; [reflexivity|].
  rewrite append_cons. simpl. exact IH.
Qed.

Lemma lastByteIs_snoc (c : ascii) (s : string) :
  lastByteIs c (s +:+ String c "") = true.
Proof.
  unfold lastByteIs. rewrite length_append. simpl.
  replace (String.length s + 1 - 1)%nat with (String.length s) by lia.
  rewrite get_length_append. apply Ascii.eqb_refl.
Qed.

Lemma substring_0_append (s t : string) :
  String.substring 0 (String.length s) (s +:+ t) = s.
Proof.
  induction s as [|c s IH]; [destruct t; reflexivity|].
  rewrite append_cons. simpl. f_equal. exact IH.
Qed.

Lemma substring_append_r (x y : string) (k n : nat) :
  (String.length x ≤ k)%nat →
  String.substring k n (x +:+ y) = String.substring (k - String.length x) n y.
Proof.
  revert k. induction x as [|c x IH]; intros k Hk.
  - rewrite append_nil_l. simpl. rewrite Nat.sub_0_r. reflexivity.
  - rewrite append_cons. destruct k as [|k]; [simpl in Hk; lia|].
    simpl. apply IH. simpl in Hk. lia.
Qed.

(** A string that ends with [c] is what stands before it, then [c]. *)
Lemma lastByteIs_split (c : ascii) (s : string) :
  lastByteIs c s = true →
  s = String.substring 0 (String.length s - 1) s +:+ String c "".
Proof.
  unfold lastByteIs. induction s as [|a s IH]; [discriminate|].
  destruct s as [|b s].
  - simpl. intros Heq. apply Ascii.eqb_eq in Heq as ->. reflexivity.
  - intros Hlast.
    replace (String.length (String a (String b s)) - 1)%nat
      with (S (String.length (String b s) - 1)) in * by (simpl; lia).
    change (String.get (S (String.length (String b s) - 1))
              (String a (String b s)))
      with (String.get (String.length (String b s) - 1) (String b s)) in Hlast.
    specialize (IH Hlast).
    change (String.substring 0 (S (String.length (String b s) - 1))
              (String a (String b s)))
      with (String a (String.substring 0 (String.length (String b s) - 1)
                        (String b s))).
    rewrite append_cons. f_equal. exact IH.
Qed.

Lemma substring_one (k : nat) (s : string) :
  String.substring k 1 s =
    match String.get k s with
    | Some c => String c ""
    | None => ""
    end.
Proof.
  revert k. induction s as [|a s IH]; intros [|k]; simpl; auto.
  destruct s; reflexivity.
Qed.

(** [strings.HasSuffix(s, "/")] is the test on the last byte. *)
Lemma HasSuffix_slash (s : string) : HasSuffix s "/" = lastByteIs "/" s.
Proof.
  unfold HasSuffix, lastByteIs. simpl String.length. rewrite substring_one.
  destruct s as [|a s]; [reflexivity|].
  simpl Nat.leb.
  destruct (String.get (String.length (String a s) - 1) (String a s)) as [c|];
    [|reflexivity].
  simpl. destruct (Ascii.eqb_spec c "/") as [->|Hne]; reflexivity.
Qed.

End StringFacts.

(** ** Groups: prefixes and paths *)

Section GroupPaths.
Context {node : Type} `{TreeOps node}.

(** X1. [Router.Group] panics exactly on a prefix that is empty or does not
    begin with a slash. Otherwise the group has no middleware and its prefix
    begins with a slash: it is the given prefix when that does not end with
    a slash, the root for the root, and else the given prefix without its
    last slash (one slash is removed, not a run of them). *)
Theorem Router_Group_prefix (p : string) :
  match Router_Group p with
  | Panic _ => lacksLeadingSlash p = true
  | Ret g =>
      lacksLeadingSlash p = false
      ∧ middlewares g = []
      ∧ firstByteIs "/" (prefix g) = true
      ∧ (if lastByteIs "/" p
         then (p = "/" ∧ prefix g = "/") ∨ (p ≠ "/" ∧ p = prefix g +:+ "/")
         else prefix g = p)
  end.
Proof.
  unfold Router_Group. rewrite lacksLeadingSlash_firstByteIs.
  destruct p as [|c s]; [reflexivity|].
  change (String.length (String c s) =? 0)%nat with false. rewrite orb_false_l.
  destruct (firstByteIs "/" (String c s)) eqn:Hfirst; [|reflexivity].
  cbv zeta. simpl negb. cbv iota.
  split; [reflexivity|]. split; [reflexivity|].
  unfold TrimSuffix. rewrite HasSuffix_slash.
  destruct (lastByteIs "/" (String c s)) eqn:Hlast.
  - pose proof (lastByteIs_split _ _ Hlast) as Hsplit.
    change (String.length "/") with 1%nat.
    destruct (String.substring 0 (String.length (String c s) - 1) (String c s))
      as [|x y] eqn:Hcut.
    + simpl. split; [reflexivity|]. left. rewrite Hsplit. auto.
    + change (String.eqb (String x y) "") with false. cbv iota. simpl prefix.
      rewrite Hsplit in Hfirst. rewrite append_cons in Hfirst.
      split; [exact Hfirst|]. right. split; [|exact Hsplit].
      rewrite Hsplit, append_cons. intros Heq. injection Heq as _ Heq.
      destruct y; discriminate.
  - change (String.eqb (String c s) "") with false. cbv iota. simpl prefix.
    auto.
Qed.

Example group_prefix_keeps_one_of_two_slashes :
  Router_Group "/admin//" = Ret (mkGroup "/admin/" [])
  ∧ Router_Group "/admin/" = Ret (mkGroup "/admin" [])
  ∧ Router_Group "//" = Ret (mkGroup "/" []).
Proof. repeat split. Qed.

Lemma groupFullPath_joinGroupPath (p path : string) :
  groupFullPath p path = joinGroupPath p path.
Proof.
  unfold groupFullPath, joinGroupPath.
  destruct (String.eqb_spec path "") as [->|Hp0].
  - simpl. destruct (String.eqb_spec p "/"); reflexivity.
  - destruct (String.eqb_spec path "/") as [->|Hp1].
    + simpl. destruct (String.eqb_spec p "/") as [->|Hp]; reflexivity.
    + simpl. destruct (firstByteIs "/" path);
        destruct (String.eqb_spec p "/") as [->|Hp]; reflexivity.
Qed.

(** X2. The path computation written out in [Group.ANY] and in
    [Group.HandlerFunc] gives, for every prefix and path, the path that
    [joinGroupPath] gives. So [Group.ANY] is [Router.ANY], and
    [Group.HandlerFunc] is [Router.HandlerFunc], on the joined path; the
    middlewares of the group play no part in either. *)
Theorem group_paths_agree (g : Group) (r : Router node) (method path : string)
    (handle : option Handle) (handler : option Handler) (ms : list Middleware) :
  groupFullPath (prefix g) path = joinGroupPath (prefix g) path
  ∧ Group_ANY g r path handle
    = Router_ANY r (joinGroupPath (prefix g) path) handle
  ∧ Group_HandlerFunc g r method path handler
    = Router_HandlerFunc r method (joinGroupPath (prefix g) path) handler
  ∧ Group_ANY (Group_Use g ms) r path handle = Group_ANY g r path handle
  ∧ Group_HandlerFunc (Group_Use g ms) r method path handler
    = Group_HandlerFunc g r method path handler.
Proof.
  unfold Group_ANY, Group_HandlerFunc.
  rewrite !groupFullPath_joinGroupPath. repeat split.
Qed.

Lemma joinGroupPath_firstByteIs (p rel : string) :
  firstByteIs "/" p = true → firstByteIs "/" (joinGroupPath p rel) = true.
Proof.
  intros Hp. unfold joinGroupPath.
  destruct (String.eqb p "").
  all: repeat match goal with
              | |- context [if ?b then _ else _] => destruct b eqn:?
              end;
    auto using firstByteIs_append.
Qed.

(** X3. With a group prefix that begins with a slash, the joined path
    begins with a slash, so a registration through the group never fails
    the path check of [Router.Handle]; and a relative path that is not empty
    may be written with or without its leading slash. *)
Theorem joinGroupPath_slashes (g : Group) (rel : string) :
  firstByteIs "/" (prefix g) = true →
  lacksLeadingSlash (joinGroupPath (prefix g) rel) = false
  ∧ (rel ≠ "" → firstByteIs "/" rel = false →
     joinGroupPath (prefix g) ("/" +:+ rel) = joinGroupPath (prefix g) rel)
  ∧ (∀ (r : Router node) method handle path',
        (Group_Handle g r method rel handle).2 ≠ Some (PathWithoutSlash path')).
Proof.
  intros Hp.
  assert (lacksLeadingSlash (joinGroupPath (prefix g) rel) = false) as Hok
    by (apply firstByteIs_has_slash, joinGroupPath_firstByteIs, Hp).
  split; [exact Hok|]. split.
  - intros Hne Hfirst. unfold joinGroupPath.
    change ("/" +:+ rel) with (String "/" rel).
    change (String.eqb (String "/" rel) "") with false.
    change (firstByteIs "/" (String "/" rel)) with true.
    rewrite Hfirst.
    destruct (String.eqb_spec rel "") as [?|_]; [contradiction|].
    destruct (String.eqb_spec rel "/") as [->|_]; [discriminate|].
    destruct (String.eqb_spec (String "/" rel) "/") as [Heq|_].
    { injection Heq as ->. contradiction. }
    destruct (String.eqb (prefix g) "/"); reflexivity.
  - intros r method handle path' Hbad. unfold Group_Handle in Hbad.
    destruct (Router_Handle_validation_cases r method
                (joinGroupPath (prefix g) rel)
                (applyGroupMiddlewares (middlewares g) handle))
      as [[Heq _]|[[Heq (_ & Hlack)]|[[Heq _]|(_ & _ & _ & Hrest)]]].
    + rewrite Heq in Hbad. discriminate.
    + congruence.
    + rewrite Heq in Hbad. discriminate.
    + specialize (Hrest _ Hbad). discriminate.
Qed.

End GroupPaths.

(** ** Groups: middleware *)

Section GroupMiddleware.
Context {node : Type} `{TreeOps node}.

Lemma applyGroupMiddlewares_chain (ms : list Middleware)
    (target : option Handle) (final : Handle) :
  applyGroupMiddlewares ms target = Some final →
  ms ≠ [] ∨ target = Some final →
  ∀ request ps,
    final request ps =
      foldr (fun m next => m next) (fun r' => callHandle target r' ps) ms request.
Proof.
  unfold applyGroupMiddlewares. intros Hfinal Hcase request ps.
  destruct (Nat.eqb_spec (length ms) 0) as [Hlen|Hlen].
  - apply nil_length_inv in Hlen. subst ms.
    destruct Hcase as [Hms | ->]; [congruence|]. reflexivity.
  - injection Hfinal as <-.
    rewrite applyFrom_take by reflexivity.
    rewrite firstn_all. reflexivity.
Qed.

(** X4. The handle that [Group.Handle] registers runs the middlewares of
    the group from the first one added to the last around the handle given,
    which receives the parameters of the match whatever request the
    middlewares pass on. When the router dispatches to it, this chain runs
    inside the innermost handler of [ServeHTTP], so inside every middleware
    of the router. *)
Theorem group_middleware_onion (g : Group) (r : Router node) (handle final : Handle)
    (req request request' : Request) (ps : Params) :
  applyGroupMiddlewares (middlewares g) (Some handle) = Some final →
  dispatch r request = ActInvoke final request' ps →
  coreRoutingAndHandling r req request
  = foldr (fun m next => m next) (fun r' => handle r' ps) (middlewares g) request'
  ∧ ServeHTTP r req
    = foldr (fun m next => m next) (coreRoutingAndHandling r req) (Middlewares r) req.
Proof.
  intros Hfinal Hdispatch. split.
  - rewrite coreRoutingAndHandling_outcome, Hdispatch. simpl.
    apply (applyGroupMiddlewares_chain (middlewares g) (Some handle) final Hfinal).
    destruct (middlewares g) as [|m ms] eqn:Hms; [right|left; discriminate].
    exact Hfinal.
  - unfold ServeHTTP. rewrite applyMiddleware_foldr. reflexivity.
Qed.

(** X5. A nil handle given to [Group.Handle]: without group middleware the
    registration panics on the nil check of [Router.Handle] and leaves the
    router as it was; with group middleware the check does not see the nil,
    and what is registered is the chain of the middlewares around a call of
    the nil handle, which panics when a request reaches it. *)
Theorem group_nil_handle (g : Group) (r : Router node) (method rel : string) :
  method ≠ "" →
  firstByteIs "/" (prefix g) = true →
  (middlewares g = [] → Group_Handle g r method rel None = (r, Some HandleNil))
  ∧ (middlewares g ≠ [] →
     (Group_Handle g r method rel None).2 ≠ Some HandleNil
     ∧ ∃ final,
         Group_Handle g r method rel None
         = Router_Handle r method (joinGroupPath (prefix g) rel) (Some final)
         ∧ ∀ request ps,
             final request ps =
               foldr (fun m next => m next)
                 (fun _ =>
                    panic (PanicString
                             "invalid memory address or nil pointer dereference"))
                 (middlewares g) request).
Proof.
  intros Hmethod Hprefix.
  assert (lacksLeadingSlash (joinGroupPath (prefix g) rel) = false) as Hpath
    by (apply firstByteIs_has_slash, joinGroupPath_firstByteIs, Hprefix).
  unfold Group_Handle. split.
  - intros ->. simpl.
    destruct (Router_Handle_validation_cases r method
                (joinGroupPath (prefix g) rel) None)
      as [[_ ?]|[[_ (_ & ?)]|[[Heq _]|(_ & _ & [? ?] & _)]]];
      [contradiction|congruence|exact Heq|discriminate].
  - intros Hms.
    destruct (applyGroupMiddlewares (middlewares g) None) as [final|] eqn:Hfinal.
    2:{ unfold applyGroupMiddlewares in Hfinal.
        destruct (middlewares g); [contradiction|discriminate]. }
    split.
    + intros Hbad.
      destruct (Router_Handle_validation_cases r method
                  (joinGroupPath (prefix g) rel) (Some final))
        as [[_ ?]|[[_ (_ & ?)]|[[_ (_ & _ & ?)]|(_ & _ & _ & Hrest)]]];
        [contradiction|congruence|discriminate|].
      specialize (Hrest _ Hbad). discriminate.
    + exists final. split; [reflexivity|]. intros request ps.
      apply (applyGroupMiddlewares_chain (middlewares g) None final Hfinal).
      left. exact Hms.
Qed.

End GroupMiddleware.

Section GroupScenarios.
Import RouteTable Scenarios.

(** The group [/api] with two middlewares, on a router with one. *)
Definition apiGroup : Group := Group_Use (mkGroup "/api" []) [tag "g1"; tag "g2"].

Definition apiRouter : Router Table :=
  (Group_Handle apiGroup (Use New [tag "m1"]) "GET" "x/:id" (Some (say "x"))).1.

Lemma group_middleware_onion_witness :
  coreRoutingAndHandling apiRouter (request "GET" "/api/x/7")
    (request "GET" "/api/x/7")
  = foldr (fun m next => m next) (fun r' => say "x" r' [mkParam "id" "7"])
      (middlewares apiGroup)
      (withParams (request "GET" "/api/x/7") [mkParam "id" "7"])
  ∧ ServeHTTP apiRouter (request "GET" "/api/x/7")
    = foldr (fun m next => m next)
        (coreRoutingAndHandling apiRouter (request "GET" "/api/x/7"))
        (Middlewares apiRouter) (request "GET" "/api/x/7").
Proof.
  apply (group_middleware_onion apiGroup apiRouter (say "x")
           (fun r ps =>
              applyFrom (middlewares apiGroup) (length (middlewares apiGroup))
                (fun r' => callHandle (Some (say "x")) r' ps) r)).
  - reflexivity.
  - vm_compute. reflexivity.
Defined.

Example group_middleware_order :
  ServeHTTP apiRouter (request "GET" "/api/x/7")
  = ([EvUser "m1" []; EvUser "g1" []; EvUser "g2" [];
      EvUser "x" [mkParam "id" "7"]], Ret tt).
Proof. vm_compute. reflexivity. Qed.

Lemma group_nil_handle_witness :
  Group_Handle (mkGroup "/api" []) (New (node := Table)) "GET" "/x" None
  = (New, Some HandleNil)
  ∧ (Group_Handle apiGroup (New (node := Table)) "GET" "/x" None).2
    ≠ Some HandleNil.
Proof.
  split.
  - apply (group_nil_handle (mkGroup "/api" []) New "GET" "/x");
      [discriminate|reflexivity|reflexivity].
  - apply (group_nil_handle apiGroup New "GET" "/x");
      [discriminate|reflexivity|discriminate].
Defined.

Example group_nil_handle_is_served :
  (Group_Handle apiGroup (New (node := Table)) "GET" "/x" None).2 = None
  ∧ ServeHTTP (Group_Handle apiGroup New "GET" "/x" None).1 (request "GET" "/api/x")
    = ([EvUser "g1" []; EvUser "g2" []],
       Panic (PanicString "invalid memory address or nil pointer dereference")).
Proof. vm_compute. split; reflexivity. Qed.

End GroupScenarios.

(** ** Registration under every method *)

Section AnyMethod.
Context {node : Type} `{TreeOps node}.

Lemma Router_Handle_trees (r : Router node) method path handle :
  (∀ m, is_Some (trees r !! m) →
        is_Some (trees (Router_Handle r method path handle).1 !! m))
  ∧ ((Router_Handle r method path handle).2 = None →
     is_Some (trees (Router_Handle r method path handle).1 !! method))
  ∧ (∀ m, is_Some (trees (Router_Handle r method path handle).1 !! m) →
          m = method ∨ is_Some (trees r !! m)).
Proof.
  assert (∀ (t : gmap string node) root m,
             is_Some (t !! m) → is_Some (<[method := root]> t !! m)) as Hup.
  { intros t root m Hm. destruct (decide (method = m)) as [->|Hne].
    - rewrite lookup_insert_eq. eauto.
    - rewrite lookup_insert_ne by exact Hne. exact Hm. }
  assert (∀ (t : gmap string node) root m,
             is_Some (<[method := root]> t !! m) →
             m = method ∨ is_Some (t !! m)) as Hdown.
  { intros t root m Hm. destruct (decide (method = m)) as [->|Hne].
    - left. reflexivity.
    - rewrite lookup_insert_ne in Hm by exact Hne. right. exact Hm. }
  unfold Router_Handle.
  destruct (String.eqb method "");
    [simpl; split; [auto|split; [discriminate|auto]]|].
  destruct (lacksLeadingSlash path);
    [simpl; split; [auto|split; [discriminate|auto]]|].
  destruct handle as [h|];
    [|simpl; split; [auto|split; [discriminate|auto]]].
  destruct (SaveMatchedRoutePath r);
    destruct (trees r !! method) as [root|] eqn:Htree;
    destruct (addRoute _ _ _) as [root' [v|]];
    repeat match goal with
           | |- context [if ?b then _ else _] => destruct b
           end;
    simpl;
    (split; [intros m Hm; repeat apply Hup; exact Hm|]);
    (split; [first [discriminate | intros _; rewrite lookup_insert_eq; eauto]|]);
    intros m Hm;
    repeat match goal with
           | Hm : is_Some (<[method := _]> _ !! m) |- _ =>
               apply Hdown in Hm; destruct Hm as [Hm|Hm]; [left; exact Hm|]
           end;
    right; exact Hm.
Qed.

Lemma handleEach_trees (methods : list string) (path : string)
    (handle : option Handle) (r : Router node) :
  (∀ m, is_Some (trees r !! m) →
        is_Some (trees (handleEach r methods path handle).1 !! m))
  ∧ ((handleEach r methods path handle).2 = None →
     ∀ m, m ∈ methods → is_Some (trees (handleEach r methods path handle).1 !! m))
  ∧ (∀ m, is_Some (trees (handleEach r methods path handle).1 !! m) →
          m ∈ methods ∨ is_Some (trees r !! m)).
Proof.
  revert r. induction methods as [|method rest IH]; intros r.
  - simpl. split; [auto|]. split; [|auto]. intros _ m Hm. inversion Hm.
  - simpl. pose proof (Router_Handle_trees r method path handle) as (Hup & Hnew & Hdown).
    destruct (Router_Handle r method path handle) as [r' [e|]] eqn:Hstep;
      simpl in *.
    + split; [exact Hup|]. split; [discriminate|].
      intros m Hm. destruct (Hdown m Hm) as [->|?]; [left; left|right; assumption].
    + destruct (IH r') as (Hup' & Hall' & Hdown').
      split; [intros m Hm; apply Hup', Hup, Hm|]. split.
      * intros Hok m Hm. apply elem_of_cons in Hm as [->|Hm].
        -- apply Hup', Hnew. reflexivity.
        -- apply Hall'; assumption.
      * intros m Hm. destruct (Hdown' m Hm) as [?|Hm'].
        -- left. right. assumption.
        -- destruct (Hdown m Hm') as [->|?]; [left; left|right; assumption].
Qed.

(** X6. [Router.ANY]: when it returns, each of GET, POST, PUT, PATCH,
    DELETE, HEAD and OPTIONS has a tree; it never removes a tree and adds
    none for another method. On a path without leading slash or a nil handle
    it panics on the first method and the router is as before. *)
Theorem Router_ANY_methods (r : Router node) (path : string)
    (handle : option Handle) :
  ((Router_ANY r path handle).2 = None →
   ∀ m, m ∈ DefaultMethodsForAny →
        is_Some (trees (Router_ANY r path handle).1 !! m))
  ∧ (∀ m, is_Some (trees r !! m) →
          is_Some (trees (Router_ANY r path handle).1 !! m))
  ∧ (∀ m, is_Some (trees (Router_ANY r path handle).1 !! m) →
          m ∈ DefaultMethodsForAny ∨ is_Some (trees r !! m))
  ∧ (lacksLeadingSlash path = true ∨ handle = None →
     ∃ e, Router_ANY r path handle = (r, Some e) ∧ isValidationPanic e = true).
Proof.
  unfold Router_ANY.
  pose proof (handleEach_trees DefaultMethodsForAny path handle r)
    as (Hup & Hall & Hdown).
  split; [exact Hall|]. split; [exact Hup|]. split; [exact Hdown|].
  intros Hbad. unfold DefaultMethodsForAny. simpl.
  destruct (Router_Handle_validation_cases r MethodGet path handle)
    as [[_ ?]|[[Heq _]|[[Heq _]|(_ & Hpath & [h ->] & _)]]].
  - discriminate.
  - rewrite Heq. eexists. split; reflexivity.
  - rewrite Heq. eexists. split; reflexivity.
  - destruct Hbad; congruence.
Qed.

End AnyMethod.

(** ** Adapters and the matched route path *)

Section Adapters.

Lemma ByName_app_absent (ps : Params) (p : Param) (name : string) :
  (∀ q, q ∈ ps → Key q ≠ name) →
  ByName (ps ++ [p]) name = ByName [p] name.
Proof.
  induction ps as [|q ps IH]; intros Hnone; [reflexivity|].
  rewrite <- app_comm_cons, ByName_cons.
  destruct (String.eqb_spec (Key q) name) as [Heq|_].
  - exfalso. apply (Hnone q); [left|exact Heq].
  - apply IH. intros q' Hq'. apply Hnone. right. exact Hq'.
Qed.

Lemma ByName_app_other (ps : Params) (p : Param) (name : string) :
  Key p ≠ name → ByName (ps ++ [p]) name = ByName ps name.
Proof.
  intros Hne. induction ps as [|q ps IH].
  - simpl. destruct (String.eqb_spec (Key p) name); [contradiction|reflexivity].
  - rewrite <- app_comm_cons, !ByName_cons, IH. reflexivity.
Qed.

(** X7. With [SaveMatchedRoutePath], the handle registered by
    [Router.Handler] calls the [http.Handler] with a request whose context
    holds the captured parameters followed by the matched route path. When
    no captured parameter is named [$matchedRoutePath], [MatchedRoutePath]
    reads the route path from them, and every other name reads as it does
    from the captured parameters. *)
Theorem matched_route_path_in_context (path : string) (handler : Handler)
    (request : Request) (ps : Params) :
  (∀ p, p ∈ ps → Key p ≠ MatchedRoutePathParam) →
  ∃ request',
    saveMatchedRoutePath path (handlerAdapter (Some handler)) request ps
    = handler request'
    ∧ Method request' = Method request
    ∧ ReqURL request' = ReqURL request
    ∧ ParamsFromContext request' = ps ++ [mkParam MatchedRoutePathParam path]
    ∧ MatchedRoutePath (ParamsFromContext request') = path
    ∧ ∀ name, name ≠ MatchedRoutePathParam →
              ByName (ParamsFromContext request') name = ByName ps name.
Proof.
  intros Hnone.
  exists (withParams request (ps ++ [mkParam MatchedRoutePathParam path])).
  split.
  - unfold saveMatchedRoutePath, handlerAdapter.
    rewrite length_app. simpl.
    replace (0 <? length ps + 1)%nat with true
      by (symmetry; apply Nat.ltb_lt; lia).
    reflexivity.
  - split; [reflexivity|]. split; [reflexivity|]. split; [reflexivity|].
    unfold ParamsFromContext, MatchedRoutePath. simpl. split.
    + rewrite ByName_app_absent by exact Hnone. reflexivity.
    + intros name Hname. apply ByName_app_other. simpl. congruence.
Qed.

End Adapters.

Section AdapterScenarios.
Import RouteTable Scenarios.

(** An [http.Handler] that reports the matched route path and the
    parameters it finds in the request context. *)
Definition sayMatched : Handler :=
  fun request =>
    emit (EvUser (MatchedRoutePath (ParamsFromContext request))
            (ParamsFromContext request)).

Definition savingRouter : Router Table :=
  (Router_Handler (set_SaveMatchedRoutePath New true) "GET" "/user/:id"
     (Some sayMatched)).1.

Lemma matched_route_path_in_context_witness :
  ∃ request',
    saveMatchedRoutePath "/user/:id" (handlerAdapter (Some sayMatched))
      (request "GET" "/user/7") [mkParam "id" "7"]
    = sayMatched request'
    ∧ Method request' = "GET"
    ∧ ReqURL request' = mkURL "/user/7" ""
    ∧ ParamsFromContext request'
      = [mkParam "id" "7"; mkParam MatchedRoutePathParam "/user/:id"]
    ∧ MatchedRoutePath (ParamsFromContext request') = "/user/:id"
    ∧ ∀ name, name ≠ MatchedRoutePathParam →
              ByName (ParamsFromContext request') name
              = ByName [mkParam "id" "7"] name.
Proof.
  apply (matched_route_path_in_context "/user/:id" sayMatched
           (request "GET" "/user/7") [mkParam "id" "7"]).
  intros p Hp. apply list_elem_of_singleton in Hp. subst p. discriminate.
Defined.

Example matched_route_path_is_served :
  ServeHTTP savingRouter (request "GET" "/user/7")
  = ([EvUser "/user/:id"
        [mkParam "id" "7"; mkParam "$matchedRoutePath" "/user/:id"]], Ret tt).
Proof. vm_compute. reflexivity. Qed.

Lemma joinGroupPath_slashes_witness :
  lacksLeadingSlash (joinGroupPath (prefix apiGroup) "x/:id") = false
  ∧ joinGroupPath (prefix apiGroup) ("/" +:+ "x/:id")
    = joinGroupPath (prefix apiGroup) "x/:id"
  ∧ (Group_Handle apiGroup (New (node := Table)) "GET" "x/:id"
       (Some (say "x"))).2 = None.
Proof.
  destruct (joinGroupPath_slashes (node := Table) apiGroup "x/:id" eq_refl)
    as (Hslash & Hsame & _).
  split; [exact Hslash|]. split; [|reflexivity].
  apply Hsame; [discriminate|reflexivity].
Defined.

End AdapterScenarios.

(** ** Configuration *)

Section Configuration.
Context {node : Type} `{TreeOps node}.

Lemma configured_snoc (handlers : list (option ErrorHandlerFunc))
    (handler : option ErrorHandlerFunc) :
  configured (node := node) (handlers ++ [handler])
  = SetErrorHandler (configured handlers) handler.
Proof. unfold configured. rewrite fold_left_app. reflexivity. Qed.

(** X8. After any sequence of [SetErrorHandler] calls on a new router the
    error handler is not nil: it is the handler of the last call, and the
    default one when there was no call or the last call gave nil. The router
    reports the default handler as in use exactly in the latter case, and
    then the handler is the default one; a router given the default handler
    by hand does not report it, and serves unmatched requests behind the
    error-capturing writer. *)
Theorem SetErrorHandler_configured (handlers : list (option ErrorHandlerFunc)) :
  GetErrorHandler (configured (node := node) handlers)
  = Some (match last handlers with
          | Some (Some handler) => handler
          | _ => defaultErrorHandler
          end)
  ∧ IsUsingDefaultErrorHandler (configured (node := node) handlers)
    = match last handlers with Some (Some _) => false | _ => true end
  ∧ (IsUsingDefaultErrorHandler (configured (node := node) handlers) = true →
     GetErrorHandler (configured (node := node) handlers)
     = Some defaultErrorHandler)
  ∧ (∀ request,
        perform
          (SetErrorHandler (configured (node := node) handlers)
             (Some (GetDefaultErrHandler (configured (node := node) handlers))))
          request ActStatic
        = ([EvFileServer true], Ret tt)).
Proof.
  assert (GetErrorHandler (configured (node := node) handlers)
          = Some (match last handlers with
                  | Some (Some handler) => handler
                  | _ => defaultErrorHandler
                  end)
          ∧ IsUsingDefaultErrorHandler (configured (node := node) handlers)
            = match last handlers with Some (Some _) => false | _ => true end)
    as [Hget Hflag].
  { destruct handlers as [|h0 rest _] using rev_ind; [split; reflexivity|].
    rewrite configured_snoc, last_snoc.
    destruct h0 as [h|]; split; reflexivity. }
  split; [exact Hget|]. split; [exact Hflag|]. split.
  - intros Hdefault. rewrite Hget. rewrite Hflag in Hdefault.
    destruct (last handlers) as [[h|]|]; [discriminate|reflexivity|reflexivity].
  - intros request. reflexivity.
Qed.

Lemma allowed_ServeUnmatched (r : Router node) fs path reqMethod :
  allowed (ServeUnmatched r fs) path reqMethod = allowed r path reqMethod.
Proof. reflexivity. Qed.

(** X9. [ServeUnmatched] changes the decision of the router for the
    requests that would get the not-found response and for no other: with a
    file system they go to the file server, so the [NotFound] handler is not
    called any more; every match, redirect, automatic OPTIONS answer and 405
    stays as it was. With a nil file system nothing goes to the file
    server. *)
Theorem ServeUnmatched_dispatch (r : Router node) (fs : option string)
    (request : Request) :
  dispatch (ServeUnmatched r fs) request
  = match dispatch r request with
    | ActNotFound | ActStatic =>
        match fs with Some _ => ActStatic | None => ActNotFound end
    | a => a
    end
  ∧ (is_Some fs → dispatch (ServeUnmatched r fs) request ≠ ActNotFound)
  ∧ (fs = None → dispatch (ServeUnmatched r fs) request ≠ ActStatic).
Proof.
  assert (dispatch (ServeUnmatched r fs) request
          = match dispatch r request with
            | ActNotFound | ActStatic =>
                match fs with Some _ => ActStatic | None => ActNotFound end
            | a => a
            end) as Heq.
  { unfold dispatch.
    change (lookupStage (ServeUnmatched r fs) request)
      with (lookupStage r request).
    destruct (lookupStage r request) as [a|] eqn:Hlookup.
    - unfold lookupStage in Hlookup.
      destruct (trees r !! Method request) as [root|]; [|discriminate].
      destruct (getValue root (Path (ReqURL request))) as [[[h|] ps] tsr].
      + injection Hlookup as <-. reflexivity.
      + repeat match type of Hlookup with
               | context [if ?b then _ else _] => destruct b
               | context [let '(_, _) := ?p in _] => destruct p
               end;
          try discriminate; injection Hlookup as <-; reflexivity.
    - unfold fallbackStage.
      rewrite !allowed_ServeUnmatched.
      change (HandleOPTIONS (ServeUnmatched r fs)) with (HandleOPTIONS r).
      change (HandleMethodNotAllowed (ServeUnmatched r fs))
        with (HandleMethodNotAllowed r).
      assert (unmatched (ServeUnmatched r fs)
              = match fs with Some _ => ActStatic | None => ActNotFound end)
        as Hun by (destruct fs; reflexivity).
      rewrite Hun.
      repeat match goal with
             | |- context [if ?b then _ else _] => destruct b
             end;
        try reflexivity;
        destruct (unmatched_cases r) as [-> | ->]; reflexivity. }
  split; [exact Heq|]. split.
  - intros [name ->]. rewrite Heq. destruct (dispatch r request); discriminate.
  - intros ->. rewrite Heq. destruct (dispatch r request); discriminate.
Qed.


End Configuration.

(** ** Redirects *)

Section Redirects.
Context {node : Type} `{TreeOps node}.

Lemma toggledSlash_cases (path : string) :
  toggledSlash path = path +:+ "/" ∨ path = toggledSlash path +:+ "/".
Proof.
  unfold toggledSlash.
  destruct ((1 <? String.length path)%nat && lastByteIs "/" path) eqn:Hcase.
  - right. apply andb_true_iff in Hcase as [_ Hlast].
    apply lastByteIs_split. exact Hlast.
  - left. reflexivity.
Qed.

Lemma append_slash_differs (s : string) : s +:+ "/" ≠ s.
Proof.
  intros Heq. apply (f_equal String.length) in Heq.
  rewrite length_append in Heq. simpl in Heq. lia.
Qed.

(** X11. The trailing-slash redirect: when the tree of the request method
    has no handle for the path but recommends the redirect, the policy is
    on, and the request is neither a CONNECT nor for the root, the router
    redirects to the same URL with the path changed by exactly one slash at
    its end (removed when the path ends with one, added otherwise), with
    301 for GET and 308 for the other methods; the query is kept. *)
Theorem trailing_slash_redirect (r : Router node) (request : Request) :
  redirectable request = true →
  RedirectTrailingSlash r = true →
  (Lookup r (Method request) (Path (ReqURL request))).1.1 = None →
  (Lookup r (Method request) (Path (ReqURL request))).2 = true →
  dispatch r request
  = ActRedirect
      (mkURL (toggledSlash (Path (ReqURL request))) (RawQuery (ReqURL request)))
      (redirectCode request)
  ∧ toggledSlash (Path (ReqURL request)) ≠ Path (ReqURL request)
  ∧ (toggledSlash (Path (ReqURL request)) = Path (ReqURL request) +:+ "/"
     ∨ Path (ReqURL request) = toggledSlash (Path (ReqURL request)) +:+ "/").
Proof.
  intros Hgate Hpolicy Hnone Htsr. split; [|split].
  - unfold Lookup in Hnone, Htsr. unfold dispatch, lookupStage.
    destruct (trees r !! Method request) as [root|]; [|discriminate].
    destruct (getValue root (Path (ReqURL request))) as [[[h|] ps] tsr];
      [discriminate|].
    simpl in Htsr. subst tsr. rewrite Hpolicy.
    unfold redirectable in Hgate. rewrite Hgate. simpl.
    unfold redirectCode, toggledSlash, withPath.
    destruct (String.eqb (Method request) MethodGet);
      destruct ((1 <? String.length (Path (ReqURL request)))%nat
                && lastByteIs "/" (Path (ReqURL request)));
      reflexivity.
  - destruct (toggledSlash_cases (Path (ReqURL request))) as [Heq|Heq].
    + rewrite Heq. apply append_slash_differs.
    + intros Hsame. rewrite Hsame in Heq at 1.
      symmetry in Heq. exact (append_slash_differs _ Heq).
  - apply toggledSlash_cases.
Qed.

(** X12. Whatever redirect the router answers with, the URL keeps the query
    of the request and only the path changes; the request method has a tree,
    one of the two redirect policies is on, and the new path is either the
    request path with its trailing slash toggled, on the recommendation of
    the tree, or the path that the case-insensitive lookup of the cleaned
    request path found. *)
Theorem redirect_target (r : Router node) (request : Request) (url : URL) (code : Z) :
  dispatch r request = ActRedirect url code →
  RawQuery url = RawQuery (ReqURL request)
  ∧ ∃ root,
      trees r !! Method request = Some root
      ∧ ((RedirectTrailingSlash r = true
          ∧ (getValue root (Path (ReqURL request))).2 = true
          ∧ Path url = toggledSlash (Path (ReqURL request)))
         ∨ (RedirectFixedPath r = true
            ∧ findCaseInsensitivePath root (CleanPath (Path (ReqURL request)))
                (RedirectTrailingSlash r)
              = (Path url, true))).
Proof.
  unfold dispatch. intros Hdispatch.
  destruct (lookupStage r request) as [a|] eqn:Hlookup.
  2:{ exfalso. exact (fallbackStage_not_redirect r request url code Hdispatch). }
  subst a. unfold lookupStage in Hlookup.
  destruct (trees r !! Method request) as [root|]; [|discriminate].
  destruct (getValue root (Path (ReqURL request))) as [[[h|] ps] tsr] eqn:Hvalue;
    [discriminate|].
  destruct (negb (String.eqb (Method request) MethodConnect)
            && negb (String.eqb (Path (ReqURL request)) "/"));
    [|discriminate].
  destruct (tsr && RedirectTrailingSlash r) eqn:Htsr.
  - apply andb_true_iff in Htsr as [-> Hpolicy].
    injection Hlookup as <- _. split.
    + destruct ((1 <? String.length (Path (ReqURL request)))%nat
                && lastByteIs "/" (Path (ReqURL request))); reflexivity.
    + exists root. split; [reflexivity|]. left.
      split; [exact Hpolicy|]. split; [rewrite Hvalue; reflexivity|].
      unfold toggledSlash.
      destruct ((1 <? String.length (Path (ReqURL request)))%nat
                && lastByteIs "/" (Path (ReqURL request))); reflexivity.
  - destruct (RedirectFixedPath r) eqn:Hfixed; [|discriminate].
    destruct (findCaseInsensitivePath root (CleanPath (Path (ReqURL request)))
                (RedirectTrailingSlash r)) as [fixedPath found] eqn:Hfind.
    destruct found; [|discriminate].
    injection Hlookup as <- _. split; [reflexivity|].
    exists root. split; [reflexivity|]. right.
    split; [reflexivity|exact Hfind].
Qed.

End Redirects.

Section RedirectScenarios.
Import RouteTable Scenarios.

Definition queryRequest : Request :=
  mkRequest "POST" (mkURL "/x/" "page=2") false None.

Definition onlyPostX : Router Table := register New "POST" "/x" (say "x").

Lemma trailing_slash_redirect_witness :
  dispatch onlyPostX queryRequest = ActRedirect (mkURL "/x" "page=2") 308
  ∧ toggledSlash "/x/" ≠ "/x/"
  ∧ (toggledSlash "/x/" = "/x/" +:+ "/" ∨ "/x/" = toggledSlash "/x/" +:+ "/").
Proof.
  apply (trailing_slash_redirect onlyPostX queryRequest); reflexivity.
Defined.

End RedirectScenarios.

Section FixedPathScenario.
Import Scenarios.

Definition onlyGetFoo : Router RouteTable.Table :=
  register New "GET" "/Foo" (say "foo").

Definition lowerFoo : Request := mkRequest "GET" (mkURL "/foo" "page=2") false None.

Lemma redirect_target_witness :
  dispatch onlyGetFoo lowerFoo = ActRedirect (mkURL "/Foo" "page=2") 301
  ∧ RawQuery (mkURL "/Foo" "page=2") = RawQuery (ReqURL lowerFoo)
  ∧ ∃ root,
      trees onlyGetFoo !! Method lowerFoo = Some root
      ∧ ((RedirectTrailingSlash onlyGetFoo = true
          ∧ (getValue root (Path (ReqURL lowerFoo))).2 = true
          ∧ Path (mkURL "/Foo" "page=2") = toggledSlash (Path (ReqURL lowerFoo)))
         ∨ (RedirectFixedPath onlyGetFoo = true
            ∧ findCaseInsensitivePath root (CleanPath (Path (ReqURL lowerFoo)))
                (RedirectTrailingSlash onlyGetFoo)
              = (Path (mkURL "/Foo" "page=2"), true))).
Proof.
  split; [vm_compute; reflexivity|].
  apply (redirect_target onlyGetFoo lowerFoo (mkURL "/Foo" "page=2") 301).
  vm_compute. reflexivity.
Defined.

End FixedPathScenario.

(** ** The sort and the order of the map *)

Section SortFacts.

Lemma nondescending_unique (l1 l2 : list string) :
  nondescending l1 → nondescending l2 → l1 ≡ₚ l2 → l1 = l2.
Proof.
  apply StronglySorted_unique_strong.
  intros x1 x2 _ _ H21 H12.
  destruct (decide (x1 = x2)) as [Heq|Hne]; [exact Heq|].
  pose proof (ltb_total _ _ Hne H21) as Hlt. congruence.
Qed.

(** X13. The hand-written sort in [allowed] sorts every list of names: the
    result is in ascending bytewise order (equal names next to each other)
    and is a rearrangement of the input, so it depends on the names and not
    on the order they came in, and a sorted input comes back as it is. *)
Theorem sortMethods_sorts (a b : list string) :
  nondescending (sortMethods a)
  ∧ sortMethods a ≡ₚ a
  ∧ (a ≡ₚ b → sortMethods a = sortMethods b)
  ∧ (nondescending a → sortMethods a = a)
  ∧ sortMethods (sortMethods a) = sortMethods a.
Proof.
  destruct (sortMethods_sorted a) as [Hsorted Hperm].
  assert (∀ l, nondescending l → sortMethods l = l) as Hfix.
  { intros l Hl. destruct (sortMethods_sorted l) as [Hs Hp].
    apply nondescending_unique; assumption. }
  split; [exact Hsorted|]. split; [exact Hperm|]. split; [|split].
  - intros Hab. destruct (sortMethods_sorted b) as [Hsorted' Hperm'].
    apply nondescending_unique; [assumption|assumption|].
    rewrite Hperm, Hperm'. exact Hab.
  - apply Hfix.
  - apply Hfix, Hsorted.
Qed.

End SortFacts.

Section AllowFacts.
Context {node : Type} `{TreeOps node}.

(** X14. Go does not fix the order in which [range r.trees] yields the
    methods; the Allow string does not depend on it: every order of the
    entries of the map gives the same string. *)
Theorem allowed_any_order (r : Router node) (order : list (string * node))
    (path reqMethod : string) :
  order ≡ₚ map_to_list (trees r) →
  allowed_in r order path reqMethod = allowed r path reqMethod.
Proof.
  intros Hperm. unfold allowed. apply allowed_in_order; [|exact Hperm].
  rewrite Hperm. apply NoDup_fst_map_to_list.
Qed.

Lemma allowed_nonempty_tokens (r : Router node) path reqMethod :
  path ≠ "*" →
  allowed r path reqMethod ≠ "" →
  ∃ tokens,
    allowed r path reqMethod = Join tokens ", "
    ∧ ascending tokens
    ∧ (∀ method,
          method ∈ tokens ↔
            (method = MethodOptions ∧ HandleOPTIONS r = true)
            ∨ (method ≠ reqMethod ∧ method ≠ MethodOptions
               ∧ ∃ root, trees r !! method = Some root
                         ∧ hasRoute root path = true))
    ∧ ∃ method root,
        method ∈ tokens ∧ method ≠ reqMethod ∧ method ≠ MethodOptions
        ∧ trees r !! method = Some root ∧ hasRoute root path = true.
Proof.
  intros Hpath Hallow.
  assert (∃ method root,
             method ≠ reqMethod ∧ method ≠ MethodOptions
             ∧ trees r !! method = Some root ∧ hasRoute root path = true)
    as (method & root & Hm1 & Hm2 & Htree & Hroute).
  { rewrite (allowed_path r path reqMethod Hpath) in Hallow. cbv zeta in Hallow.
    destruct (rangeAppend _ (map_to_list (trees r))) as [|x l] eqn:Hcollected;
      [contradiction Hallow; reflexivity|].
    assert (x ∈ x :: l) as Hx by left.
    rewrite <- Hcollected in Hx. apply rangeAppend_elem in Hx as (t & Hin & Hkeep).
    apply elem_of_map_to_list in Hin.
    apply andb_true_iff in Hkeep as [Hskip Hroute].
    apply negb_true_iff, orb_false_iff in Hskip as [Hskip1 Hskip2].
    exists x, t. repeat split; try assumption.
    - apply String.eqb_neq. exact Hskip1.
    - apply String.eqb_neq. exact Hskip2. }
  destruct (allowed_tokens r path reqMethod Hpath) as (tokens & Heq & Hasc & Hmem).
  { exists method, root. auto. }
  exists tokens. split; [exact Heq|]. split; [exact Hasc|]. split; [exact Hmem|].
  exists method, root. split; [|auto]. apply Hmem. right. eauto.
Qed.

Lemma dispatch_after_lookup (r : Router node) (request : Request) (a : Action) :
  dispatch r request = a →
  (∀ handle request' ps, a ≠ ActInvoke handle request' ps) →
  (∀ url code, a ≠ ActRedirect url code) →
  fallbackStage r request = a
  ∧ (Lookup r (Method request) (Path (ReqURL request))).1.1 = None.
Proof.
  unfold dispatch, lookupStage, Lookup. intros Hdispatch Hinvoke Hredirect.
  destruct (trees r !! Method request) as [root|]; [|split; [assumption|reflexivity]].
  destruct (getValue root (Path (ReqURL request))) as [[[h|] ps] tsr].
  { exfalso. exact (Hinvoke _ _ _ (eq_sym Hdispatch)). }
  split; [|reflexivity].
  repeat match type of Hdispatch with
         | context [if ?b then _ else _] => destruct b
         | context [let '(_, _) := ?p in _] => destruct p
         end;
    first [ exact Hdispatch
          | exfalso; exact (Hredirect _ _ (eq_sym Hdispatch)) ].
Qed.

(** X15. A 405 answer: the policy is on, no route matched the request, and
    the Allow header is not empty. For a path other than [*] the header
    lists, in ascending order and without repetition, the methods that have
    a route for the path, of which there is at least one, and OPTIONS when
    automatic OPTIONS is on; the method of the request is not in it. The
    header is set before the handler for the 405 is called. *)
Theorem not_allowed_response (r : Router node) (request : Request) (allow : string) :
  dispatch r request = ActNotAllowed allow →
  HandleMethodNotAllowed r = true
  ∧ (Lookup r (Method request) (Path (ReqURL request))).1.1 = None
  ∧ allow ≠ ""
  ∧ allow = allowed r (Path (ReqURL request)) (Method request)
  ∧ (Path (ReqURL request) ≠ "*" →
     ∃ tokens,
       allow = Join tokens ", "
       ∧ ascending tokens
       ∧ (Method request ∉ tokens)
       ∧ (MethodOptions ∈ tokens ↔ HandleOPTIONS r = true)
       ∧ (∀ method, method ∈ tokens → method ≠ MethodOptions →
                    ∃ root, trees r !! method = Some root
                            ∧ hasRoute root (Path (ReqURL request)) = true)
       ∧ ∃ method, method ∈ tokens ∧ method ≠ MethodOptions)
  ∧ ∃ t res,
      perform r request (ActNotAllowed allow) = (EvHeaderSet "Allow" allow :: t, res).
Proof.
  intros Hdispatch.
  destruct (dispatch_after_lookup r request _ Hdispatch) as [Hfall Hnone];
    [discriminate|discriminate|].
  unfold fallbackStage in Hfall.
  destruct (String.eqb (Method request) MethodOptions && HandleOPTIONS r) eqn:Hopt.
  { destruct (negb _); [discriminate|].
    destruct (unmatched_cases r) as [Hu|Hu]; rewrite Hu in Hfall; discriminate. }
  destruct (HandleMethodNotAllowed r) eqn:Hpolicy.
  2:{ destruct (unmatched_cases r) as [Hu|Hu]; rewrite Hu in Hfall; discriminate. }
  destruct (String.eqb_spec (allowed r (Path (ReqURL request)) (Method request)) "")
    as [Hempty|Hnonempty]; simpl in Hfall.
  { destruct (unmatched_cases r) as [Hu|Hu]; rewrite Hu in Hfall; discriminate. }
  injection Hfall as <-.
  split; [reflexivity|]. split; [exact Hnone|]. split; [exact Hnonempty|].
  split; [reflexivity|]. split.
  - intros Hpath.
    destruct (allowed_nonempty_tokens r _ _ Hpath Hnonempty)
      as (tokens & Heq & Hasc & Hmem & method & root & Hin & _ & Hm & _).
    exists tokens. split; [exact Heq|]. split; [exact Hasc|]. split; [|split; [|split]].
    + intros Hreq. apply Hmem in Hreq as [[Hreq Hon]|[Hreq _]]; [|congruence].
      rewrite Hon, andb_true_r in Hopt. apply String.eqb_neq in Hopt. congruence.
    + split.
      * intros Hin'. apply Hmem in Hin' as [[_ Hon]|(_ & Hne & _)];
          [exact Hon|congruence].
      * intros Hon. apply Hmem. left. auto.
    + intros m Hin' Hne. apply Hmem in Hin' as [[? _]|(_ & _ & Hroot)];
        [congruence|exact Hroot].
    + exists method. auto.
  - unfold perform, bind, emit.
    destruct (MethodNotAllowed r) as [h|].
    + destruct (h request) as [t res]. exists t, res. reflexivity.
    + destruct (errorHandler r) as [eh|]; eexists _, _; reflexivity.
Qed.

(** X16. The automatic answer to OPTIONS: the request is an OPTIONS request
    that matched no route, the policy is on, and the Allow header is not
    empty. For a path other than [*] the header lists OPTIONS and, in
    ascending order, the other methods that have a route for the path, of
    which there is at least one; for [*] it is the cached server-wide
    string. Without a [GlobalOPTIONS] handler the answer is the header and
    status 200. *)
Theorem automatic_options_response (r : Router node) (request : Request)
    (allow : string) :
  dispatch r request = ActOptions allow →
  Method request = MethodOptions
  ∧ HandleOPTIONS r = true
  ∧ (Lookup r (Method request) (Path (ReqURL request))).1.1 = None
  ∧ allow ≠ ""
  ∧ (Path (ReqURL request) = "*" → allow = globalAllowed r)
  ∧ (Path (ReqURL request) ≠ "*" →
     ∃ tokens,
       allow = Join tokens ", "
       ∧ ascending tokens
       ∧ MethodOptions ∈ tokens
       ∧ (∀ method, method ∈ tokens → method ≠ MethodOptions →
                    ∃ root, trees r !! method = Some root
                            ∧ hasRoute root (Path (ReqURL request)) = true)
       ∧ ∃ method, method ∈ tokens ∧ method ≠ MethodOptions)
  ∧ (GlobalOPTIONS r = None →
     perform r request (ActOptions allow)
     = ([EvHeaderSet "Allow" allow; EvWriteHeader StatusOK], Ret tt)).
Proof.
  intros Hdispatch.
  destruct (dispatch_after_lookup r request _ Hdispatch) as [Hfall Hnone];
    [discriminate|discriminate|].
  unfold fallbackStage in Hfall.
  destruct (String.eqb (Method request) MethodOptions && HandleOPTIONS r) eqn:Hopt.
  2:{ destruct (HandleMethodNotAllowed r);
        [destruct (negb _); [discriminate|]|];
        destruct (unmatched_cases r) as [Hu|Hu]; rewrite Hu in Hfall; discriminate. }
  apply andb_true_iff in Hopt as [Hmethod Hon].
  apply String.eqb_eq in Hmethod.
  destruct (String.eqb_spec (allowed r (Path (ReqURL request)) MethodOptions) "")
    as [Hempty|Hnonempty]; simpl in Hfall.
  { destruct (unmatched_cases r) as [Hu|Hu]; rewrite Hu in Hfall; discriminate. }
  injection Hfall as <-.
  split; [exact Hmethod|]. split; [exact Hon|]. split; [exact Hnone|].
  split; [exact Hnonempty|]. split; [|split].
  - intros ->. apply allowed_cached. discriminate.
  - intros Hpath.
    destruct (allowed_nonempty_tokens r _ _ Hpath Hnonempty)
      as (tokens & Heq & Hasc & Hmem & method & root & Hin & _ & Hm & _).
    exists tokens. split; [exact Heq|]. split; [exact Hasc|]. split; [|split].
    + apply Hmem. left. auto.
    + intros m Hin' Hne. apply Hmem in Hin' as [[? _]|(_ & _ & Hroot)];
        [congruence|exact Hroot].
    + exists method. auto.
  - intros Hglobal. unfold perform. rewrite Hglobal. reflexivity.
Qed.

End AllowFacts.

Section AllowFactsScenarios.
Import Scenarios.

(** [GET /x] and [POST /x]. *)
Definition getPostX : Router RouteTable.Table :=
  register (register New "GET" "/x" (say "x")) "POST" "/x" (say "x").

Lemma allowed_any_order_witness :
  allowed_in getPostX (reverse (map_to_list (trees getPostX))) "/x" "DELETE"
  = allowed getPostX "/x" "DELETE".
Proof.
  apply (allowed_any_order getPostX (reverse (map_to_list (trees getPostX)))).
  apply reverse_Permutation.
Defined.

Example allowed_get_post :
  allowed getPostX "/x" "DELETE" = "GET, OPTIONS, POST"
  ∧ allowed getPostX "/x" "POST" = "GET, OPTIONS".
Proof. vm_compute. split; reflexivity. Qed.

Lemma not_allowed_response_witness :
  dispatch getPostX (request "DELETE" "/x") = ActNotAllowed "GET, OPTIONS, POST"
  ∧ ∃ tokens,
      "GET, OPTIONS, POST" = Join tokens ", "
      ∧ ascending tokens
      ∧ ("DELETE" ∉ tokens)
      ∧ (MethodOptions ∈ tokens ↔ HandleOPTIONS getPostX = true).
Proof.
  assert (dispatch getPostX (request "DELETE" "/x")
          = ActNotAllowed "GET, OPTIONS, POST") as Hdispatch
    by (vm_compute; reflexivity).
  split; [exact Hdispatch|].
  destruct (not_allowed_response getPostX (request "DELETE" "/x")
              "GET, OPTIONS, POST" Hdispatch)
    as (_ & _ & _ & _ & Htokens & _).
  destruct Htokens as (tokens & Heq & Hasc & Hnot & Hopt & _); [discriminate|].
  exists tokens. auto.
Defined.

Lemma automatic_options_response_witness :
  dispatch getPostX (request "OPTIONS" "/x") = ActOptions "GET, OPTIONS, POST"
  ∧ perform getPostX (request "OPTIONS" "/x") (ActOptions "GET, OPTIONS, POST")
    = ([EvHeaderSet "Allow" "GET, OPTIONS, POST"; EvWriteHeader 200], Ret tt).
Proof.
  assert (dispatch getPostX (request "OPTIONS" "/x")
          = ActOptions "GET, OPTIONS, POST") as Hdispatch
    by (vm_compute; reflexivity).
  split; [exact Hdispatch|].
  destruct (automatic_options_response getPostX (request "OPTIONS" "/x")
              "GET, OPTIONS, POST" Hdispatch)
    as (_ & _ & _ & _ & _ & _ & Hperform).
  apply Hperform. reflexivity.
Defined.

End AllowFactsScenarios.

(** ** The cached server-wide Allow string *)

Section CacheCoherence.
Context {node : Type} `{TreeOps node}.

Lemma ascending_NoDup (l : list string) : ascending l → NoDup l.
Proof.
  induction 1 as [|x l _ IH Hall]; constructor; [|exact IH].
  intros Hin. rewrite Forall_forall in Hall.
  pose proof (Hall x Hin) as Hlt.
  rewrite ltb_irrefl in Hlt. discriminate.
Qed.

(** The refreshed string is a function of the methods that have a tree and of
    [HandleOPTIONS]. *)
Lemma allowed_refresh_dom (r1 r2 : Router node) :
  (∀ m, is_Some (trees r1 !! m) ↔ is_Some (trees r2 !! m)) →
  HandleOPTIONS r1 = HandleOPTIONS r2 →
  allowed r1 "*" "" = allowed r2 "*" "".
Proof.
  intros Hdom Hopt.
  destruct (refresh_tokens r1) as [Hempty1 Htokens1].
  destruct (refresh_tokens r2) as [Hempty2 Htokens2].
  destruct (rangeAppend (fun method (_ : node) => negb (String.eqb method MethodOptions))
              (map_to_list (trees r1))) as [|x l] eqn:Hcollected.
  - assert (∀ m, is_Some (trees r1 !! m) → m = MethodOptions) as Honly.
    { intros m [t Hm].
      destruct (String.eqb_spec m MethodOptions) as [Heq|Hne]; [exact Heq|].
      exfalso.
      assert (m ∈ rangeAppend
                    (fun method (_ : node) => negb (String.eqb method MethodOptions))
                    (map_to_list (trees r1))) as Hin.
      { apply rangeAppend_elem. exists t. split.
        - apply elem_of_map_to_list. exact Hm.
        - apply negb_true_iff, String.eqb_neq. exact Hne. }
      rewrite Hcollected in Hin. inversion Hin. }
    rewrite Hempty1 by exact Honly.
    rewrite Hempty2; [reflexivity|].
    intros m Hm. apply Honly, Hdom, Hm.
  - assert (∃ m, is_Some (trees r1 !! m) ∧ m ≠ MethodOptions) as Hsome.
    { assert (x ∈ x :: l) as Hx by left.
      rewrite <- Hcollected in Hx.
      apply rangeAppend_elem in Hx as (t & Hin & Hkeep).
      apply elem_of_map_to_list in Hin.
      exists x. split; [eauto|].
      apply negb_true_iff, String.eqb_neq in Hkeep. exact Hkeep. }
    destruct (Htokens1 Hsome) as (tokens1 & -> & Hasc1 & Hmem1).
    destruct Htokens2 as (tokens2 & -> & Hasc2 & Hmem2).
    { destruct Hsome as (m & Hm & Hne). exists m. split; [apply Hdom, Hm|exact Hne]. }
    f_equal. apply ascending_unique; [exact Hasc1|exact Hasc2|].
    apply NoDup_Permutation; [apply ascending_NoDup, Hasc1|apply ascending_NoDup, Hasc2|].
    intros m. rewrite Hmem1, Hmem2, Hdom, Hopt. reflexivity.
Qed.

Lemma allowed_refresh_empty (r : Router node) :
  trees r = ∅ → allowed r "*" "" = "".
Proof.
  intros Hempty. apply (proj1 (refresh_tokens r)).
  intros m [t Hm]. rewrite Hempty, lookup_empty in Hm. discriminate.
Qed.

Lemma step_cache (s : Sys) (op : Op) :
  globalAllowed (router s) = allowed (router s) "*" "" →
  globalAllowed (router (step s op)) = allowed (router (step s op)) "*" "".
Proof.
  intros Hinv. destruct op as [method path handle|choice|i contents].
  - unfold step.
    destruct (Router_Handle (router s) method path handle) as [r' failure] eqn:Hstep.
    change (globalAllowed r' = allowed r' "*" "").
    pose proof (Router_Handle_cache (router s) method path handle)
      as (Hopt & Hsame & _ & Hnew).
    pose proof (Router_Handle_trees (router s) method path handle)
      as (Hup & _ & Hdown).
    rewrite Hstep in Hopt, Hsame, Hnew, Hup, Hdown. simpl in *.
    destruct (trees (router s) !! method) as [root|] eqn:Htree.
    + rewrite Hsame by eauto. rewrite Hinv.
      symmetry. apply allowed_refresh_dom; [|exact Hopt].
      intros m. split; [|apply Hup].
      intros Hm. destruct (Hdown m Hm) as [->|?]; [rewrite Htree; eauto|assumption].
    + destruct (Router_Handle_validation_cases (router s) method path handle)
        as [[Heq _]|[[Heq _]|[[Heq _]|(Hm & Hp & Hh & _)]]];
        try (rewrite Hstep in Heq; injection Heq as -> _; exact Hinv).
      destruct (Hnew eq_refl Hm Hp Hh) as [Hcache Hdom].
      rewrite Hcache. symmetry. apply allowed_refresh_dom; [|exact Hopt].
      exact Hdom.
  - unfold step, getParams, poolGet.
    destruct choice as [i|];
      [destruct (poolItems (paramsPool (router s)) !! i)|];
      try destruct (poolNewSet (paramsPool (router s)));
      exact Hinv.
  - unfold step.
    destruct (issued s !! i) as [b|]; [|exact Hinv].
    destruct (length contents <=? bufCap b)%nat; exact Hinv.
Qed.

(** X17. The cached server-wide Allow string is never stale under
    registration and serving: on a router that starts without trees and with
    an empty cache, after any sequence of registrations (failed ones
    included), [getParams] and [putParams], the cache is the string that
    [allowed] would compute afresh from the trees, and an OPTIONS or other
    request for [*] is answered from it. This holds while [HandleOPTIONS]
    is left as it was when the first route was registered. *)
Theorem globalAllowed_coherent (s : Sys) (ops : list Op) (reqMethod : string) :
  trees (router s) = ∅ →
  globalAllowed (router s) = "" →
  globalAllowed (router (run ops s)) = allowed (router (run ops s)) "*" ""
  ∧ HandleOPTIONS (router (run ops s)) = HandleOPTIONS (router s)
  ∧ (reqMethod ≠ "" →
     allowed (router (run ops s)) "*" reqMethod
     = allowed (router (run ops s)) "*" "").
Proof.
  intros Hempty Hcache.
  assert (globalAllowed (router s) = allowed (router s) "*" "") as Hinv
    by (rewrite allowed_refresh_empty by exact Hempty; exact Hcache).
  clear Hempty Hcache.
  assert (globalAllowed (router (run ops s)) = allowed (router (run ops s)) "*" ""
          ∧ HandleOPTIONS (router (run ops s)) = HandleOPTIONS (router s))
    as [Hfinal Hopt].
  { revert s Hinv. induction ops as [|op ops IH]; intros s Hinv; [auto|].
    change (run (op :: ops) s) with (run ops (step s op)).
    destruct (IH (step s op) (step_cache s op Hinv)) as [Hfinal Hopt].
    split; [exact Hfinal|]. rewrite Hopt.
    destruct op as [method path handle|choice|i contents].
    - unfold step.
      pose proof (Router_Handle_cache (router s) method path handle) as (Hkeep & _).
      destruct (Router_Handle (router s) method path handle). exact Hkeep.
    - unfold step, getParams, poolGet.
      destruct choice as [i|];
        [destruct (poolItems (paramsPool (router s)) !! i)|];
        try destruct (poolNewSet (paramsPool (router s)));
        reflexivity.
    - unfold step.
      destruct (issued s !! i) as [b|]; [|reflexivity].
      destruct (length contents <=? bufCap b)%nat; reflexivity. }
  split; [exact Hfinal|]. split; [exact Hopt|].
  intros Hreq. rewrite allowed_cached by exact Hreq. exact Hfinal.
Qed.

End CacheCoherence.

Section CacheScenarios.
Import Scenarios.

Lemma globalAllowed_coherent_witness :
  globalAllowed (router (run growth (start New)))
  = allowed (router (run growth (start New))) "*" ""
  ∧ HandleOPTIONS (router (run growth (start New))) = true
  ∧ allowed (router (run growth (start New))) "*" "OPTIONS"
    = allowed (router (run growth (start New))) "*" "".
Proof.
  destruct (globalAllowed_coherent (start New) growth "OPTIONS" eq_refl eq_refl)
    as (Hcache & Hopt & Hreq).
  split; [exact Hcache|]. split; [exact Hopt|]. apply Hreq. discriminate.
Defined.

(** Turning [HandleOPTIONS] off after the registration leaves the cache as
    it was computed. *)
Example cache_after_policy_change :
  let r := onlyGetX in
  let r' :=
    mkRouter (trees r) (paramsPool r) (maxParams r) (Middlewares r)
      (SaveMatchedRoutePath r) (RedirectTrailingSlash r) (RedirectFixedPath r)
      (HandleMethodNotAllowed r) false (GlobalOPTIONS r)
      (globalAllowed r) (NotFound r) (MethodNotAllowed r) (RecoveryHandler r)
      (FileSystemForUnmatched r) (ServeUnmatchedAsStatic r) (errorHandler r)
      (isDefaultErrorHandlerUsed r) in
  globalAllowed r' = "GET, OPTIONS" ∧ allowed r' "*" "" = "GET".
Proof. vm_compute. split; reflexivity. Qed.

End CacheScenarios.

(** ** The error-capturing response writer *)

Module ErrorCaptureFacts.
Import ErrorCapture.

(** The call that [processAfterFileServer] makes for a captured status. *)
Definition errorCall (eh : option ErrorHandlerFunc) (request : Request) (code : Z)
    : WCall :=
  match eh with
  | Some h => WErrorHandler code (h request code)
  | None => WHttpError code
  end.

(** What holds of the wrapper between the calls of the file server. *)
Record Inv (writer : ResponseWriter) (request : Request)
    (eh : option ErrorHandlerFunc) (e : errorCapturingResponseWriter) : Prop :=
  mkInv {
    inv_r : r e = request;
    inv_eh : errorHandlerFunc e = eh;
    inv_flusher : wFlusher (w e) = wFlusher writer;
    inv_snapshot : capturedErrorSignal e = false → headerSnapshot e = ∅;
    inv_idle : responseStarted e = false → wCalls (w e) = wCalls writer;
    inv_zero :
      responseStarted e = false → capturedErrorSignal e = false → statusCode e = 0;
    inv_error :
      responseStarted e = false → capturedErrorSignal e = true →
      StatusBadRequest ≤ statusCode e;
    inv_started :
      responseStarted e = true →
      ∃ body,
        wCalls (w e) = wCalls writer ++ WWriteHeader (statusCode e) :: body
        ∧ statusCode e < StatusBadRequest
        ∧ forallb isBodyCall body = true
        ∧ (capturedErrorSignal e = true → body = [])
  }.

Lemma copySnapshot_empty (h : Header) : copySnapshot ∅ h = h.
Proof. unfold copySnapshot. rewrite map_to_list_empty. reflexivity. Qed.

Lemma Inv_new writer request eh :
  Inv writer request eh (newErrorCapturingResponseWriter writer request eh).
Proof. constructor; simpl; auto; discriminate. Qed.

Lemma forallb_snoc {A} (f : A → bool) (l : list A) (x : A) :
  forallb f (l ++ [x]) = forallb f l && f x.
Proof. rewrite forallb_app. simpl. rewrite andb_true_r. reflexivity. Qed.

Lemma Inv_call writer request eh e c :
  Inv writer request eh e → Inv writer request eh (call e c).
Proof.
  intros He. destruct c as [op|code|data|]; simpl.
  - unfold Header_do. destruct (capturedErrorSignal e) eqn:Hcap;
      destruct He as [Hr Heh Hfl Hsnap Hidle Hzero Herr Hstarted];
      constructor; simpl; auto; try congruence;
      intros Hst; destruct (Hstarted Hst) as (body & ? & ? & ? & Hbody);
      exists body; repeat split; auto; congruence.
  - unfold WriteHeader. destruct (responseStarted e) eqn:Hst; [exact He|].
    destruct He as [Hr Heh Hfl Hsnap Hidle Hzero Herr Hstarted].
    destruct (Z.geb_spec code StatusBadRequest) as [Hge|Hlt].
    + constructor; simpl; auto; try congruence; try discriminate;
        try (intros; lia).
    + constructor; simpl; auto; try congruence; try discriminate.
      intros _. exists []. rewrite Hidle by exact Hst.
      split; [reflexivity|]. split; [lia|]. split; reflexivity.
  - unfold Write. destruct (capturedErrorSignal e) eqn:Hcap; [exact He|].
    destruct He as [Hr Heh Hfl Hsnap Hidle Hzero Herr Hstarted].
    destruct (responseStarted e) eqn:Hst; simpl.
    + destruct (Hstarted eq_refl) as (body & Hlog & Hcode & Hbody & _).
      constructor; simpl; auto; try congruence.
      intros _. exists (body ++ [WWrite data]). rewrite Hlog, <- app_assoc.
      split; [reflexivity|]. split; [exact Hcode|].
      split; [rewrite forallb_snoc, Hbody; reflexivity|congruence].
    + constructor; simpl; auto; try congruence; try discriminate.
      intros _. exists [WWrite data]. rewrite Hidle by reflexivity.
      rewrite <- app_assoc. split; [reflexivity|].
      rewrite (Hzero eq_refl Hcap). simpl.
      split; [reflexivity|]. split; [reflexivity|congruence].
  - unfold Flush. destruct (wFlusher (w e)); [|exact He].
    destruct (capturedErrorSignal e) eqn:Hcap; simpl; [exact He|].
    destruct (responseStarted e) eqn:Hst; [|exact He].
    destruct He as [Hr Heh Hfl Hsnap Hidle Hzero Herr Hstarted].
    destruct (Hstarted Hst) as (body & Hlog & Hcode & Hbody & _).
    constructor; simpl; auto; try congruence.
    intros _. exists (body ++ [WFlush]). rewrite Hlog, <- app_assoc.
    split; [reflexivity|]. split; [exact Hcode|].
    split; [rewrite forallb_snoc, Hbody; reflexivity|congruence].
Qed.

Lemma Inv_calls writer request eh calls e :
  Inv writer request eh e → Inv writer request eh (fold_left call calls e).
Proof.
  revert e. induction calls as [|c calls IH]; intros e He; [exact He|].
  simpl. apply IH, Inv_call, He.
Qed.

(** X18. What reaches the original writer behind the error-capturing
    writer, whatever the file server does: nothing; or one call of the error
    handler (of [http.Error] without one) with a status of 400 or more and
    nothing else; or one status line below 400 followed by writes and
    flushes only. An error status line is never written by the wrapper, and
    the error handler is never called after a part of the response was
    sent. *)
Theorem captured_response_shape (writer : ResponseWriter) (request : Request)
    (eh : option ErrorHandlerFunc) (calls : list Call) :
  ∃ log,
    wCalls (w (serveCaptured writer request eh calls)) = wCalls writer ++ log
    ∧ (log = []
       ∨ (∃ code, StatusBadRequest ≤ code ∧ log = [errorCall eh request code])
       ∨ (∃ code body,
             code < StatusBadRequest
             ∧ log = WWriteHeader code :: body
             ∧ forallb isBodyCall body = true)).
Proof.
  unfold serveCaptured.
  pose proof (Inv_calls writer request eh calls _ (Inv_new writer request eh))
    as [Hr Heh Hfl Hsnap Hidle Hzero Herr Hstarted].
  set (e := fold_left call calls (newErrorCapturingResponseWriter writer request eh))
    in *.
  unfold processAfterFileServer.
  destruct (responseStarted e) eqn:Hst.
  - rewrite andb_false_r.
    destruct (Hstarted eq_refl) as (body & Hlog & Hcode & Hbody & _).
    exists (WWriteHeader (statusCode e) :: body). split; [exact Hlog|].
    right. right. exists (statusCode e), body. auto.
  - destruct (capturedErrorSignal e) eqn:Hcap; simpl.
    + exists [errorCall eh request (statusCode e)]. split.
      * rewrite Heh. unfold errorCall.
        destruct eh; simpl; rewrite ?Hr, (Hidle eq_refl); reflexivity.
      * right. left. exists (statusCode e). split; [apply Herr; reflexivity|].
        reflexivity.
    + exists []. rewrite app_nil_r. split; [apply Hidle; reflexivity|].
      left. reflexivity.
Qed.

Lemma quiet_calls (calls : list Call) (e : errorCapturingResponseWriter) :
  forallb isHeaderCall calls = true →
  capturedErrorSignal e = false →
  fold_left call calls e
  = mkEcw (withHeader (w e) (fold_left applyOp (headerOps calls) (wHeader (w e))))
      (r e) (errorHandlerFunc e) (statusCode e) (headerSnapshot e)
      (capturedErrorSignal e) (responseStarted e).
Proof.
  revert e. induction calls as [|c calls IH]; intros e Hquiet Hcap.
  - destruct e as [[h l f] ? ? ? ? ? ?]. reflexivity.
  - simpl in Hquiet. apply andb_true_iff in Hquiet as [Hc Hquiet].
    destruct c as [op| | |]; try discriminate.
    change (fold_left call (CHeader op :: calls) e)
      with (fold_left call calls (Header_do e op)).
    change (headerOps (CHeader op :: calls)) with (op :: headerOps calls).
    assert (Header_do e op
            = mkEcw (withHeader (w e) (applyOp (wHeader (w e)) op)) (r e)
                (errorHandlerFunc e) (statusCode e) (headerSnapshot e)
                (capturedErrorSignal e) (responseStarted e)) as ->
      by (unfold Header_do; rewrite Hcap; reflexivity).
    rewrite IH; [reflexivity|exact Hquiet|exact Hcap].
Qed.

Lemma dropped_calls (calls : list Call) (e : errorCapturingResponseWriter) :
  forallb (fun c => match c with CWriteHeader _ => false | _ => true end) calls
  = true →
  capturedErrorSignal e = true →
  fold_left call calls e
  = mkEcw (w e) (r e) (errorHandlerFunc e) (statusCode e)
      (fold_left applyOp (headerOps calls) (headerSnapshot e))
      (capturedErrorSignal e) (responseStarted e).
Proof.
  revert e. induction calls as [|c calls IH]; intros e Hnone Hcap.
  - destruct e. reflexivity.
  - simpl in Hnone. apply andb_true_iff in Hnone as [Hc Hnone].
    destruct c as [op|code|data|]; try discriminate.
    + change (fold_left call (CHeader op :: calls) e)
        with (fold_left call calls (Header_do e op)).
      change (headerOps (CHeader op :: calls)) with (op :: headerOps calls).
      assert (Header_do e op
              = mkEcw (w e) (r e) (errorHandlerFunc e) (statusCode e)
                  (applyOp (headerSnapshot e) op) (capturedErrorSignal e)
                  (responseStarted e)) as ->
        by (unfold Header_do; rewrite Hcap; reflexivity).
      rewrite IH; [reflexivity|exact Hnone|exact Hcap].
    + change (fold_left call (CWrite data :: calls) e)
        with (fold_left call calls (Write e data).1).
      assert ((Write e data).1 = e) as ->
        by (unfold Write; rewrite Hcap; reflexivity).
      apply IH; assumption.
    + change (fold_left call (CFlush :: calls) e)
        with (fold_left call calls (Flush e)).
      assert (Flush e = e) as ->.
      { unfold Flush. rewrite Hcap. simpl. destruct (wFlusher (w e)); reflexivity. }
      apply IH; assumption.
Qed.

(** X19. A file server that sets headers, then writes an error status, and
    afterwards writes no other status: the original writer gets the one call
    of the error handler with that status and no status line or body of the
    file server. The headers set before the error status are on the original
    writer when the error handler runs; those set after it stay in the
    snapshot. *)
Theorem captured_error_replaced (writer : ResponseWriter) (request : Request)
    (eh : option ErrorHandlerFunc) (before after : list Call) (code : Z) :
  forallb isHeaderCall before = true →
  StatusBadRequest ≤ code →
  forallb (fun c => match c with CWriteHeader _ => false | _ => true end) after
  = true →
  wCalls (w (serveCaptured writer request eh
               (before ++ CWriteHeader code :: after)))
  = wCalls writer ++ [errorCall eh request code]
  ∧ wHeader (w (serveCaptured writer request eh
                  (before ++ CWriteHeader code :: after)))
    = fold_left applyOp (headerOps before) (wHeader writer)
  ∧ headerSnapshot (serveCaptured writer request eh
                      (before ++ CWriteHeader code :: after))
    = fold_left applyOp (headerOps after) ∅.
Proof.
  intros Hbefore Hcode Hafter. unfold serveCaptured.
  rewrite fold_left_app. simpl fold_left at 1.
  rewrite (quiet_calls before) by (exact Hbefore || reflexivity).
  simpl. unfold WriteHeader at 1 2 3. simpl.
  destruct (Z.geb_spec code StatusBadRequest) as [_|Hlt]; [|lia].
  rewrite !dropped_calls by (exact Hafter || reflexivity).
  unfold processAfterFileServer, errorCall. simpl.
  destruct eh; simpl; repeat split.
Qed.

(** X20. A file server that writes no error status is served as if the
    wrapper were not there: every header operation acts on the header of the
    original writer, in order, and every piece of data it writes is
    forwarded, in order; the error handler is not called and the snapshot
    stays empty. *)
Theorem captured_success_transparent (writer : ResponseWriter) (request : Request)
    (eh : option ErrorHandlerFunc) (calls : list Call) :
  forallb (fun c => negb (isErrorStatus c)) calls = true →
  wHeader (w (serveCaptured writer request eh calls))
  = fold_left applyOp (headerOps calls) (wHeader writer)
  ∧ forwardedData (wCalls (w (serveCaptured writer request eh calls)))
    = forwardedData (wCalls writer) ++ written calls
  ∧ capturedErrorSignal (serveCaptured writer request eh calls) = false
  ∧ headerSnapshot (serveCaptured writer request eh calls) = ∅
  ∧ (∀ c, c ∈ wCalls (w (serveCaptured writer request eh calls)) →
          c ∈ wCalls writer ∨ (∃ code, c = WWriteHeader code ∧ code < StatusBadRequest)
          ∨ isBodyCall c = true).
Proof.
  intros Hok. unfold serveCaptured.
  assert (∀ calls e,
             forallb (fun c => negb (isErrorStatus c)) calls = true →
             capturedErrorSignal e = false →
             headerSnapshot e = ∅ →
             capturedErrorSignal (fold_left call calls e) = false
             ∧ headerSnapshot (fold_left call calls e) = ∅
             ∧ wHeader (w (fold_left call calls e))
               = fold_left applyOp (headerOps calls) (wHeader (w e))
             ∧ forwardedData (wCalls (w (fold_left call calls e)))
               = forwardedData (wCalls (w e)) ++ written calls) as Hgen.
  { clear. induction calls as [|c calls IH]; intros e Hok Hcap Hsnap.
    - simpl. rewrite app_nil_r. auto.
    - simpl in Hok. apply andb_true_iff in Hok as [Hc Hok].
      assert (capturedErrorSignal (call e c) = false
              ∧ headerSnapshot (call e c) = ∅
              ∧ wHeader (w (call e c))
                = fold_left applyOp (headerOps [c]) (wHeader (w e))
              ∧ forwardedData (wCalls (w (call e c)))
                = forwardedData (wCalls (w e)) ++ written [c]) as (H1 & H2 & H3 & H4).
      { destruct c as [op|code|data|]; simpl in *.
        - unfold Header_do. rewrite Hcap. simpl. rewrite app_nil_r. auto.
        - unfold WriteHeader. apply negb_true_iff in Hc. rewrite Hc.
          destruct (responseStarted e); simpl; rewrite ?app_nil_r; auto.
          rewrite Hsnap, copySnapshot_empty.
          unfold forwardedData. rewrite omap_app. simpl. rewrite app_nil_r. auto.
        - unfold Write. rewrite Hcap.
          destruct (responseStarted e); simpl;
            rewrite ?Hsnap, ?copySnapshot_empty;
            unfold forwardedData; rewrite !omap_app; simpl;
            rewrite ?app_nil_r; auto.
        - unfold Flush. rewrite Hcap.
          destruct (wFlusher (w e)), (responseStarted e); simpl;
            rewrite ?app_nil_r; auto.
          unfold forwardedData. rewrite omap_app. simpl. rewrite app_nil_r. auto. }
      destruct (IH (call e c) Hok H1 H2) as (G1 & G2 & G3 & G4).
      change (fold_left call (c :: calls) e)
        with (fold_left call calls (call e c)).
      split; [exact G1|]. split; [exact G2|]. split.
      + rewrite G3, H3.
        change (c :: calls) with ([c] ++ calls).
        unfold headerOps. rewrite omap_app, fold_left_app. reflexivity.
      + rewrite G4, H4, <- app_assoc.
        change (c :: calls) with ([c] ++ calls).
        unfold written. rewrite (omap_app _ [c] calls). reflexivity. }
  destruct (Hgen calls (newErrorCapturingResponseWriter writer request eh) Hok
              eq_refl eq_refl) as (Hcap & Hsnap & Hheader & Hdata).
  pose proof (Inv_calls writer request eh calls _ (Inv_new writer request eh))
    as [_ _ _ _ Hidle _ _ Hstarted].
  set (e := fold_left call calls (newErrorCapturingResponseWriter writer request eh))
    in *.
  assert (processAfterFileServer e = e) as ->
    by (unfold processAfterFileServer; rewrite Hcap; reflexivity).
  split; [exact Hheader|]. split; [exact Hdata|]. split; [exact Hcap|].
  split; [exact Hsnap|].
  intros c Hc. destruct (responseStarted e) eqn:Hst.
  - destruct (Hstarted eq_refl) as (body & Hlog & Hcode & Hbody & _).
    rewrite Hlog in Hc. apply elem_of_app in Hc as [Hc|Hc]; [left; exact Hc|].
    right. apply elem_of_cons in Hc as [->|Hc].
    + left. eauto.
    + right. rewrite forallb_forall in Hbody. apply Hbody.
      apply list_elem_of_In. exact Hc.
  - left. rewrite <- (Hidle eq_refl). exact Hc.
Qed.

End ErrorCaptureFacts.

Section ErrorCaptureScenarios.
Import ErrorCapture ErrorCaptureFacts Scenarios.

(** A writer nothing was written to. *)
Definition blank : ResponseWriter := mkWriter ∅ [] true.

(** What [http.Error] does: two headers, the status, the message. *)
Definition notFoundHeaders : list Call :=
  [CHeader (HSet "Content-Type" "text/plain; charset=utf-8");
   CHeader (HSet "X-Content-Type-Options" "nosniff")].

Definition notFoundBody : list Call := [CWrite "404 page not found"].

(** A file that is found: headers, an explicit 200, the content in two
    pieces and a flush. *)
Definition fileFound : list Call :=
  [CHeader (HSet "Content-Type" "text/css");
   CWriteHeader 200; CWrite "body {"; CWrite "}"; CFlush].

Lemma captured_error_replaced_witness :
  wCalls (w (serveCaptured blank (request "GET" "/missing.css")
               (Some (fun _ code => [EvUser "custom" []; EvWriteHeader code]))
               (notFoundHeaders ++ CWriteHeader 404 :: notFoundBody)))
  = [WErrorHandler 404 [EvUser "custom" []; EvWriteHeader 404]]
  ∧ wHeader (w (serveCaptured blank (request "GET" "/missing.css")
                  (Some (fun _ code => [EvUser "custom" []; EvWriteHeader code]))
                  (notFoundHeaders ++ CWriteHeader 404 :: notFoundBody)))
    = fold_left applyOp (headerOps notFoundHeaders) (wHeader blank)
  ∧ headerSnapshot (serveCaptured blank (request "GET" "/missing.css")
                      (Some (fun _ code => [EvUser "custom" []; EvWriteHeader code]))
                      (notFoundHeaders ++ CWriteHeader 404 :: notFoundBody))
    = fold_left applyOp (headerOps notFoundBody) ∅.
Proof.
  apply (captured_error_replaced blank (request "GET" "/missing.css")
           (Some (fun _ code => [EvUser "custom" []; EvWriteHeader code]))
           notFoundHeaders notFoundBody 404).
  - reflexivity.
  - unfold StatusBadRequest. lia.
  - reflexivity.
Defined.

Lemma captured_success_transparent_witness :
  wHeader (w (serveCaptured blank (request "GET" "/site.css") None fileFound))
  = fold_left applyOp (headerOps fileFound) (wHeader blank)
  ∧ forwardedData
      (wCalls (w (serveCaptured blank (request "GET" "/site.css") None fileFound)))
    = ["body {"; "}"].
Proof.
  destruct (captured_success_transparent blank (request "GET" "/site.css") None
              fileFound eq_refl) as (Hheader & Hdata & _).
  split; [exact Hheader|exact Hdata].
Defined.

Example file_found_log :
  wCalls (w (serveCaptured blank (request "GET" "/site.css") None fileFound))
  = [WWriteHeader 200; WWrite "body {"; WWrite "}"; WFlush].
Proof. vm_compute. reflexivity. Qed.

(** An error status followed by a success status: the status line goes out
    and the body is dropped. *)
Example error_then_success_loses_the_body :
  wCalls (w (serveCaptured blank (request "GET" "/x") None
               [CWriteHeader 404; CWriteHeader 200; CWrite "hello"]))
  = [WWriteHeader 200].
Proof. vm_compute. reflexivity. Qed.

End ErrorCaptureScenarios.

(** ** Serving files *)

Section ServeFilesFacts.
Context {node : Type} `{TreeOps node}.

Lemma lacksFilepathSuffix_append (x path : string) :
  lacksFilepathSuffix path = false → lacksFilepathSuffix (x +:+ path) = false.
Proof.
  unfold lacksFilepathSuffix. intros Hpath.
  apply orb_false_iff in Hpath as [Hlen Hsuffix].
  apply Nat.ltb_ge in Hlen.
  apply orb_false_iff. split.
  - apply Nat.ltb_ge. rewrite length_append. lia.
  - rewrite length_append, substring_append_r by lia.
    replace (String.length x + String.length path - 10 - String.length x)%nat
      with (String.length path - 10)%nat by lia.
    exact Hsuffix.
Qed.

Lemma joinGroupPath_suffix (p rel : string) :
  lacksFilepathSuffix rel = false →
  lacksFilepathSuffix (joinGroupPath p rel) = false.
Proof.
  intros Hrel. unfold joinGroupPath.
  assert (10 ≤ String.length rel)%nat as Hlen.
  { unfold lacksFilepathSuffix in Hrel.
    apply orb_false_iff in Hrel as [Hlen _]. apply Nat.ltb_ge in Hlen. exact Hlen. }
  destruct (String.eqb_spec rel "") as [->|_]; [simpl in Hlen; lia|].
  destruct (String.eqb_spec rel "/") as [->|_]; [simpl in Hlen; lia|].
  destruct (String.eqb p "/"), (firstByteIs "/" rel);
    first [ exact Hrel | apply lacksFilepathSuffix_append; exact Hrel
          | apply lacksFilepathSuffix_append, lacksFilepathSuffix_append; exact Hrel ].
Qed.

Lemma applyGroupMiddlewares_some (ms : list Middleware) (handle : Handle) :
  is_Some (applyGroupMiddlewares ms (Some handle)).
Proof. unfold applyGroupMiddlewares. destruct (length ms =? 0)%nat; eauto. Qed.

Lemma not_validation (e : RegPanic) :
  isValidationPanic e = false → ∃ v, e = FromAddRoute v.
Proof. destruct e; try discriminate. eauto. Qed.

(** X21. [Group.ServeFiles] panics on a relative path that does not end
    with [/*filepath] and leaves the router as it was. Otherwise the route
    it registers for GET, the group prefix joined with the relative path,
    begins with a slash and still ends with [/*filepath], so that the only
    panic left is one of the tree; and the handle hands the file server the
    request with the captured [filepath] as its path, the query kept, and
    the parameters in the context. *)
Theorem Group_ServeFiles_registration (g : Group) (r : Router node)
    (rel : string) (fileServer : Handler) :
  firstByteIs "/" (prefix g) = true →
  (lacksFilepathSuffix rel = true →
   Group_ServeFiles g r rel fileServer = (r, Some (GroupFilesPathSuffix rel)))
  ∧ (lacksFilepathSuffix rel = false →
     lacksFilepathSuffix (joinGroupPath (prefix g) rel) = false
     ∧ lacksLeadingSlash (joinGroupPath (prefix g) rel) = false
     ∧ (Group_ServeFiles g r rel fileServer).1
       = (Group_Handle g r MethodGet rel (Some (fileServeHandle fileServer))).1
     ∧ ∀ e, (Group_ServeFiles g r rel fileServer).2 = Some e →
            ∃ v, e = FilesFromHandle (FromAddRoute v))
  ∧ (∀ request ps,
        ∃ request',
          fileServeHandle fileServer request ps = fileServer request'
          ∧ Path (ReqURL request') = ByName ps "filepath"
          ∧ RawQuery (ReqURL request') = RawQuery (ReqURL request)
          ∧ Method request' = Method request
          ∧ (ps ≠ [] → ParamsFromContext request' = ps)).
Proof.
  intros Hprefix. split; [|split].
  - intros Hrel. unfold Group_ServeFiles. rewrite Hrel. reflexivity.
  - intros Hrel.
    assert (lacksLeadingSlash (joinGroupPath (prefix g) rel) = false) as Hslash
      by (apply firstByteIs_has_slash, joinGroupPath_firstByteIs, Hprefix).
    split; [apply joinGroupPath_suffix, Hrel|]. split; [exact Hslash|].
    unfold Group_ServeFiles, Group_Handle. rewrite Hrel.
    destruct (Router_Handle_validation_cases r MethodGet
                (joinGroupPath (prefix g) rel)
                (applyGroupMiddlewares (middlewares g)
                   (Some (fileServeHandle fileServer))))
      as [[_ ?]|[[_ (_ & ?)]|[[_ (_ & _ & Hnil)]|(_ & _ & _ & Hrest)]]].
    + discriminate.
    + congruence.
    + destruct (applyGroupMiddlewares_some (middlewares g)
                  (fileServeHandle fileServer)) as [final Hfinal].
      congruence.
    + destruct (Router_Handle r MethodGet (joinGroupPath (prefix g) rel)
                  (applyGroupMiddlewares (middlewares g)
                     (Some (fileServeHandle fileServer)))) as [r' [e'|]];
        simpl in *.
      * split; [reflexivity|]. intros e He. injection He as <-.
        destruct (not_validation e' (Hrest e' eq_refl)) as [v ->]. eauto.
      * split; [reflexivity|]. discriminate.
  - intros request ps. unfold fileServeHandle.
    destruct ps as [|p ps].
    + eexists. split; [reflexivity|]. repeat split. contradiction.
    + eexists. split; [reflexivity|]. repeat split.
Qed.

(** X22. [Router.ServeFiles]: a path that does not end with [/*filepath]
    fails the check of [ServeFiles] itself; a path that ends with it but
    does not begin with a slash fails the path check of [Handle]; in both
    cases the router is as before. No other check fails, and when the call
    returns GET has a tree. *)
Theorem Router_ServeFiles_registration (r : Router node) (path : string)
    (fileServer : Handler) :
  match (Router_ServeFiles r path fileServer).2 with
  | Some (FilesPathSuffix p) =>
      p = path ∧ lacksFilepathSuffix path = true
      ∧ (Router_ServeFiles r path fileServer).1 = r
  | Some (GroupFilesPathSuffix _) => False
  | Some (FilesFromHandle e) =>
      lacksFilepathSuffix path = false
      ∧ ((e = PathWithoutSlash path ∧ lacksLeadingSlash path = true
          ∧ (Router_ServeFiles r path fileServer).1 = r)
         ∨ (lacksLeadingSlash path = false ∧ ∃ v, e = FromAddRoute v))
  | None =>
      lacksFilepathSuffix path = false
      ∧ lacksLeadingSlash path = false
      ∧ is_Some (trees (Router_ServeFiles r path fileServer).1 !! MethodGet)
  end.
Proof.
  unfold Router_ServeFiles, Router_GET.
  destruct (lacksFilepathSuffix path) eqn:Hsuffix; [simpl; auto|].
  pose proof (Router_Handle_trees r MethodGet path
                (Some (fileServeHandle fileServer))) as (_ & Hnew & _).
  destruct (Router_Handle_validation_cases r MethodGet path
              (Some (fileServeHandle fileServer)))
    as [[_ ?]|[[Heq (_ & Hslash)]|[[_ (_ & _ & ?)]|(_ & Hslash & _ & Hrest)]]].
  - discriminate.
  - rewrite Heq. simpl. split; [reflexivity|]. left. auto.
  - discriminate.
  - destruct (Router_Handle r MethodGet path (Some (fileServeHandle fileServer)))
      as [r' [e'|]]; simpl in *.
    + split; [reflexivity|]. right. split; [exact Hslash|].
      apply not_validation, Hrest. reflexivity.
    + split; [reflexivity|]. split; [exact Hslash|]. apply Hnew. reflexivity.
Qed.

End ServeFilesFacts.

Section ServeFilesScenarios.
Import Scenarios.

(** A file server that reports the path it is asked for. *)
Definition echoFiles : Handler :=
  fun request => emit (EvUser (Path (ReqURL request)) (ParamsFromContext request)).

Definition staticGroup : Group := Group_Use (mkGroup "/static" []) [tag "g"].

Lemma Group_ServeFiles_registration_witness :
  Group_ServeFiles staticGroup (New (node := RouteTable.Table)) "/files" echoFiles
  = (New, Some (GroupFilesPathSuffix "/files"))
  ∧ lacksFilepathSuffix (joinGroupPath (prefix staticGroup) "/*filepath") = false
  ∧ lacksLeadingSlash (joinGroupPath (prefix staticGroup) "/*filepath") = false.
Proof.
  destruct (Group_ServeFiles_registration staticGroup
              (New (node := RouteTable.Table)) "/files" echoFiles eq_refl)
    as (Hbad & _ & _).
  destruct (Group_ServeFiles_registration staticGroup
              (New (node := RouteTable.Table)) "/*filepath" echoFiles eq_refl)
    as (_ & Hgood & _).
  split; [apply Hbad; reflexivity|].
  destruct (Hgood eq_refl) as (Hsuffix & Hslash & _).
  split; [exact Hsuffix|exact Hslash].
Defined.

Example group_files_are_served :
  ServeHTTP
    (Group_ServeFiles staticGroup (New (node := RouteTable.Table)) "/*filepath"
       echoFiles).1
    (request "GET" "/static/css/site.css")
  = ([EvUser "g" [];
      EvUser "/css/site.css" [mkParam "filepath" "/css/site.css"]], Ret tt).
Proof. vm_compute. reflexivity. Qed.

End ServeFilesScenarios.

(* ===================================================================== *)
(** * Part IV: the lookup and the pool *)
(* ===================================================================== *)

Section PooledLookupFacts.
Context {node : Type} `{TreeOps node}.

Lemma defer_recv_below (r : Router node) (req : Request) (body : Go unit) :
  defer_ (fun p => recv r 1 req p) body = body.
Proof.
  unfold defer_. destruct body as [t res]. rewrite recv_below_deferred.
  rewrite app_nil_r. reflexivity.
Qed.

Lemma lookupStage_on (r : Router node) (request : Request) :
  lookupStage r request
  = match trees r !! Method request with
    | Some root =>
        lookupStageOn r request root (getValue root (Path (ReqURL request)))
    | None => None
    end.
Proof.
  unfold lookupStage, lookupStageOn.
  destruct (trees r !! Method request) as [root|]; [|reflexivity].
  destruct (getValue root (Path (ReqURL request))) as [[handle psPtr] tsr].
  reflexivity.
Qed.

Lemma getValue_pool_found (r : Router node) root path choice handle psPtr tsr r' :
  getValue_pool r root path choice = (Ret (handle, psPtr, tsr), r') →
  getValue root path = (handle, pointee psPtr, tsr).
Proof.
  unfold getValue_pool.
  destruct (getValue root path) as [[h [ps|]] t].
  - destruct (getParams r choice) as [[b|v] r0]; [|discriminate].
    destruct (length ps <=? bufCap b)%nat; [|discriminate].
    intros Heq. injection Heq as <- <- <- _. reflexivity.
  - intros Heq. injection Heq as <- <- <- _. reflexivity.
Qed.

(** When its lookup returns, the core handler does what the decision says. *)
Lemma core_pool_returns (r : Router node) (req request : Request) choice :
  lookupReturns r request choice = true →
  (coreRoutingAndHandling_pool r req choice request).1
  = perform r request (dispatch r request).
Proof.
  unfold lookupReturns, coreRoutingAndHandling_pool, dispatch.
  rewrite lookupStage_on.
  destruct (trees r !! Method request) as [root|];
    [|intros _; simpl; apply defer_recv_below].
  destruct (getValue_pool r root (Path (ReqURL request)) choice)
    as [[[[handle psPtr] tsr]|v] r'] eqn:Hpool; [|discriminate].
  intros _. rewrite (getValue_pool_found _ _ _ _ _ _ _ _ Hpool).
  cbv zeta. cbn [fst]. rewrite defer_recv_below.
  destruct (lookupStageOn r request root (handle, pointee psPtr, tsr));
    reflexivity.
Qed.

(** When its lookup panics, the core handler does nothing to the response
    and the panic leaves it. *)
Lemma core_pool_panics (r : Router node) (req request : Request) choice :
  lookupReturns r request choice = false →
  ∃ v, (coreRoutingAndHandling_pool r req choice request).1 = ([], Panic v).
Proof.
  unfold lookupReturns, coreRoutingAndHandling_pool.
  destruct (trees r !! Method request) as [root|]; [|discriminate].
  destruct (getValue_pool r root (Path (ReqURL request)) choice)
    as [[[[handle psPtr] tsr]|v] r'] eqn:Hpool; [discriminate|].
  intros _. exists v. cbn [fst]. apply defer_recv_below.
Qed.

(** C2. For a request whose lookup returns, the core handler of [ServeHTTP]
    performs the action of the first branch that resolves, the branches
    being tried in the order exact match, trailing-slash redirect,
    fixed-path redirect, automatic OPTIONS, method not allowed, fallback;
    that action is the only one, and without middleware it is what
    [ServeHTTP] does. *)
Theorem core_performs_first_resolving_branch (r : Router node)
    (req request : Request) (choice : option nat) :
  lookupReturns r request choice = true →
  branches = [branchExactMatch; branchTrailingSlash; branchFixedPath;
              branchAutoOptions; branchNotAllowed; branchFallback]
  ∧ ∃ a,
      firstResolving branches r request = Some a
      ∧ (∀ a', firstResolving branches r request = Some a' → a' = a)
      ∧ (coreRoutingAndHandling_pool r req choice request).1
        = perform r request a
      ∧ (Middlewares r = [] →
         ServeHTTP_pool r request choice = perform r request a).
Proof.
  intros Hreturns.
  destruct (dispatch_first_resolving_branch r request)
    as (Hbranches & Hfirst & Honly & _).
  split; [exact Hbranches|].
  exists (dispatch r request).
  split; [exact Hfirst|]. split; [exact Honly|]. split.
  - apply core_pool_returns, Hreturns.
  - intros Hnone. unfold ServeHTTP_pool, applyMiddleware. rewrite Hnone.
    simpl. apply core_pool_returns, Hreturns.
Qed.

Lemma routeParams_fits (r : Router node) (path : string) :
  0 ≤ countParams path < 65535 → routeParams r path = paramCount r path.
Proof.
  intros Hfit. unfold routeParams, paramCount, wrap16.
  rewrite (Z.mod_small (countParams path)) by lia.
  destruct (SaveMatchedRoutePath r).
  - change ((0 + 1) mod 65536) with 1. apply Z.mod_small. lia.
  - apply Z.mod_small. lia.
Qed.

(** Where the hypothesis on the wildcards comes from: a count of 65536 is
    kept as zero. *)
Lemma count_wraps_at_uint16 (r : Router node) (path : string) :
  countParams path = 65536 → SaveMatchedRoutePath r = false →
  routeParams r path = 0 ∧ paramCount r path = 65536.
Proof.
  intros Hcount Hsave. unfold routeParams, paramCount, wrap16.
  rewrite Hcount, Hsave. split; reflexivity.
Qed.

Lemma routeCounts_registered (ops : list Op) (s : Sys) :
  countsFit ops = true →
  registered (run ops s) ≡ₚ routeCounts ops s ++ registered s.
Proof.
  revert s. induction ops as [|op ops IH]; intros s Hfit; [reflexivity|].
  change (run (op :: ops) s) with (run ops (step s op)).
  simpl in Hfit. apply andb_true_iff in Hfit as [Hop Hfit].
  rewrite (IH (step s op) Hfit).
  cbn [routeCounts]. rewrite <- app_assoc.
  rewrite (Permutation_app_swap_app _ (routeCounts ops (step s op))).
  apply Permutation_app_head.
  destruct op as [method path handle|choice|i contents]; simpl.
  - apply andb_true_iff in Hop as [Hlow Hhigh].
    apply Z.leb_le in Hlow. apply Z.ltb_lt in Hhigh.
    destruct (Router_Handle (router s) method path handle) as [r' [e|]];
      simpl; [reflexivity|].
    rewrite routeParams_fits by lia. reflexivity.
  - destruct (getParams (router s) choice) as [[b|v] r']; reflexivity.
  - destruct (issued s !! i) as [b|]; [|reflexivity].
    destruct (length contents <=? bufCap b)%nat; reflexivity.
Qed.

(** C6. Routes with fewer than 65535 wildcards each are registered on a
    fresh router, and then such routes are registered and buffers are taken
    and put back in any order. Once a route with parameters is registered,
    [getParams] returns a buffer; its length is zero; its capacity is at
    least the number of parameters of every route registered before the pool
    issued its first buffer; and it is at least the number of parameters of
    every route registered so far when the pool allocates the buffer afresh,
    or when no registration has raised the maximum since the pool began to
    issue buffers. *)
Theorem getParams_capacity (r0 : Router node) (regs ops : list Op)
    (choice : option nat) :
  pristine r0 →
  forallb isRegistration regs = true →
  countsFit (regs ++ ops) = true →
  (∃ n, n ∈ routeCounts (regs ++ ops) (mkSys r0 [] []) ∧ 0 < n) →
  ∃ b (r' : Router node),
    getParams (router (run ops (run regs (mkSys r0 [] [])))) choice = (Ret b, r')
    ∧ length (bufItems b) = 0%nat
    ∧ Forall (fun n => n ≤ Z.of_nat (bufCap b))
        (routeCounts regs (mkSys r0 [] []))
    ∧ (choice = None
       ∨ maxParams (router (run ops (run regs (mkSys r0 [] []))))
         = maxParams (router (run regs (mkSys r0 [] []))) →
       Forall (fun n => n ≤ Z.of_nat (bufCap b))
         (routeCounts (regs ++ ops) (mkSys r0 [] []))).
Proof.
  intros Hfresh Hregs Hfit Hsome.
  assert (countsFit regs = true) as Hfit_regs.
  { unfold countsFit in *. rewrite forallb_app in Hfit.
    apply andb_true_iff in Hfit as [Hfit _]. exact Hfit. }
  pose proof (routeCounts_registered (regs ++ ops) (mkSys r0 [] []) Hfit) as Hall.
  pose proof (routeCounts_registered regs (mkSys r0 [] []) Hfit_regs) as Hfirst.
  assert (run (regs ++ ops) (mkSys r0 [] []) = run ops (run regs (mkSys r0 [] [])))
    as Hrun by (unfold run; apply fold_left_app).
  rewrite Hrun in Hall. simpl in Hall, Hfirst. rewrite app_nil_r in Hall, Hfirst.
  destruct (getParams_buffer r0 regs ops choice Hfresh Hregs)
    as (b & r' & Hget & Hlen & Hcap & Hnow).
  { destruct Hsome as (n & Hn & Hpos). exists n. split; [|exact Hpos].
    rewrite Hall. exact Hn. }
  exists b, r'. split; [exact Hget|]. split; [exact Hlen|]. split.
  - rewrite <- Hfirst. exact Hcap.
  - intros Hcase. rewrite <- Hall. apply Hnow, Hcase.
Qed.







End PooledLookupFacts.

Section PooledLookupScenarios.
Import Scenarios.

(** The router after [growth]: [/a/:x] and [/b/:x/:y] are registered, and
    the pool holds one buffer, of capacity one. *)
Definition grown : Router RouteTable.Table := router (run growth (start New)).

Definition twoParams : Request := request "GET" "/b/1/2".

(** With a fresh buffer the lookup returns, and the handler of the route is
    the one action. *)
Lemma core_performs_first_resolving_branch_witness :
  lookupReturns grown twoParams None = true
  ∧ ∃ a,
      firstResolving branches grown twoParams = Some a
      ∧ (∀ a', firstResolving branches grown twoParams = Some a' → a' = a)
      ∧ (coreRoutingAndHandling_pool grown twoParams None twoParams).1
        = perform grown twoParams a
      ∧ (Middlewares grown = [] →
         ServeHTTP_pool grown twoParams None = perform grown twoParams a).
Proof.
  assert (lookupReturns grown twoParams None = true) as Hreturns
    by (vm_compute; reflexivity).
  split; [exact Hreturns|].
  destruct (core_performs_first_resolving_branch grown twoParams twoParams None
              Hreturns) as [_ Hone].
  exact Hone.
Defined.

Example fresh_buffer_is_served :
  ServeHTTP_pool grown twoParams None
  = ([EvUser "b" [mkParam "x" "1"; mkParam "y" "2"]], Ret tt)
  ∧ map bufCap
      (poolItems
         (paramsPool (coreRoutingAndHandling_pool grown twoParams None twoParams).2))
    = [2%nat; 1%nat].
Proof. vm_compute. split; reflexivity. Qed.

(** With the recycled buffer, of capacity one, the lookup of a route with
    two parameters panics: the core handler performs no action. *)
Lemma one_action_recycled_counterexample :
  ¬ oneActionAsStated grown twoParams twoParams (Some 0%nat).
Proof.
  intros (a & Hfirst & Hcore).
  assert ((coreRoutingAndHandling_pool grown twoParams (Some 0%nat) twoParams).1
          = ([], Panic (PanicString "slice bounds out of range"))) as Hpanic
    by (vm_compute; reflexivity).
  rewrite Hpanic in Hcore.
  assert (∃ handle,
             firstResolving branches grown twoParams
             = Some (ActInvoke handle
                       (withParams twoParams [mkParam "x" "1"; mkParam "y" "2"])
                       [mkParam "x" "1"; mkParam "y" "2"])
             ∧ handle = say "b") as (handle & Hfound & ->)
    by (eexists; split; vm_compute; reflexivity).
  rewrite Hfound in Hfirst. injection Hfirst as <-.
  vm_compute in Hcore. discriminate.
Qed.

Example recycled_buffer_panics :
  ServeHTTP_pool grown twoParams (Some 0%nat)
  = ([], Panic (PanicString "slice bounds out of range"))
  ∧ lookupReturns grown twoParams (Some 0%nat) = false.
Proof. vm_compute. split; reflexivity. Qed.

(** Two routes are registered, [/a/:x] and [/b/:x/:y]; a buffer taken
    afterwards has length zero and room for two parameters. *)
Lemma getParams_capacity_witness :
  ∃ b (r' : Router RouteTable.Table),
    getParams
      (router
         (run [OpGet None; OpPut 0 []]
            (run [OpHandle "GET" "/a/:x" (Some (say "a"));
                  OpHandle "GET" "/b/:x/:y" (Some (say "b"))]
               (mkSys New [] []))))
      (Some 0%nat)
    = (Ret b, r')
    ∧ length (bufItems b) = 0%nat
    ∧ Forall (fun n => n ≤ Z.of_nat (bufCap b)) [1; 2].
Proof.
  destruct (getParams_capacity New
              [OpHandle "GET" "/a/:x" (Some (say "a"));
               OpHandle "GET" "/b/:x/:y" (Some (say "b"))]
              [OpGet None; OpPut 0 []] (Some 0%nat))
    as (b & r' & Hget & Hlen & Hcap & _).
  - repeat split.
  - reflexivity.
  - vm_compute. reflexivity.
  - exists 2. split; [|lia]. vm_compute. right. left.
  - exists b, r'. split; [exact Hget|]. split; [exact Hlen|].
    exact Hcap.
Defined.

(** A buffer is taken and put back while the maximum is one; a route with
    two parameters is registered; the pool then hands the old buffer out
    again, with capacity one. *)
Lemma getParams_capacity_recycled_counterexample :
  ¬ capacityAsStated growth (start New).
Proof.
  intros Hclaim.
  assert (∃ r', getParams (router (run growth (start New))) (Some 0%nat)
                = (Ret (mkBuf [] 1), r')) as [r' Hget]
    by (eexists; vm_compute; reflexivity).
  assert (routeCounts growth (start New) = [1; 2]) as Hcounts
    by (vm_compute; reflexivity).
  assert (∃ n, n ∈ routeCounts growth (start New) ∧ 0 < n) as Hsome.
  { exists 2. rewrite Hcounts. split; [right; left|lia]. }
  destruct (Hclaim Hsome _ _ _ Hget) as [_ Hcap].
  rewrite Hcounts in Hcap.
  inversion Hcap as [|? ? _ Hrest]. inversion Hrest as [|? ? Hle _].
  vm_compute in Hle. apply Hle. reflexivity.
Qed.

(** [Lookup] with a fresh buffer finds the handle and its two parameters,
    and keeps the buffer; [ServeHTTP] after it, given the recycled buffer,
    panics in its own lookup. *)
Example lookup_then_serve :
  (∃ handle r1,
      Lookup_pool grown "GET" "/b/1/2" None
      = (Ret (Some handle, [mkParam "x" "1"; mkParam "y" "2"], false), r1)
      ∧ map bufCap (poolItems (paramsPool r1)) = [1%nat]
      ∧ lookupReturns r1 twoParams (Some 0%nat) = false
      ∧ lookupReturns r1 twoParams None = true)
  ∧ ∃ r1,
      Lookup_pool grown "GET" "/b/1" None = (Ret (None, [], false), r1)
      ∧ map bufCap (poolItems (paramsPool r1)) = [1%nat].
Proof.
  split.
  - eexists _, _. split; [vm_compute; reflexivity|].
    vm_compute. repeat split.
  - eexists. split; [vm_compute; reflexivity|]. vm_compute. reflexivity.
Qed.

End PooledLookupScenarios.
